(** * nuImages table store and annotation renderer

    A shallow embedding of [python-sdk/nuimages/nuimages.py] (class
    [NuImages]) and the properties of its lazy table store, its key-frame
    index and its annotation renderer.

    The Python object is an explicit state record threaded through a
    state-and-exception monad; the file system, the image codec, the
    drawing primitives, the colour map and the two helpers imported from
    [nuimages.utils.utils] are an interface ([Environment]) the class is
    parametrised by. *)

From stdpp Require Import base option list gmap strings fin_maps.
From Stdlib Require Import ZArith Lia Ascii.

Local Open Scope string_scope.
Local Open Scope Z_scope.
Local Open Scope list_scope.

(** ** JSON values and table records *)

(** What [json.load] yields for a field.  Numbers read by the methods
    below are integers (flags, pixel boxes); objects keep their keys in
    file order. *)
#[warnings="-register-all"] Inductive value : Type :=
  | VNone
  | VBool (b : bool)
  | VNum (z : Z)
  | VStr (s : string)
  | VList (l : list value)
  | VDict (d : list (string * value)).

(** A record of a table file: a JSON object.  The dataset layout gives
    every record a string [token]; it is kept as a field of its own, all
    other keys live in [fields]. *)
Record record : Type := Record_ {
  token : string;
  fields : gmap string value;
}.

Abbreviation table := (list record).

Definition rgb : Type := Z * Z * Z.
Definition rgba : Type := Z * Z * Z * Z.

(** ** Exceptions *)

Inductive exn : Type :=
  | AssertionError (msg : string)
  | KeyError (key : value)
  | TypeError (msg : string)
  | IndexError (msg : string)
  | AttributeError (name : string)
  | ExternalError (msg : string).

Inductive result (A : Type) : Type :=
  | Ok (a : A)
  | Err (e : exn).
Arguments Ok {A} a.
Arguments Err {A} e.

Definition is_Ok {A} (r : result A) : bool :=
  match r with Ok _ => true | Err _ => false end.

Definition is_Err {A} (r : result A) : bool := negb (is_Ok r).

#[global] Instance result_ret : MRet result := λ A a, Ok a.
#[global] Instance result_bind : MBind result := λ A B f m,
  match m with Ok a => f a | Err e => Err e end.

(** [assert c, msg] *)
Definition assert_ (c : bool) (msg : string) : result unit :=
  if c then Ok tt else Err (AssertionError msg).

(** ** Python operations on values *)

(** [r[k]] on a record. *)
Definition getitem (r : record) (k : string) : result value :=
  if String.eqb k "token" then Ok (VStr (token r))
  else match fields r !! k with
       | Some v => Ok v
       | None => Err (KeyError (VStr k))
       end.

(** Truth value of an object, as in [if v:]. *)
Definition truthy (v : value) : bool :=
  match v with
  | VNone => false
  | VBool b => b
  | VNum z => negb (z =? 0)
  | VStr s => negb (String.eqb s "")
  | VList l => match l with [] => false | _ => true end
  | VDict d => match d with [] => false | _ => true end
  end.

(** [v == s] for a string literal or string argument [s]. *)
Definition eq_str (v : value) (s : string) : bool :=
  match v with VStr s' => String.eqb s' s | _ => false end.

(** [v is None] *)
Definition is_None (v : value) : bool :=
  match v with VNone => true | _ => false end.

(** [v in tokens] for a list of strings. *)
Definition in_tokens (v : value) (tokens : list string) : bool :=
  existsb (eq_str v) tokens.

(** [d[k]] on a dict whose keys are all strings. *)
Definition dict_getitem {V} (d : gmap string V) (k : value) : result V :=
  match k with
  | VStr s => match d !! s with
              | Some v => Ok v
              | None => Err (KeyError k)
              end
  | VList _ | VDict _ => Err (TypeError "unhashable type")
  | _ => Err (KeyError k)
  end.

Fixpoint chars (s : string) : list value :=
  match s with
  | EmptyString => []
  | String c s' => VStr (String c EmptyString) :: chars s'
  end.

(** [v[i]] for a non-negative integer literal [i]. *)
Definition subscript (v : value) (i : nat) : result value :=
  match v with
  | VList l => match l !! i with
               | Some x => Ok x
               | None => Err (IndexError "list index out of range")
               end
  | VStr s => match chars s !! i with
              | Some x => Ok x
              | None => Err (IndexError "string index out of range")
              end
  | VDict _ => Err (KeyError (VNum (Z.of_nat i)))
  | _ => Err (TypeError "object is not subscriptable")
  end.

(** The elements [for x in v] runs over. *)
Definition iter_value (v : value) : result (list value) :=
  match v with
  | VList l => Ok l
  | VStr s => Ok (chars s)
  | VDict d => Ok (VStr <$> d.*1)
  | _ => Err (TypeError "object is not iterable")
  end.

(** Keys of a dict that is filled with arbitrary hashable JSON values.
    [True] and [1] are the same key, as are [False] and [0]. *)
Inductive pykey : Type :=
  | KNone
  | KNum (z : Z)
  | KStr (s : string).

#[global] Instance pykey_eq_dec : EqDecision pykey.
Proof. solve_decision. Defined.

Definition pykey_enc (k : pykey) : unit + (Z + string) :=
  match k with
  | KNone => inl tt
  | KNum z => inr (inl z)
  | KStr s => inr (inr s)
  end.

Definition pykey_dec (x : unit + (Z + string)) : pykey :=
  match x with
  | inl _ => KNone
  | inr (inl z) => KNum z
  | inr (inr s) => KStr s
  end.

#[global] Instance pykey_countable : Countable pykey.
Proof.
  apply (inj_countable' pykey_enc pykey_dec).
  intros []; reflexivity.
Defined.

(** [hash(v)]: [None] stands for the [TypeError] of an unhashable value. *)
Definition hashable (v : value) : option pykey :=
  match v with
  | VNone => Some KNone
  | VBool b => Some (KNum (Z.b2z b))
  | VNum z => Some (KNum z)
  | VStr s => Some (KStr s)
  | VList _ | VDict _ => None
  end.

(** [posixpath.join(a, b)] *)
Definition ends_with_slash (a : string) : bool :=
  match String.get (String.length a - 1) a with
  | Some c => Ascii.eqb c "/"%char
  | None => false
  end.

Definition osp_join (a b : string) : string :=
  if String.prefix "/" b then b
  else if String.eqb a "" || ends_with_slash a then a +:+ b
  else a +:+ "/" +:+ b.

(** ** The collaborators of the class *)

Class Environment : Type := {
  (** [PIL.Image] objects and decoded masks *)
  Image : Type;
  Mask : Type;
  (** [os.path.exists] *)
  osp_exists : string → bool;
  (** [json.load(open(path))] for a table file that exists: an array of
      records *)
  json_load : string → table;
  (** [nuscenes.utils.color_map.get_colormap()] *)
  get_colormap : gmap string rgb;
  (** [PIL.Image.open] *)
  Image_open : string → result Image;
  (** [nuimages.utils.utils.mask_decode] *)
  mask_decode : value → result Mask;
  (** [nuimages.utils.utils.annotation_name(attributes, category_name,
      with_attributes)] *)
  annotation_name : list record → value → bool → result value;
  (** [draw.bitmap((0, 0), PIL.Image.fromarray(mask * 128), fill=...)] *)
  draw_bitmap : Image → Mask → rgba → result Image;
  (** [draw.rectangle(bbox, outline=color)] *)
  draw_rectangle : Image → value → rgb → result Image;
  (** [draw.text(xy, name, font=font)] *)
  draw_text : Image → value * value → value → result Image;
}.

(** ** The object state *)

(** The instance dictionary of a [NuImages] object.  [tables] holds the
    table attributes that have been set ([self.attribute], ...);
    [reads] is ghost state: the table names whose file has been read by
    [__load_table__], in order.  Attribute names that would shadow a
    method of the class ([load_table('get')] with a file [get.json]) are
    not told apart from other names. *)
Record NuImages : Type := NuImages_ {
  version : string;
  dataroot : string;
  lazy : bool;
  verbose : bool;
  tables : gmap string table;
  _token2ind : gmap string (option (gmap string nat));
  color_map : gmap string rgb;
  sample_to_key_frame_map : option (gmap string (gmap pykey value));
  reads : list string;
}.

Definition set_config (v d : string) (l vb : bool) (σ : NuImages) : NuImages :=
  NuImages_ v d l vb (tables σ) (_token2ind σ) (color_map σ)
            (sample_to_key_frame_map σ) (reads σ).

Definition set_tables (f : gmap string table → gmap string table)
    (σ : NuImages) : NuImages :=
  NuImages_ (version σ) (dataroot σ) (lazy σ) (verbose σ) (f (tables σ))
            (_token2ind σ) (color_map σ) (sample_to_key_frame_map σ) (reads σ).

Definition set_token2ind
    (f : gmap string (option (gmap string nat)) →
         gmap string (option (gmap string nat)))
    (σ : NuImages) : NuImages :=
  NuImages_ (version σ) (dataroot σ) (lazy σ) (verbose σ) (tables σ)
            (f (_token2ind σ)) (color_map σ) (sample_to_key_frame_map σ)
            (reads σ).

Definition set_color_map (cm : gmap string rgb) (σ : NuImages) : NuImages :=
  NuImages_ (version σ) (dataroot σ) (lazy σ) (verbose σ) (tables σ)
            (_token2ind σ) cm (sample_to_key_frame_map σ) (reads σ).

Definition set_sample_to_key_frame_map
    (m : option (gmap string (gmap pykey value))) (σ : NuImages) : NuImages :=
  NuImages_ (version σ) (dataroot σ) (lazy σ) (verbose σ) (tables σ)
            (_token2ind σ) (color_map σ) m (reads σ).

Definition log_read (name : string) (σ : NuImages) : NuImages :=
  NuImages_ (version σ) (dataroot σ) (lazy σ) (verbose σ) (tables σ)
            (_token2ind σ) (color_map σ) (sample_to_key_frame_map σ)
            (reads σ ++ [name]).

(** The object before [__init__] has run. *)
Definition blank : NuImages :=
  NuImages_ "" "" true false ∅ ∅ ∅ None [].

(** ** State and exceptions

    A method maps the object state to its outcome and the state it
    leaves behind; after an exception the state reached so far stays. *)
Definition M (A : Type) : Type := NuImages → result A * NuImages.

#[global] Instance M_ret : MRet M := λ A a σ, (Ok a, σ).
#[global] Instance M_bind : MBind M := λ A B f m σ,
  match m σ with
  | (Ok a, σ') => f a σ'
  | (Err e, σ') => (Err e, σ')
  end.

Definition lift {A} (r : result A) : M A := λ σ, (r, σ).
Definition gets {A} (f : NuImages → A) : M A := λ σ, (Ok (f σ), σ).
Definition modify (f : NuImages → NuImages) : M unit := λ σ, (Ok tt, f σ).
Definition raise {A} (e : exn) : M A := λ σ, (Err e, σ).

Definition table_names : list string :=
  ["attribute"; "calibrated_sensor"; "category"; "ego_pose"; "log";
   "object_ann"; "sample"; "sample_data"; "sensor"; "surface_ann"].

(** The attributes [__init__] sets besides the tables. *)
Definition instance_attrs : list string :=
  ["version"; "dataroot"; "lazy"; "verbose"; "table_names"; "_token2ind";
   "color_map"; "sample_to_key_frame_map"].

(** [name in self.__dict__.keys()] *)
Definition in_dict (σ : NuImages) (name : string) : bool :=
  bool_decide (name ∈ instance_attrs) || bool_decide (is_Some (tables σ !! name)).

Definition table_root (σ : NuImages) : string :=
  osp_join (dataroot σ) (version σ).

Definition table_path (σ : NuImages) (table_name : string) : string :=
  osp_join (table_root σ) (table_name +:+ ".json").

(** [l[i]] on a list. *)
Definition list_getitem {A} (l : list A) (i : nat) : result A :=
  match l !! i with
  | Some x => Ok x
  | None => Err (IndexError "list index out of range")
  end.

(** [self._token2ind[table_name][key] = ind] *)
Definition token2ind_setitem (table_name key : string) (ind : nat)
    (σ : NuImages) : NuImages :=
  set_token2ind (alter (fmap (insert key ind)) table_name) σ.

(** [[o for o in tbl if o['sample_data_token'] == sample_data_token]] *)
Fixpoint select_sample_data (tbl : table) (sample_data_token : string)
    : result table :=
  match tbl with
  | [] => Ok []
  | o :: rest =>
      v ← getitem o "sample_data_token";
      rest' ← select_sample_data rest sample_data_token;
      Ok (if eq_str v sample_data_token then o :: rest' else rest')
  end.

(** [if tokens is not None: anns = [o for o in anns if o['token'] in tokens]] *)
Definition select_tokens (tokens : option (list string)) (anns : table) : table :=
  match tokens with
  | None => anns
  | Some l => List.filter (λ o, in_tokens (VStr (token o)) l) anns
  end.

(** One round of the loop of [sample_to_key_frame]. *)
Definition key_frame_step (mapping : gmap string (gmap pykey value))
    (sample_data : record) : result (gmap string (gmap pykey value)) :=
  kf ← getitem sample_data "is_key_frame";
  if truthy kf then
    ff ← getitem sample_data "fileformat";
    let sd_modality := if eq_str ff "jpg" then "camera" else "lidar" in
    sd_sample_token ← getitem sample_data "sample_token";
    tok ← getitem sample_data "token";
    inner ← dict_getitem mapping (VStr sd_modality);
    match hashable sd_sample_token with
    | Some k => Ok (<[sd_modality := <[k := tok]> inner]> mapping)
    | None => Err (TypeError "unhashable type")
    end
  else Ok mapping.

Fixpoint key_frame_loop (mapping : gmap string (gmap pykey value))
    (sample_datas : table) : result (gmap string (gmap pykey value)) :=
  match sample_datas with
  | [] => Ok mapping
  | sd :: rest =>
      mapping' ← key_frame_step mapping sd;
      key_frame_loop mapping' rest
  end.

(** [{'image': dict(), 'lidar': dict()}] *)
Definition key_frame_init : gmap string (gmap pykey value) :=
  <["image" := ∅]> (<["lidar" := ∅]> ∅).

(** [d[k]] on a dict with arbitrary hashable keys. *)
Definition pydict_getitem {V} (d : gmap pykey V) (k : value) : result V :=
  match hashable k with
  | None => Err (TypeError "unhashable type")
  | Some key => match d !! key with
                | Some v => Ok v
                | None => Err (KeyError k)
                end
  end.

(** ** The methods of [NuImages] *)

Section Methods.
Context `{Environment}.

(** [__load_table__]: the assertion on the path, then the read. *)
Definition __load_table__ (table_name : string) : M table :=
  table_path ← gets (λ σ, table_path σ table_name);
  lift (assert_ (osp_exists table_path)
          ("Error: Table " +:+ table_name +:+ " does not exist!"));;
  modify (log_read table_name);;
  mret (json_load table_path).

(** [load_table] *)
Definition load_table (table_name : string) : M unit :=
  present ← gets (λ σ, in_dict σ table_name);
  if (present : bool) then mret tt
  else
    table ← __load_table__ table_name;
    modify (set_tables (insert table_name table)).

(** [getattr(self, attr_name)] for a table name: the attribute when it
    is set, [__getattr__] otherwise.  It is applied to table names only
    ([get] asserts it, [getind] subscripts [_token2ind] first). *)
Definition getattr_ (attr_name : string) : M table :=
  attr ← gets (λ σ, tables σ !! attr_name);
  match attr with
  | Some tbl => mret tbl
  | None =>
      if bool_decide (attr_name ∈ table_names) then
        load_table attr_name;;
        attr' ← gets (λ σ, tables σ !! attr_name);
        match attr' with
        | Some tbl => mret tbl
        | None => raise (AttributeError attr_name)
        end
      else raise (AttributeError attr_name)
  end.

(** The loop [for ind, member in enumerate(...)] of [getind]. *)
Fixpoint index_loop (table_name : string) (ind : nat) (members : table)
    : M unit :=
  match members with
  | [] => mret tt
  | member :: rest =>
      modify (token2ind_setitem table_name (token member) ind);;
      index_loop table_name (S ind) rest
  end.

(** [getind] *)
Definition getind (table_name : string) (tok : value) : M nat :=
  t2i ← gets _token2ind;
  entry ← lift (dict_getitem t2i (VStr table_name));
  match entry with
  | None =>
      modify (set_token2ind (insert table_name (Some ∅)));;
      tbl ← getattr_ table_name;
      index_loop table_name 0 tbl
  | Some _ => mret tt
  end;;
  t2i ← gets _token2ind;
  entry ← lift (dict_getitem t2i (VStr table_name));
  match entry with
  | Some ix => lift (dict_getitem ix tok)
  | None => raise (TypeError "'NoneType' object is not subscriptable")
  end.

(** [get]: the table is evaluated before the index. *)
Definition get (table_name : string) (tok : value) : M record :=
  lift (assert_ (bool_decide (table_name ∈ table_names))
          ("Table " +:+ table_name +:+ " not found"));;
  tbl ← getattr_ table_name;
  ind ← getind table_name tok;
  lift (list_getitem tbl ind).

(** [self.<name> = self.__load_table__('<name>')] *)
Definition init_table (table_name : string) : M unit :=
  table ← __load_table__ table_name;
  modify (set_tables (insert table_name table)).

(** [__init__]; the messages printed under [verbose] are left out. *)
Definition __init__ (version dataroot : string) (lazy verbose : bool)
    : M unit :=
  modify (set_config version dataroot lazy verbose);;
  root ← gets table_root;
  lift (assert_ (osp_exists root)
          ("Database version not found: " +:+ root));;
  modify (set_token2ind (λ _, ∅));;
  modify (set_token2ind (λ d, foldl (λ d table, <[table := None]> d) d table_names));;
  (if negb lazy then
     init_table "attribute";;
     init_table "calibrated_sensor";;
     init_table "category";;
     init_table "ego_pose";;
     init_table "log";;
     init_table "object_ann";;
     init_table "sample";;
     init_table "sample_data";;
     init_table "sensor";;
     init_table "surface_ann"
   else mret tt);;
  modify (set_color_map get_colormap);;
  modify (set_sample_to_key_frame_map None).

(** [NuImages(version, dataroot, lazy, verbose)] *)
Definition NuImages_new (version dataroot : string) (lazy verbose : bool)
    : result unit * NuImages :=
  __init__ version dataroot lazy verbose blank.

(** [sample_to_key_frame] *)
Definition sample_to_key_frame (sample_token modality : string) : M value :=
  m ← gets sample_to_key_frame_map;
  match m with
  | None =>
      sample_datas ← getattr_ "sample_data";
      mapping ← lift (key_frame_loop key_frame_init sample_datas);
      modify (set_sample_to_key_frame_map (Some mapping))
  | Some _ => mret tt
  end;;
  m ← gets sample_to_key_frame_map;
  match m with
  | Some mapping =>
      lift (inner ← dict_getitem mapping (VStr modality);
            pydict_getitem inner (VStr sample_token))
  | None => raise (TypeError "'NoneType' object is not subscriptable")
  end.

(** [self.color_map[self.get('category', ann['category_token'])['name']]],
    with the name. *)
Definition category_color (ann : record) : M (value * rgb) :=
  category_token ← lift (getitem ann "category_token");
  category ← get "category" category_token;
  category_name ← lift (getitem category "name");
  cm ← gets color_map;
  color ← lift (dict_getitem cm category_name);
  mret (category_name, color).

(** [tuple(color + (128,))] *)
Definition fill_of (color : rgb) : rgba := (color, 128).

(** The loop over the surface annotations of [render_image]. *)
Fixpoint draw_surface_anns (anns : table) (im : Image) : M Image :=
  match anns with
  | [] => mret im
  | ann :: rest =>
      '(_, color) ← category_color ann;
      mask_v ← lift (getitem ann "mask");
      if is_None mask_v then draw_surface_anns rest im
      else
        mask ← lift (mask_decode mask_v);
        im' ← lift (draw_bitmap im mask (fill_of color));
        draw_surface_anns rest im'
  end.

(** [[self.get('attribute', at) for at in attr_tokens]] *)
Fixpoint get_attributes (attr_tokens : list value) : M (list record) :=
  match attr_tokens with
  | [] => mret []
  | at_ :: rest =>
      a ← get "attribute" at_;
      rest' ← get_attributes rest;
      mret (a :: rest')
  end.

(** The loop over the object annotations of [render_image]. *)
Fixpoint draw_object_anns (with_attributes : bool) (anns : table)
    (im : Image) : M Image :=
  match anns with
  | [] => mret im
  | ann :: rest =>
      '(category_name, color) ← category_color ann;
      bbox ← lift (getitem ann "bbox");
      attr_tokens ← lift (getitem ann "attribute_tokens");
      attr_tokens ← lift (iter_value attr_tokens);
      attributes ← get_attributes attr_tokens;
      name ← lift (annotation_name attributes category_name with_attributes);
      mask_v ← lift (getitem ann "mask");
      if is_None mask_v then draw_object_anns with_attributes rest im
      else
        mask ← lift (mask_decode mask_v);
        im1 ← lift (draw_rectangle im bbox color);
        x ← lift (subscript bbox 0);
        y ← lift (subscript bbox 1);
        im2 ← lift (draw_text im1 (x, y) name);
        im3 ← lift (draw_bitmap im2 mask (fill_of color));
        draw_object_anns with_attributes rest im3
  end.

(** [osp.join(self.dataroot, filename)] *)
Definition image_path (dataroot : string) (filename : value) : result string :=
  match filename with
  | VStr f => Ok (osp_join dataroot f)
  | _ => Err (TypeError "expected str, bytes or os.PathLike object")
  end.

(** [render_image].  The returned image is modelled; showing it on the
    matplotlib axes ([render_scale], [ax]) is not. *)
Definition render_image (sample_data_token : string)
    (with_annotations with_attributes : bool)
    (object_tokens surface_tokens : option (list string)) : M Image :=
  sample_data ← get "sample_data" (VStr sample_data_token);
  fileformat ← lift (getitem sample_data "fileformat");
  lift (assert_ (eq_str fileformat "jpg")
          "Error: Cannot use render_image() on lidar pointclouds!");;
  is_key_frame ← lift (getitem sample_data "is_key_frame");
  (if negb (truthy is_key_frame) then
     lift (assert_ (negb with_annotations)
             "Error: Cannot render annotations for non keyframes!");;
     lift (assert_ (negb with_attributes)
             "Error: Cannot render attributes for non keyframes!")
   else mret tt);;
  filename ← lift (getitem sample_data "filename");
  root ← gets dataroot;
  im_path ← lift (image_path root filename);
  im ← lift (Image_open im_path);
  if negb with_annotations then mret im
  else
    surface_ann ← getattr_ "surface_ann";
    surface_anns ← lift (select_sample_data surface_ann sample_data_token);
    im ← draw_surface_anns (select_tokens surface_tokens surface_anns) im;
    object_ann ← getattr_ "object_ann";
    object_anns ← lift (select_sample_data object_ann sample_data_token);
    draw_object_anns with_attributes (select_tokens object_tokens object_anns) im.

End Methods.

(** ** What the methods compute, without the state

    The outcome of a lookup or a render in a well-formed state depends on
    the files only.  These functions say what it is; the theorems below
    relate them to the methods. *)

(** The reverse index [getind] builds: later positions overwrite
    earlier ones. *)
Fixpoint index_from (ind : nat) (members : table) (ix : gmap string nat)
    : gmap string nat :=
  match members with
  | [] => ix
  | member :: rest => index_from (S ind) rest (<[token member := ind]> ix)
  end.

Definition index_of (tbl : table) : gmap string nat := index_from 0 tbl ∅.

(** [allowed tokens t]: an annotation with token [t] passes the
    allow-list. *)
Definition allowed (tokens : option (list string)) (t : string) : bool :=
  match tokens with
  | None => true
  | Some l => in_tokens (VStr t) l
  end.

Section Spec.
Context `{Environment}.

(** The table a name stands for under a table root. *)
Definition table_on_disk (root table_name : string) : result table :=
  let path := osp_join root (table_name +:+ ".json") in
  assert_ (osp_exists path)
    ("Error: Table " +:+ table_name +:+ " does not exist!");;
  Ok (json_load path).

Definition find_token (tbl : table) (tok : value) : result record :=
  ind ← dict_getitem (index_of tbl) tok;
  list_getitem tbl ind.

Definition lookup_record (root table_name : string) (tok : value)
    : result record :=
  tbl ← table_on_disk root table_name;
  find_token tbl tok.

Definition resolve_color (root : string) (cm : gmap string rgb)
    (ann : record) : result (value * rgb) :=
  category_token ← getitem ann "category_token";
  category ← lookup_record root "category" category_token;
  category_name ← getitem category "name";
  color ← dict_getitem cm category_name;
  Ok (category_name, color).

Fixpoint lookup_attributes (root : string) (attr_tokens : list value)
    : result (list record) :=
  match attr_tokens with
  | [] => Ok []
  | at_ :: rest =>
      a ← lookup_record root "attribute" at_;
      rest' ← lookup_attributes root rest;
      Ok (a :: rest')
  end.

(** The calls on the drawing context. *)
Inductive draw_cmd : Type :=
  | Bitmap (mask : Mask) (fill : rgba)
  | Rectangle (bbox : value) (outline : rgb)
  | Text (bbox : value) (name : value).

Definition exec_cmd (im : Image) (c : draw_cmd) : result Image :=
  match c with
  | Bitmap mask fill => draw_bitmap im mask fill
  | Rectangle bbox outline => draw_rectangle im bbox outline
  | Text bbox name =>
      x ← subscript bbox 0;
      y ← subscript bbox 1;
      draw_text im (x, y) name
  end.

Fixpoint exec_cmds (cmds : list draw_cmd) (im : Image) : result Image :=
  match cmds with
  | [] => Ok im
  | c :: rest => im' ← exec_cmd im c; exec_cmds rest im'
  end.

(** What one surface annotation draws. *)
Definition surface_cmds (root : string) (cm : gmap string rgb)
    (ann : record) : result (list draw_cmd) :=
  '(_, color) ← resolve_color root cm ann;
  mask_v ← getitem ann "mask";
  if is_None mask_v then Ok []
  else
    mask ← mask_decode mask_v;
    Ok [Bitmap mask (fill_of color)].

(** What one object annotation draws. *)
Definition object_cmds (root : string) (cm : gmap string rgb)
    (with_attributes : bool) (ann : record) : result (list draw_cmd) :=
  '(category_name, color) ← resolve_color root cm ann;
  bbox ← getitem ann "bbox";
  attr_tokens ← getitem ann "attribute_tokens";
  attr_tokens ← iter_value attr_tokens;
  attributes ← lookup_attributes root attr_tokens;
  name ← annotation_name attributes category_name with_attributes;
  mask_v ← getitem ann "mask";
  if is_None mask_v then Ok []
  else
    mask ← mask_decode mask_v;
    Ok [Rectangle bbox color; Text bbox name; Bitmap mask (fill_of color)].

(** The commands of a list of annotations, in the order of the list. *)
Fixpoint plan (f : record → result (list draw_cmd)) (anns : table)
    : result (list draw_cmd) :=
  match anns with
  | [] => Ok []
  | ann :: rest =>
      cs ← f ann;
      cs' ← plan f rest;
      Ok (cs ++ cs')
  end.

(** The annotations of a table that refer to a sample_data and pass an
    allow-list, in table order. *)
Definition annotations_of (root table_name sample_data_token : string)
    (tokens : option (list string)) : result table :=
  tbl ← table_on_disk root table_name;
  anns ← select_sample_data tbl sample_data_token;
  Ok (select_tokens tokens anns).

(** The checks of [render_image] and the image it opens. *)
Definition base_image (root dataroot sample_data_token : string)
    (with_annotations with_attributes : bool) : result Image :=
  sample_data ← lookup_record root "sample_data" (VStr sample_data_token);
  fileformat ← getitem sample_data "fileformat";
  assert_ (eq_str fileformat "jpg")
    "Error: Cannot use render_image() on lidar pointclouds!";;
  is_key_frame ← getitem sample_data "is_key_frame";
  (if negb (truthy is_key_frame) then
     assert_ (negb with_annotations)
       "Error: Cannot render annotations for non keyframes!";;
     assert_ (negb with_attributes)
       "Error: Cannot render attributes for non keyframes!"
   else Ok tt);;
  filename ← getitem sample_data "filename";
  im_path ← image_path dataroot filename;
  Image_open im_path.

(** A loop of [render_image] over annotations: the commands of each
    annotation run before the next annotation is looked at. *)
Fixpoint pass (f : record → result (list draw_cmd)) (anns : table)
    (im : Image) : result Image :=
  match anns with
  | [] => Ok im
  | ann :: rest =>
      cs ← f ann;
      im' ← exec_cmds cs im;
      pass f rest im'
  end.

(** The outcome of [render_image]. *)
Definition render (root dataroot : string) (cm : gmap string rgb)
    (sample_data_token : string) (with_annotations with_attributes : bool)
    (object_tokens surface_tokens : option (list string)) : result Image :=
  im ← base_image root dataroot sample_data_token
         with_annotations with_attributes;
  if negb with_annotations then Ok im
  else
    surface_anns ← annotations_of root "surface_ann" sample_data_token
                     surface_tokens;
    im ← pass (surface_cmds root cm) surface_anns im;
    object_anns ← annotations_of root "object_ann" sample_data_token
                    object_tokens;
    pass (object_cmds root cm with_attributes) object_anns im.

(** The allow-list [tokens'] is [tokens] without the annotation [a] of
    the table [tbl], whose mask is absent and whose token is its own. *)
Definition excludes_absent_mask (tbl : table) (a : record)
    (tokens tokens' : option (list string)) : Prop :=
  a ∈ tbl ∧ getitem a "mask" = Ok VNone ∧
  (∀ b, b ∈ tbl → token b = token a → b = a) ∧
  allowed tokens' (token a) = false ∧
  (∀ b, b ∈ tbl → token b ≠ token a →
        allowed tokens' (token b) = allowed tokens (token b)).

(** The category of the annotation [a] does not resolve to a colour:
    its token is not in the category table, or its name is not in the
    colour map.  [e] is the [KeyError] of the failing subscript. *)
Definition dangling (root : string) (cm : gmap string rgb) (a : record)
    (e : exn) : Prop :=
  (∃ c cats, getitem a "category_token" = Ok (VStr c) ∧
     table_on_disk root "category" = Ok cats ∧ (c ∉ token <$> cats) ∧
     e = KeyError (VStr c)) ∨
  (∃ ct cat n, getitem a "category_token" = Ok ct ∧
     lookup_record root "category" ct = Ok cat ∧
     getitem cat "name" = Ok (VStr n) ∧ cm !! n = None ∧
     e = KeyError (VStr n)).

(** ** Well-formed states *)

(** What holds of the object between two method calls, once [__init__]
    has returned. *)
Record wf (σ : NuImages) : Prop := {
  wf_tables : ∀ t tbl, tables σ !! t = Some tbl →
    osp_exists (table_path σ t) = true ∧ tbl = json_load (table_path σ t);
  wf_index_dom : ∀ t, is_Some (_token2ind σ !! t) ↔ t ∈ table_names;
  wf_index : ∀ t ix, _token2ind σ !! t = Some (Some ix) →
    match tables σ !! t with
    | Some tbl => ix = index_of tbl
    | None => ix = ∅ ∧ osp_exists (table_path σ t) = false
    end;
  wf_reads : NoDup (reads σ);
  wf_reads_loaded : ∀ t, t ∈ reads σ → is_Some (tables σ !! t);
  wf_color_map : color_map σ = get_colormap;
  wf_key_frames : ∀ m, sample_to_key_frame_map σ = Some m →
    key_frame_loop key_frame_init (json_load (table_path σ "sample_data")) = Ok m;
}.

(** The state after the table [t] has been read and stored. *)
Definition with_table (t : string) (σ : NuImages) : NuImages :=
  set_tables (insert t (json_load (table_path σ t))) (log_read t σ).

(** The state after the reverse index of [t] has been set. *)
Definition with_index (t : string) (ix : gmap string nat) (σ : NuImages)
    : NuImages :=
  set_token2ind (insert t (Some ix)) σ.

(** Loading tables one after the other, stopping at the first whose file
    is missing: what [__init__] does when [lazy] is off. *)
Fixpoint load_all (names : list string) (σ : NuImages)
    : result unit * NuImages :=
  match names with
  | [] => (Ok tt, σ)
  | t :: rest =>
      if osp_exists (table_path σ t) then load_all rest (with_table t σ)
      else (Err (AssertionError ("Error: Table " +:+ t +:+ " does not exist!")), σ)
  end.

(** The state after the tables [names] have been read and stored. *)
Definition with_tables (names : list string) (σ : NuImages) : NuImages :=
  foldl (λ σ t, with_table t σ) σ names.

(** The object [__init__] has filled in up to the tables. *)
Definition fresh_object (v d : string) (l vb : bool) : NuImages :=
  NuImages_ v d l vb ∅ (foldl (λ d table, <[table := None]> d) ∅ table_names)
            ∅ None [].

(** The last two assignments of [__init__]. *)
Definition finish (σ : NuImages) : NuImages :=
  set_sample_to_key_frame_map None (set_color_map get_colormap σ).

(** [computes v d m r]: in every well-formed state of an object built
    for version [v] under [d], the method call [m] has outcome [r] and
    leaves a well-formed state of the same object. *)
Definition computes (v d : string) {A} (m : M A) (r : result A) : Prop :=
  ∀ σ, wf σ → version σ = v → dataroot σ = d →
    ∃ σ', m σ = (r, σ') ∧ wf σ' ∧ version σ' = v ∧ dataroot σ' = d.

(** ** Method calls over the lifetime of an object *)

Inductive call : Type :=
  | Call_load_table (table_name : string)
  | Call_get (table_name : string) (tok : value)
  | Call_getind (table_name : string) (tok : value)
  | Call_sample_to_key_frame (sample_token modality : string)
  | Call_render_image (sample_data_token : string)
      (with_annotations with_attributes : bool)
      (object_tokens surface_tokens : option (list string)).

(** The state a call leaves, whether it returns or raises. *)
Definition after_call (σ : NuImages) (c : call) : NuImages :=
  match c with
  | Call_load_table t => (load_table t σ).2
  | Call_get t k => (get t k σ).2
  | Call_getind t k => (getind t k σ).2
  | Call_sample_to_key_frame s m => (sample_to_key_frame s m σ).2
  | Call_render_image tok wn wa ot st => (render_image tok wn wa ot st σ).2
  end.

Definition after_calls (σ : NuImages) (calls : list call) : NuImages :=
  foldl after_call σ calls.

End Spec.

(** ** What a method call leaves in place *)

(** [grows σ σ']: the configuration is the same, every resident table is
    still resident and unchanged, and the files read so far are a prefix
    of the files read. *)
Definition grows (σ σ' : NuImages) : Prop :=
  version σ' = version σ ∧ dataroot σ' = dataroot σ ∧ lazy σ' = lazy σ ∧
  color_map σ' = color_map σ ∧
  tables σ ⊆ tables σ' ∧ reads σ `prefix_of` reads σ'.

(** [keeps m]: whatever the state, and whether [m] returns or raises,
    the state it leaves has grown from the one it started in. *)
Definition keeps {A} (m : M A) : Prop := ∀ σ, grows σ (m σ).2.

(** The table [t] is resident and its reverse index is built. *)
Definition warm (t : string) (σ : NuImages) : Prop :=
  is_Some (tables σ !! t) ∧ ∃ ix, _token2ind σ !! t = Some (Some ix).

(** ** Key frames *)

(** A sample_data the loop of [sample_to_key_frame] gets past without
    touching the key ['camera']: it has the key [is_key_frame], and when
    that is true it has a file format other than ['jpg'] and a hashable
    sample token. *)
Definition lidar_ready (sd : record) : Prop :=
  ∃ kf, getitem sd "is_key_frame" = Ok kf ∧
    (truthy kf = true →
     ∃ ff st k, getitem sd "fileformat" = Ok ff ∧ eq_str ff "jpg" = false ∧
       getitem sd "sample_token" = Ok st ∧ hashable st = Some k).

(** [sd] is a key frame whose sample token is the key [k]. *)
Definition key_frame_of (k : pykey) (sd : record) : Prop :=
  ∃ kf st, getitem sd "is_key_frame" = Ok kf ∧ truthy kf = true ∧
    getitem sd "sample_token" = Ok st ∧ hashable st = Some k.

(** ** Annotations that are not drawn *)

(** No record of the table is an allowed annotation of the sample_data:
    each has the key [sample_data_token] and either refers to another
    sample_data or is not on the allow-list. *)
Definition quiet (tbl : table) (sample_data_token : string)
    (tokens : option (list string)) : Prop :=
  Forall (λ b, ∃ v, getitem b "sample_data_token" = Ok v ∧
                (eq_str v sample_data_token = false ∨
                 allowed tokens (token b) = false)) tbl.

(** ** The files a method reads *)

(** [reads_only names m]: whatever the state, and whether [m] returns or
    raises, every table file read by the end of [m] was read before or
    is the file of one of [names]. *)
Definition reads_only (names : list string) {A} (m : M A) : Prop :=
  ∀ σ t, t ∈ reads (m σ).2 → t ∈ reads σ ∨ t ∈ names.

(** ** Objects with all tables resident *)

(** Every table of the dataset is resident. *)
Definition settled (σ : NuImages) : Prop :=
  ∀ t, t ∈ table_names → is_Some (tables σ !! t).

(** [rests m]: on an object with all tables resident, [m] reads no file
    and sets no table attribute, whether it returns or raises. *)
Definition rests {A} (m : M A) : Prop :=
  ∀ σ, settled σ → tables (m σ).2 = tables σ ∧ reads (m σ).2 = reads σ.

(** The load_table calls are for tables of the dataset. *)
Definition loads_tables_only (calls : list call) : Prop :=
  Forall (λ c, ∀ t, c = Call_load_table t → t ∈ table_names) calls.

(** [sd] is a key frame recorded in another file format than ['jpg']. *)
Definition not_jpg (sd : record) : Prop :=
  ∃ ff, getitem sd "fileformat" = Ok ff ∧ eq_str ff "jpg" = false.

(** ** The listing methods

    [list_attributes], [list_cameras], [list_categories] and [list_logs]
    count records in a [defaultdict] and print one row per record.  The
    lines written to the standard output are part of the state and stay
    when a method raises; [str.format] is a collaborator. *)

Class Console : Type := {
  (** [fmt.format(arg, ...)] *)
  format : string → list value → result string;
}.

(** A [defaultdict(lambda: 0)]: the keys as they were first inserted,
    in insertion order, with their counts. *)
Abbreviation counter := (list (value * nat)).

Fixpoint counter_find (k : pykey) (d : counter) : option nat :=
  match d with
  | [] => None
  | (k', n) :: rest =>
      if decide (hashable k' = Some k) then Some n else counter_find k rest
  end.

Fixpoint counter_bump (k : pykey) (kv : value) (d : counter) : counter :=
  match d with
  | [] => [(kv, 1%nat)]
  | (k', n) :: rest =>
      if decide (hashable k' = Some k) then (k', S n) :: rest
      else (k', n) :: counter_bump k kv rest
  end.

(** [d[kv] += 1] *)
Definition counter_incr (d : counter) (kv : value) : result counter :=
  match hashable kv with
  | Some k => Ok (counter_bump k kv d)
  | None => Err (TypeError "unhashable type")
  end.

(** [d[kv]]; the entry that reading a missing key creates has the count
    0 and is not told apart from no entry. *)
Definition counter_get (d : counter) (kv : value) : result nat :=
  match hashable kv with
  | Some k => Ok (default 0%nat (counter_find k d))
  | None => Err (TypeError "unhashable type")
  end.

(** [for x in l: d[x[key]] += 1] *)
Fixpoint count_by (key : string) (d : counter) (l : table) : result counter :=
  match l with
  | [] => Ok d
  | x :: rest =>
      k ← getitem x key;
      d' ← counter_incr d k;
      count_by key d' rest
  end.

(** [for v in vals: d[v] += 1] *)
Fixpoint count_values (d : counter) (vals : list value) : result counter :=
  match vals with
  | [] => Ok d
  | v :: rest => d' ← counter_incr d v; count_values d' rest
  end.

(** The loop of [list_attributes] over the object annotations. *)
Fixpoint count_attribute_tokens (d : counter) (anns : table) : result counter :=
  match anns with
  | [] => Ok d
  | object_ann :: rest =>
      attribute_tokens ← getitem object_ann "attribute_tokens";
      vals ← iter_value attribute_tokens;
      d' ← count_values d vals;
      count_attribute_tokens d' rest
  end.

(** [sample_tokens is None or sample_token in sample_tokens], where
    [sample_tokens] is a set of strings. *)
Definition in_sample_tokens (sample_tokens : option (list string))
    (sample_token : value) : result bool :=
  match sample_tokens with
  | None => Ok true
  | Some l =>
      match hashable sample_token with
      | Some _ => Ok (in_tokens sample_token l)
      | None => Err (TypeError "unhashable type")
      end
  end.

(** State, standard output and exceptions. *)
Definition IO (A : Type) : Type :=
  NuImages * list string → result A * (NuImages * list string).

#[global] Instance IO_ret : MRet IO := λ A a s, (Ok a, s).
#[global] Instance IO_bind : MBind IO := λ A B f m s,
  match m s with
  | (Ok a, s') => f a s'
  | (Err e, s') => (Err e, s')
  end.

(** A method of the store, run within a listing. *)
Definition run_M {A} (m : M A) : IO A := λ s,
  match m s.1 with (r, σ') => (r, (σ', s.2)) end.

Definition io_lift {A} (r : result A) : IO A := λ s, (r, s).

(** [print(line)] *)
Definition print (line : string) : IO unit := λ s,
  (Ok tt, (s.1, s.2 ++ [line])).

(** [for x in l: print(row(x))], where [row] may [continue]. *)
Fixpoint print_rows {A} (row : A → result (option string)) (l : list A)
    : IO unit :=
  match l with
  | [] => mret tt
  | x :: rest =>
      line ← io_lift (row x);
      match line with
      | Some line => print line
      | None => mret tt
      end;;
      print_rows row rest
  end.

Section Listing.
Context `{Environment} `{Console}.

(** [self.load_table(...)] for each name in turn. *)
Fixpoint load_tables (names : list string) : M unit :=
  match names with
  | [] => mret tt
  | t :: rest => load_table t;; load_tables rest
  end.

(** [if self.lazy: self.load_table(...); ...] *)
Definition load_if_lazy (names : list string) : IO unit :=
  run_M (l ← gets lazy; if (l : bool) then load_tables names else mret tt).

(** The body of the printing loop of [list_attributes]. *)
Definition attribute_row (attribute_freqs : counter) (attribute : record)
    : result (option string) :=
  tok ← getitem attribute "token";
  freq ← counter_get attribute_freqs tok;
  name ← getitem attribute "name";
  description ← getitem attribute "description";
  line ← format "{:11} {:24.24} {:48.48}"
           [VNum (Z.of_nat freq); name; description];
  Ok (Some line).

(** [list_attributes] *)
Definition list_attributes : IO unit :=
  load_if_lazy ["attribute"; "object_ann"];;
  object_anns ← run_M (getattr_ "object_ann");
  attribute_freqs ← io_lift (count_attribute_tokens [] object_anns);
  print "";;
  header ← io_lift (format "{:11} {:24.24} {:48.48}"
                      [VStr "Annotations"; VStr "Name"; VStr "Description"]);
  print header;;
  attributes ← run_M (getattr_ "attribute");
  print_rows (attribute_row attribute_freqs) attributes.

(** The first counting loop of [list_cameras]. *)
Fixpoint count_calibrated_sensors (cs_freqs : counter)
    (calibrated_sensors : table) : M counter :=
  match calibrated_sensors with
  | [] => mret cs_freqs
  | calibrated_sensor :: rest =>
      sensor_token ← lift (getitem calibrated_sensor "sensor_token");
      sensor ← get "sensor" sensor_token;
      channel ← lift (getitem sensor "channel");
      cs_freqs' ← lift (counter_incr cs_freqs channel);
      count_calibrated_sensors cs_freqs' rest
  end.

(** The second counting loop of [list_cameras]. *)
Fixpoint count_key_frame_channels (channel_freqs : counter)
    (sample_datas : table) : M counter :=
  match sample_datas with
  | [] => mret channel_freqs
  | sample_data :: rest =>
      kf ← lift (getitem sample_data "is_key_frame");
      channel_freqs' ←
        (if truthy kf then
           cs_token ← lift (getitem sample_data "calibrated_sensor_token");
           calibrated_sensor ← get "calibrated_sensor" cs_token;
           sensor_token ← lift (getitem calibrated_sensor "sensor_token");
           sensor ← get "sensor" sensor_token;
           channel ← lift (getitem sensor "channel");
           lift (counter_incr channel_freqs channel)
         else mret channel_freqs);
      count_key_frame_channels channel_freqs' rest
  end.

(** The body of the printing loop of [list_cameras]. *)
Definition camera_row (cs_freqs channel_freqs : counter) (channel : value)
    : result (option string) :=
  cs_freq ← counter_get cs_freqs channel;
  channel_freq ← counter_get channel_freqs channel;
  line ← format "{:7} {:6} {:24}"
           [VNum (Z.of_nat cs_freq); VNum (Z.of_nat channel_freq); channel];
  Ok (Some line).

(** [list_cameras] *)
Definition list_cameras : IO unit :=
  load_if_lazy ["sample"; "sample_data"; "calibrated_sensor"; "sensor"];;
  calibrated_sensors ← run_M (getattr_ "calibrated_sensor");
  cs_freqs ← run_M (count_calibrated_sensors [] calibrated_sensors);
  sample_datas ← run_M (getattr_ "sample_data");
  channel_freqs ← run_M (count_key_frame_channels [] sample_datas);
  print "";;
  header ← io_lift (format "{:7} {:6} {:24}"
                      [VStr "Cameras"; VStr "Samples"; VStr "Channel"]);
  print header;;
  print_rows (camera_row cs_freqs channel_freqs) cs_freqs.*1.

(** A counting loop of [list_categories]. *)
Fixpoint count_categories (sample_tokens : option (list string))
    (freqs : counter) (anns : table) : M counter :=
  match anns with
  | [] => mret freqs
  | ann :: rest =>
      sample_data_token ← lift (getitem ann "sample_data_token");
      sample_data ← get "sample_data" sample_data_token;
      sample_token ← lift (getitem sample_data "sample_token");
      counted ← lift (in_sample_tokens sample_tokens sample_token);
      freqs' ←
        (if (counted : bool) then
           category_token ← lift (getitem ann "category_token");
           lift (counter_incr freqs category_token)
         else mret freqs);
      count_categories sample_tokens freqs' rest
  end.

(** The body of the printing loop of [list_categories]. *)
Definition category_row (object_freqs surface_freqs : counter)
    (category : record) : result (option string) :=
  category_token ← getitem category "token";
  object_freq ← counter_get object_freqs category_token;
  surface_freq ← counter_get surface_freqs category_token;
  if (object_freq =? 0)%nat && (surface_freq =? 0)%nat then Ok None
  else
    name ← getitem category "name";
    description ← getitem category "description";
    line ← format "{:11} {:12} {:24.24} {:48.48}"
             [VNum (Z.of_nat object_freq); VNum (Z.of_nat surface_freq);
              name; description];
    Ok (Some line).

(** [list_categories] *)
Definition list_categories (sample_tokens : option (list string)) : IO unit :=
  load_if_lazy ["sample"; "object_ann"; "surface_ann"; "category"];;
  object_anns ← run_M (getattr_ "object_ann");
  object_freqs ← run_M (count_categories sample_tokens [] object_anns);
  surface_anns ← run_M (getattr_ "surface_ann");
  surface_freqs ← run_M (count_categories sample_tokens [] surface_anns);
  print "";;
  header ← io_lift (format "{:11} {:12} {:24.24} {:48.48}"
                      [VStr "Object_anns"; VStr "Surface_anns"; VStr "Name";
                       VStr "Description"]);
  print header;;
  categories ← run_M (getattr_ "category");
  print_rows (category_row object_freqs surface_freqs) categories.

(** The body of the printing loop of [list_logs]. *)
Definition log_row (sample_freqs : counter) (log : record)
    : result (option string) :=
  tok ← getitem log "token";
  sample_freq ← counter_get sample_freqs tok;
  logfile ← getitem log "logfile";
  location ← getitem log "location";
  line ← format "{:6} {:29} {:24}"
           [VNum (Z.of_nat sample_freq); logfile; location];
  Ok (Some line).

(** [list_logs] *)
Definition list_logs : IO unit :=
  load_if_lazy ["sample"; "log"];;
  samples ← run_M (getattr_ "sample");
  sample_freqs ← io_lift (count_by "log_token" [] samples);
  print "";;
  header ← io_lift (format "{:6} {:29} {:24}"
                      [VStr "Samples"; VStr "Log"; VStr "Location"]);
  print header;;
  logs ← run_M (getattr_ "log");
  print_rows (log_row sample_freqs) logs.

End Listing.

(** *** What the listings print *)

(** The number of values in [vals] that are the key [k]. *)
Definition occurrences (k : pykey) (vals : list value) : nat :=
  length (List.filter (λ v, bool_decide (hashable v = Some k)) vals).

(** [hash(v)], which raises for a list or a dict. *)
Definition hashed (v : value) : result value :=
  match hashable v with
  | Some _ => Ok v
  | None => Err (TypeError "unhashable type")
  end.

Fixpoint hashed_all (vals : list value) : result (list value) :=
  match vals with
  | [] => Ok []
  | v :: rest => v' ← hashed v; rest' ← hashed_all rest; Ok (v' :: rest')
  end.

(** The keys a counting loop counts: those of the first record, then
    those of the second, and so on up to the first record that raises. *)
Fixpoint gather {A} (f : A → result (list value)) (l : list A)
    : result (list value) :=
  match l with
  | [] => Ok []
  | x :: rest => vs ← f x; rest' ← gather f rest; Ok (vs ++ rest')
  end.

(** [l] without the values that hash like an earlier one: the keys of
    a dict filled from [l], in insertion order. *)
Fixpoint first_occurrences (seen : list pykey) (l : list value) : list value :=
  match l with
  | [] => []
  | v :: rest =>
      match hashable v with
      | Some k =>
          if bool_decide (k ∈ seen) then first_occurrences seen rest
          else v :: first_occurrences (k :: seen) rest
      | None => first_occurrences seen rest
      end
  end.

(** The outcome of a printing loop and the lines it writes before it
    ends or raises. *)
Fixpoint printed {A} (row : A → result (option string)) (l : list A)
    : result unit * list string :=
  match l with
  | [] => (Ok tt, [])
  | x :: rest =>
      match row x with
      | Ok line =>
          (λ p : result unit * list string,
             (p.1, match line with
                   | Some line => line :: p.2
                   | None => p.2
                   end)) (printed row rest)
      | Err e => (Err e, [])
      end
  end.

Section ListingSpec.
Context `{Environment} `{Console}.

(** The key [list_logs] counts for a sample. *)
Definition log_token_of (sample : record) : result (list value) :=
  log_token ← getitem sample "log_token";
  v ← hashed log_token;
  Ok [v].

(** The row of a log, given the log tokens of all samples. *)
Definition log_line (log_tokens : list value) (log : record)
    : result (option string) :=
  logfile ← getitem log "logfile";
  location ← getitem log "location";
  line ← format "{:6} {:29} {:24}"
           [VNum (Z.of_nat (occurrences (KStr (token log)) log_tokens));
            logfile; location];
  Ok (Some line).

(** The keys [list_attributes] counts for an object annotation. *)
Definition attribute_tokens_of (object_ann : record) : result (list value) :=
  attribute_tokens ← getitem object_ann "attribute_tokens";
  vals ← iter_value attribute_tokens;
  hashed_all vals.

(** The row of an attribute, given the attribute tokens of all object
    annotations. *)
Definition attribute_line (attribute_tokens : list value) (attribute : record)
    : result (option string) :=
  name ← getitem attribute "name";
  description ← getitem attribute "description";
  line ← format "{:11} {:24.24} {:48.48}"
           [VNum (Z.of_nat (occurrences (KStr (token attribute)) attribute_tokens));
            name; description];
  Ok (Some line).

(** The sample an annotation belongs to. *)
Definition sample_of (root : string) (ann : record) : result value :=
  sample_data_token ← getitem ann "sample_data_token";
  sample_data ← lookup_record root "sample_data" sample_data_token;
  getitem sample_data "sample_token".

(** The key [list_categories] counts for an annotation: its category
    token when its sample is asked for, nothing otherwise. *)
Definition category_of (root : string) (sample_tokens : option (list string))
    (ann : record) : result (list value) :=
  sample_token ← sample_of root ann;
  counted ← in_sample_tokens sample_tokens sample_token;
  if (counted : bool) then
    category_token ← getitem ann "category_token";
    v ← hashed category_token;
    Ok [v]
  else Ok [].

(** The row of a category, given the category tokens counted for the
    object and for the surface annotations. *)
Definition category_line (object_cats surface_cats : list value)
    (category : record) : result (option string) :=
  let object_freq := occurrences (KStr (token category)) object_cats in
  let surface_freq := occurrences (KStr (token category)) surface_cats in
  if (object_freq =? 0)%nat && (surface_freq =? 0)%nat then Ok None
  else
    name ← getitem category "name";
    description ← getitem category "description";
    line ← format "{:11} {:12} {:24.24} {:48.48}"
             [VNum (Z.of_nat object_freq); VNum (Z.of_nat surface_freq);
              name; description];
    Ok (Some line).

(** The key [list_cameras] counts for a calibrated sensor: the channel
    of its sensor. *)
Definition channel_of (root : string) (calibrated_sensor : record)
    : result (list value) :=
  sensor_token ← getitem calibrated_sensor "sensor_token";
  sensor ← lookup_record root "sensor" sensor_token;
  channel ← getitem sensor "channel";
  v ← hashed channel;
  Ok [v].

(** The key [list_cameras] counts for a sample_data: the channel it was
    recorded on when it is a key frame, nothing otherwise. *)
Definition key_frame_channel_of (root : string) (sample_data : record)
    : result (list value) :=
  kf ← getitem sample_data "is_key_frame";
  if truthy kf then
    cs_token ← getitem sample_data "calibrated_sensor_token";
    calibrated_sensor ← lookup_record root "calibrated_sensor" cs_token;
    channel_of root calibrated_sensor
  else Ok [].

(** The row of a channel, given the channels of all calibrated sensors
    and of all key frames. *)
Definition camera_line (cs_channels kf_channels : list value)
    (channel : value) : result (option string) :=
  k ← match hashable channel with
      | Some k => Ok k
      | None => Err (TypeError "unhashable type")
      end;
  line ← format "{:7} {:6} {:24}"
           [VNum (Z.of_nat (occurrences k cs_channels));
            VNum (Z.of_nat (occurrences k kf_channels)); channel];
  Ok (Some line).

End ListingSpec.

(** [io_keeps m]: whatever the state and the output so far, and whether
    [m] returns or raises, the state has grown and the output has only
    been added to. *)
Definition io_keeps {A} (m : IO A) : Prop :=
  ∀ σ out, grows σ (m (σ, out)).2.1 ∧ out `prefix_of` (m (σ, out)).2.2.

(** [io_reads_only names m]: as [reads_only], for a listing. *)
Definition io_reads_only (names : list string) {A} (m : IO A) : Prop :=
  ∀ σ out t, t ∈ reads (m (σ, out)).2.1 → t ∈ reads σ ∨ t ∈ names.

(** [io_rests m]: as [rests], for a listing. *)
Definition io_rests {A} (m : IO A) : Prop :=
  ∀ σ out, settled σ →
    tables (m (σ, out)).2.1 = tables σ ∧ reads (m (σ, out)).2.1 = reads σ.

(** ** A small dataset

    An environment over given table files, with a four-pixel raster in
    place of PIL, used to run the methods on concrete inputs. *)

Module Mini.

Definition rec_ (tok : string) (kvs : list (string * value)) : record :=
  Record_ tok (list_to_map kvs).

(** A raster: its pixels, and the outlines and labels drawn on it. *)
Definition raster : Type := list rgb * list value.

Definition blend (old new a : Z) : Z := (old * (255 - a) + new * a) / 255.

Definition blend_px (p : rgb) (fill : rgba) (m : bool) : rgb :=
  let '(r0, g0, b0) := p in
  let '(r, g, b, a) := fill in
  if m then (blend r0 r a, blend g0 g a, blend b0 b a) else p.

Fixpoint bits (l : list value) : result (list bool) :=
  match l with
  | [] => Ok []
  | VBool b :: rest => rest' ← bits rest; Ok (b :: rest')
  | _ => Err (ExternalError "malformed mask")
  end.

Definition decode (v : value) : result (list bool) :=
  match v with
  | VList l => bits l
  | _ => Err (ExternalError "malformed mask")
  end.

Fixpoint names (attributes : list record) : result (list string) :=
  match attributes with
  | [] => Ok []
  | a :: rest =>
      n ← getitem a "name";
      rest' ← names rest;
      match n with
      | VStr s => Ok (s :: rest')
      | _ => Err (TypeError "sequence item: expected str instance")
      end
  end.

Definition join_dot (l : list string) : string :=
  match l with
  | [] => ""
  | s :: rest => foldl (λ acc x, acc +:+ "." +:+ x) s rest
  end.

Definition display_name (attributes : list record) (category_name : value)
    (with_attributes : bool) : result value :=
  if with_attributes then
    atts ← names attributes;
    match atts, category_name with
    | [], _ => Ok category_name
    | _, VStr c => Ok (VStr (c +:+ "--" +:+ join_dot atts))
    | _, _ => Err (TypeError "unsupported operand type(s) for +")
    end
  else Ok category_name.

Definition white : rgb := (255, 255, 255).

Definition root : string := "/data/sets/nuimages".
Definition vdir : string := "/data/sets/nuimages/v1.0-mini".

Definition file_of (files : list (string * table)) (path : string)
    : option table :=
  snd <$> List.find (λ f, String.eqb (vdir +:+ "/" +:+ f.1 +:+ ".json") path) files.

Definition colors : gmap string rgb :=
  <["flat.driveable_surface" := (0, 207, 191)]>
    (<["human.pedestrian.adult" := (0, 0, 230)]> ∅).

(** The environment in which exactly the given table files exist under
    [vdir], and one image file. *)
Definition env (files : list (string * table)) : Environment := {|
  Image := raster;
  Mask := list bool;
  osp_exists path :=
    String.eqb path vdir || bool_decide (is_Some (file_of files path));
  json_load path := default [] (file_of files path);
  get_colormap := colors;
  Image_open path :=
    if String.eqb path "/data/sets/nuimages/samples/cam.jpg"
    then Ok ([white; white; white; white], [])
    else Err (ExternalError "FileNotFoundError");
  mask_decode := decode;
  annotation_name := display_name;
  draw_bitmap im mask fill :=
    Ok (zip_with (λ p m, blend_px p fill m) im.1 mask, im.2);
  draw_rectangle im bbox outline := Ok (im.1, im.2 ++ [bbox]);
  draw_text im xy name := Ok (im.1, im.2 ++ [name]);
|}.

Definition sample_datas : table :=
  [ rec_ "sd_cam" [("sample_token", VStr "s1"); ("fileformat", VStr "jpg");
                   ("is_key_frame", VBool true);
                   ("filename", VStr "samples/cam.jpg")];
    rec_ "sd_sweep" [("sample_token", VStr "s1"); ("fileformat", VStr "jpg");
                     ("is_key_frame", VBool false);
                     ("filename", VStr "samples/cam.jpg")];
    rec_ "sd_lidar" [("sample_token", VStr "s1"); ("fileformat", VStr "bin");
                     ("is_key_frame", VBool true);
                     ("filename", VStr "samples/lidar.bin")] ].

Definition categories : table :=
  [ rec_ "c_road" [("name", VStr "flat.driveable_surface")];
    rec_ "c_adult" [("name", VStr "human.pedestrian.adult")] ].

Definition attributes : table :=
  [ rec_ "a_standing" [("name", VStr "pedestrian.standing")] ].

Definition bitmask (l : list bool) : value := VList (VBool <$> l).

Definition surface_anns : table :=
  [ rec_ "su_road" [("sample_data_token", VStr "sd_cam");
                    ("category_token", VStr "c_road");
                    ("mask", bitmask [true; true; false; false])];
    rec_ "su_nomask" [("sample_data_token", VStr "sd_cam");
                      ("category_token", VStr "c_road");
                      ("mask", VNone)] ].

Definition object_anns : table :=
  [ rec_ "ob_adult" [("sample_data_token", VStr "sd_cam");
                     ("category_token", VStr "c_adult");
                     ("bbox", VList [VNum 0; VNum 0; VNum 1; VNum 1]);
                     ("attribute_tokens", VList [VStr "a_standing"]);
                     ("mask", bitmask [false; true; true; false])];
    rec_ "ob_nomask" [("sample_data_token", VStr "sd_cam");
                      ("category_token", VStr "c_adult");
                      ("bbox", VList [VNum 0; VNum 0; VNum 1; VNum 1]);
                      ("attribute_tokens", VList []);
                      ("mask", VNone)] ].

(** All ten tables. *)
Definition files : list (string * table) :=
  [ ("attribute", attributes); ("calibrated_sensor", []);
    ("category", categories); ("ego_pose", []); ("log", []);
    ("object_ann", object_anns); ("sample", [rec_ "s1" []]);
    ("sample_data", sample_datas); ("sensor", []);
    ("surface_ann", surface_anns) ].

(** The same without [sensor.json]. *)
Definition files_no_sensor : list (string * table) :=
  List.filter (λ f, negb (String.eqb f.1 "sensor")) files.

(** A surface annotation without a mask whose category is not in the
    category table, and an object annotation without a mask whose
    category has no colour. *)
Definition files_dangling : list (string * table) :=
  [ ("attribute", attributes);
    ("category", categories ++ [rec_ "c_new" [("name", VStr "vehicle.new")]]);
    ("object_ann",
       [rec_ "ob_dangling" [("sample_data_token", VStr "sd_cam");
                            ("category_token", VStr "c_new");
                            ("bbox", VList [VNum 0; VNum 0; VNum 1; VNum 1]);
                            ("attribute_tokens", VList []);
                            ("mask", VNone)]]);
    ("sample_data", sample_datas);
    ("surface_ann",
       [rec_ "su_dangling" [("sample_data_token", VStr "sd_cam");
                            ("category_token", VStr "c_gone");
                            ("mask", VNone)]]) ].

(** Two categories under one token. *)
Definition files_dup : list (string * table) :=
  [ ("category",
       [rec_ "c" [("name", VStr "first")]; rec_ "d" [("name", VStr "other")];
        rec_ "c" [("name", VStr "second")]]) ].

(** The object after construction. *)
Definition store (files : list (string * table)) (lazy : bool) : NuImages :=
  (@NuImages_new (env files) "v1.0-mini" root lazy false).2.

(** The four environments used below. *)
Definition full : Environment := env files.
Definition no_sensor : Environment := env files_no_sensor.
Definition dangling_refs : Environment := env files_dangling.
Definition duplicates : Environment := env files_dup.

(** The image file as [Image_open] returns it. *)
Definition opened : @Image dangling_refs :=
  ([white; white; white; white], []).

(** The image of [sd_cam] with all its annotations drawn.  The second
    pixel lies under the road mask and under the pedestrian mask. *)
Definition rendered : @Image full :=
  ([(127, 230, 222); (63, 114, 226); (127, 127, 242); (255, 255, 255)],
   [VList [VNum 0; VNum 0; VNum 1; VNum 1]; VStr "human.pedestrian.adult"]).


(** Lidar key frames only: the one camera record is a sweep.  The sample
    [s1] has two lidar key frames. *)
Definition files_lidar : list (string * table) :=
  [ ("sample_data",
       [ rec_ "sd_l1" [("sample_token", VStr "s1"); ("fileformat", VStr "bin");
                       ("is_key_frame", VBool true)];
         rec_ "sd_c1" [("sample_token", VStr "s1"); ("fileformat", VStr "jpg");
                       ("is_key_frame", VBool false)];
         rec_ "sd_l2" [("sample_token", VStr "s1"); ("fileformat", VStr "bin");
                       ("is_key_frame", VBool true)];
         rec_ "sd_l3" [("sample_token", VStr "s2"); ("fileformat", VStr "bin");
                       ("is_key_frame", VBool true)] ]) ].

(** Annotations of no sample_data: records without the key
    [sample_data_token] after a well-formed one. *)
Definition files_stray : list (string * table) :=
  [ ("category", categories);
    ("object_ann",
       [rec_ "ob_stray" [("category_token", VStr "c_adult")]]);
    ("sample_data", sample_datas);
    ("surface_ann",
       [rec_ "su_road" [("sample_data_token", VStr "sd_cam");
                        ("category_token", VStr "c_road");
                        ("mask", bitmask [true; true; false; false])];
        rec_ "su_stray" [("category_token", VStr "c_road")]]) ].

Definition lidar_only : Environment := env files_lidar.
Definition stray : Environment := env files_stray.

(** The image file as [Image_open] returns it, in the full dataset. *)
Definition untouched : @Image full := ([white; white; white; white], []).

(** A console that writes the fields one after the other, separated by
    a blank and without padding.  Only strings and integers can be
    written. *)
Fixpoint show_digits (fuel n : nat) (acc : string) : string :=
  match fuel with
  | O => acc
  | S fuel' =>
      let acc' := String (ascii_of_nat (48 + n mod 10)) acc in
      if (n / 10 =? 0)%nat then acc' else show_digits fuel' (n / 10) acc'
  end.

Definition show_nat (n : nat) : string := show_digits (S n) n "".

Definition show (v : value) : result string :=
  match v with
  | VStr s => Ok s
  | VNum z => Ok (if (z <? 0)%Z then "-" +:+ show_nat (Z.to_nat (- z))
                  else show_nat (Z.to_nat z))
  | _ => Err (TypeError "unsupported format string")
  end.

Fixpoint show_all (args : list value) : result string :=
  match args with
  | [] => Ok ""
  | [v] => show v
  | v :: rest => s ← show v; r ← show_all rest; Ok (s +:+ " " +:+ r)
  end.

Definition console : Console := {| format _ args := show_all args |}.

(** Two cameras on three logs.  The category [c_unused] has no
    annotation and no description. *)
Definition files_fleet : list (string * table) :=
  [ ("attribute",
       [rec_ "a_standing" [("name", VStr "pedestrian.standing");
                           ("description", VStr "upright")];
        rec_ "a_moving" [("name", VStr "pedestrian.moving");
                         ("description", VStr "walking")]]);
    ("calibrated_sensor",
       [rec_ "cs1" [("sensor_token", VStr "sen_front")];
        rec_ "cs2" [("sensor_token", VStr "sen_back")];
        rec_ "cs3" [("sensor_token", VStr "sen_front")]]);
    ("category",
       [rec_ "c_road" [("name", VStr "flat.driveable_surface");
                       ("description", VStr "road")];
        rec_ "c_unused" [("name", VStr "animal")];
        rec_ "c_adult" [("name", VStr "human.pedestrian.adult");
                        ("description", VStr "adult")]]);
    ("log",
       [rec_ "log1" [("logfile", VStr "n003"); ("location", VStr "boston")];
        rec_ "log2" [("logfile", VStr "n008"); ("location", VStr "singapore")];
        rec_ "log3" [("logfile", VStr "n009"); ("location", VStr "singapore")]]);
    ("object_ann",
       [rec_ "ob1" [("sample_data_token", VStr "sd1");
                    ("category_token", VStr "c_adult");
                    ("attribute_tokens",
                       VList [VStr "a_standing"; VStr "a_standing"])];
        rec_ "ob2" [("sample_data_token", VStr "sd3");
                    ("category_token", VStr "c_adult");
                    ("attribute_tokens", VList [])]]);
    ("sample",
       [rec_ "s1" [("log_token", VStr "log1")];
        rec_ "s2" [("log_token", VStr "log2")];
        rec_ "s3" [("log_token", VStr "log1")]]);
    ("sample_data",
       [rec_ "sd1" [("sample_token", VStr "s1"); ("is_key_frame", VBool true);
                    ("calibrated_sensor_token", VStr "cs1")];
        rec_ "sd2" [("sample_token", VStr "s1"); ("is_key_frame", VBool false)];
        rec_ "sd3" [("sample_token", VStr "s2"); ("is_key_frame", VBool true);
                    ("calibrated_sensor_token", VStr "cs3")]]);
    ("sensor",
       [rec_ "sen_front" [("channel", VStr "CAM_FRONT")];
        rec_ "sen_back" [("channel", VStr "CAM_BACK")]]);
    ("surface_ann",
       [rec_ "su1" [("sample_data_token", VStr "sd1");
                    ("category_token", VStr "c_road")]]) ].

Definition fleet : Environment := env files_fleet.

(** An object annotation with an attribute token of no attribute. *)
Definition files_orphan : list (string * table) :=
  [ ("attribute", attributes);
    ("category", categories);
    ("object_ann",
       [rec_ "ob_orphan" [("sample_data_token", VStr "sd_cam");
                          ("category_token", VStr "c_adult");
                          ("bbox", VList [VNum 0; VNum 0; VNum 1; VNum 1]);
                          ("attribute_tokens", VList [VStr "a_gone"]);
                          ("mask", VNone)]]);
    ("sample_data", sample_datas);
    ("surface_ann", []) ].

Definition orphan : Environment := env files_orphan.

End Mini.

(** * Proofs *)

(** ** The reverse index *)

Lemma index_from_other (s : string) (members : table) :
  ∀ ind ix, (∀ m, m ∈ members → token m ≠ s) →
    index_from ind members ix !! s = ix !! s.
Proof.
  induction members as [|m rest IH]; intros ind ix Hne; [done|].
  simpl. rewrite IH.
  - apply lookup_insert_ne, Hne. left.
  - intros m' Hm'. apply Hne. by right.
Qed.

(** A token is indexed at the last position that carries it. *)
Lemma index_from_last (r : record) (l1 l2 : table) :
  ∀ ind ix, (∀ m, m ∈ l2 → token m ≠ token r) →
    index_from ind (l1 ++ r :: l2) ix !! token r = Some (ind + length l1)%nat.
Proof.
  induction l1 as [|m l1 IH]; intros ind ix Hne; simpl.
  - rewrite index_from_other by done.
    rewrite lookup_insert_eq. f_equal. lia.
  - rewrite IH by done. f_equal. lia.
Qed.

Lemma index_of_last (r : record) (l1 l2 : table) :
  (∀ m, m ∈ l2 → token m ≠ token r) →
  index_of (l1 ++ r :: l2) !! token r = Some (length l1).
Proof. intros Hne. unfold index_of. by rewrite index_from_last. Qed.

Lemma index_of_absent (s : string) (tbl : table) :
  s ∉ token <$> tbl → index_of tbl !! s = None.
Proof.
  intros Hs. unfold index_of. rewrite index_from_other; [done|].
  intros m Hm Heq. apply Hs. rewrite <- Heq. by apply list_elem_of_fmap_2.
Qed.

(** With unique tokens every record is indexed at its own position. *)
Lemma index_of_unique (tbl : table) (i : nat) (r : record) :
  NoDup (token <$> tbl) → tbl !! i = Some r →
  index_of tbl !! token r = Some i.
Proof.
  intros Hnd Hi.
  destruct (list_elem_of_split_length tbl i r Hi) as (l1 & l2 & -> & ->).
  apply index_of_last. intros m Hm Heq.
  rewrite fmap_app, fmap_cons in Hnd.
  apply NoDup_app in Hnd as (_ & _ & Hnd).
  apply NoDup_cons in Hnd as [Hnotin _].
  apply Hnotin. rewrite <- Heq. by apply list_elem_of_fmap_2.
Qed.

Lemma find_token_last (r : record) (l1 l2 : table) :
  (∀ m, m ∈ l2 → token m ≠ token r) →
  ∀ `{Environment}, find_token (l1 ++ r :: l2) (VStr (token r)) = Ok r.
Proof.
  intros Hne E. unfold find_token. simpl.
  rewrite index_of_last by done. simpl.
  unfold list_getitem. by rewrite list_lookup_middle.
Qed.

(** ** Tactics for the state monad *)

Ltac munfold :=
  unfold mbind, M_bind, mret, M_ret, lift, gets, modify, raise; simpl.

Ltac mstep := simpl; munfold.

(** Run a call whose outcome is known in the current state. *)
Ltac run lem :=
  match goal with
  | Hwf : wf ?σ, Hv : version ?σ = _, Hd : dataroot ?σ = _ |- _ =>
      let σ' := fresh "σ" in
      let E := fresh "E" in
      destruct (lem σ Hwf Hv Hd) as (σ' & E & ? & ? & ?);
      rewrite E; clear E Hwf Hv Hd; try clear σ
  end.

(** A call that has raised: the state reached is the one left. *)
Ltac leaf := eexists; split_and!; [reflexivity|eassumption..].

(** ** Running the store methods *)

Section Store.
Context `{Environment}.

Lemma table_names_not_attrs (t : string) :
  t ∈ table_names → t ∉ instance_attrs.
Proof.
  intros Ht Ha.
  assert (Hall : forallb (λ x, negb (bool_decide (x ∈ instance_attrs)))
                   table_names = true) by reflexivity.
  rewrite forallb_forall in Hall.
  apply list_elem_of_In, Hall, negb_true_iff, bool_decide_eq_false in Ht.
  contradiction.
Qed.

Lemma in_dict_table (σ : NuImages) (t : string) :
  t ∈ table_names → tables σ !! t = None → in_dict σ t = false.
Proof.
  intros Ht Hnone. unfold in_dict.
  rewrite (bool_decide_eq_false_2 (t ∈ instance_attrs))
    by by apply table_names_not_attrs.
  by rewrite Hnone.
Qed.

Lemma load_table_file_run (t : string) (σ : NuImages) :
  __load_table__ t σ =
    if osp_exists (table_path σ t)
    then (Ok (json_load (table_path σ t)), log_read t σ)
    else (Err (AssertionError ("Error: Table " +:+ t +:+ " does not exist!")), σ).
Proof. unfold __load_table__. munfold. by destruct (osp_exists _). Qed.

Lemma load_table_run (t : string) (σ : NuImages) :
  load_table t σ =
    if in_dict σ t then (Ok tt, σ)
    else if osp_exists (table_path σ t) then (Ok tt, with_table t σ)
    else (Err (AssertionError ("Error: Table " +:+ t +:+ " does not exist!")), σ).
Proof.
  unfold load_table. munfold. destruct (in_dict σ t); [done|].
  rewrite load_table_file_run. by destruct (osp_exists _).
Qed.

Lemma init_table_run (t : string) (σ : NuImages) :
  init_table t σ =
    if osp_exists (table_path σ t) then (Ok tt, with_table t σ)
    else (Err (AssertionError ("Error: Table " +:+ t +:+ " does not exist!")), σ).
Proof.
  unfold init_table. munfold.
  rewrite load_table_file_run. by destruct (osp_exists _).
Qed.

Lemma getattr_run (t : string) (σ : NuImages) :
  t ∈ table_names →
  getattr_ t σ =
    match tables σ !! t with
    | Some tbl => (Ok tbl, σ)
    | None =>
        if osp_exists (table_path σ t)
        then (Ok (json_load (table_path σ t)), with_table t σ)
        else (Err (AssertionError ("Error: Table " +:+ t +:+ " does not exist!")), σ)
    end.
Proof.
  intros Ht. unfold getattr_. munfold.
  destruct (tables σ !! t) as [tbl|] eqn:Htbl; [done|].
  rewrite bool_decide_eq_true_2 by done. munfold.
  rewrite load_table_run, in_dict_table by done.
  destruct (osp_exists _); [|done].
  simpl. by rewrite lookup_insert_eq.
Qed.

Lemma index_loop_run (t : string) (members : table) :
  ∀ ind σ, index_loop t ind members σ =
    (Ok tt, set_token2ind (alter (fmap (index_from ind members)) t) σ).
Proof.
  induction members as [|m rest IH]; intros ind σ; simpl.
  - munfold. f_equal. destruct σ. unfold set_token2ind. simpl. f_equal.
    symmetry. apply alter_id. by intros [?|].
  - munfold. rewrite IH. f_equal.
    unfold token2ind_setitem, set_token2ind. simpl. f_equal.
    rewrite alter_alter_eq. apply alter_ext. by intros [?|].
Qed.

Lemma getind_run (t : string) (k : value) (σ : NuImages) :
  t ∈ table_names →
  getind t k σ =
    match _token2ind σ !! t with
    | None => (Err (KeyError (VStr t)), σ)
    | Some (Some ix) => (dict_getitem ix k, σ)
    | Some None =>
        match getattr_ t (with_index t ∅ σ) with
        | (Ok tbl, σ') => (dict_getitem (index_of tbl) k, with_index t (index_of tbl) σ')
        | (Err e, σ') => (Err e, σ')
        end
    end.
Proof.
  intros Ht. unfold getind. munfold.
  destruct (_token2ind σ !! t) as [[ix|]|] eqn:Hix; simpl.
  - by rewrite Hix.
  - fold (with_index t ∅ σ).
    rewrite getattr_run by done.
    assert (Hfin : ∀ tbl σ',
      _token2ind σ' = <[t:=Some ∅]> (_token2ind σ) →
      set_token2ind (alter (fmap (index_from 0 tbl)) t) σ' =
        with_index t (index_of tbl) σ').
    { intros tbl σ' Hσ'. unfold with_index, set_token2ind. rewrite Hσ'.
      by rewrite alter_insert_eq, insert_insert_eq. }
    destruct (tables (with_index t ∅ σ) !! t) as [tbl|].
    + rewrite index_loop_run. simpl.
      rewrite alter_insert_eq, lookup_insert_eq. simpl.
      f_equal. by apply Hfin.
    + destruct (osp_exists _); [|done].
      rewrite index_loop_run. simpl.
      rewrite alter_insert_eq, lookup_insert_eq. simpl.
      f_equal. by apply Hfin.
  - done.
Qed.

(** *** The invariant is kept *)

Lemma table_path_eq (σ σ' : NuImages) (t : string) :
  version σ' = version σ → dataroot σ' = dataroot σ →
  table_path σ' t = table_path σ t.
Proof. intros Hv Hd. unfold table_path, table_root. by rewrite Hv, Hd. Qed.

Lemma wf_with_table (σ : NuImages) (t : string) :
  wf σ → tables σ !! t = None → osp_exists (table_path σ t) = true →
  wf (with_table t σ).
Proof.
  intros [Htb Hdom Hix Hnd Hrl Hcm Hkf] Hnone Hex.
  assert (Hp : ∀ t', table_path (with_table t σ) t' = table_path σ t')
    by (intros; by apply table_path_eq).
  split.
  - intros t' tbl. rewrite Hp.
    change (tables (with_table t σ)) with (<[t:=json_load (table_path σ t)]> (tables σ)).
    rewrite lookup_insert. case_decide as Heq.
    + subst t'. intros [= <-]. done.
    + apply Htb.
  - apply Hdom.
  - intros t' ix Hl. rewrite Hp.
    change (tables (with_table t σ)) with (<[t:=json_load (table_path σ t)]> (tables σ)).
    specialize (Hix t' ix Hl).
    rewrite lookup_insert. case_decide as Heq; [|done].
    subst t'. rewrite Hnone in Hix. destruct Hix as [_ Hix]. congruence.
  - change (reads (with_table t σ)) with (reads σ ++ [t]).
    apply NoDup_app. split_and!; [done| |apply NoDup_singleton].
    intros x Hx ->%list_elem_of_singleton.
    apply Hrl in Hx. rewrite Hnone in Hx. by destruct Hx.
  - intros t'.
    change (reads (with_table t σ)) with (reads σ ++ [t]).
    change (tables (with_table t σ)) with (<[t:=json_load (table_path σ t)]> (tables σ)).
    rewrite elem_of_app, list_elem_of_singleton, lookup_insert.
    case_decide; [by eauto|]. intros [?|?]; [by apply Hrl|congruence].
  - apply Hcm.
  - intros m. rewrite Hp. apply Hkf.
Qed.

Lemma wf_with_index (σ : NuImages) (t : string) (ix : gmap string nat) :
  wf σ → t ∈ table_names →
  match tables σ !! t with
  | Some tbl => ix = index_of tbl
  | None => ix = ∅ ∧ osp_exists (table_path σ t) = false
  end →
  wf (with_index t ix σ).
Proof.
  intros [Htb Hdom Hix Hnd Hrl Hcm Hkf] Ht Hnew.
  split; try done.
  - intros t'.
    change (_token2ind (with_index t ix σ)) with (<[t:=Some ix]> (_token2ind σ)).
    rewrite lookup_insert. case_decide; [|apply Hdom].
    subst t'. split; [done|by eauto].
  - intros t' ix'.
    change (_token2ind (with_index t ix σ)) with (<[t:=Some ix]> (_token2ind σ)).
    change (tables (with_index t ix σ)) with (tables σ).
    change (table_path (with_index t ix σ) t') with (table_path σ t').
    rewrite lookup_insert. case_decide; [|apply Hix].
    subst t'. by intros [= <-].
Qed.

Lemma load_table_wf (t : string) (σ : NuImages) :
  wf σ → wf (load_table t σ).2.
Proof.
  intros Hwf. rewrite load_table_run.
  destruct (in_dict σ t) eqn:Hin; [done|].
  destruct (osp_exists _) eqn:Hex; [|done].
  apply wf_with_table; [done| |done].
  unfold in_dict in Hin. apply orb_false_iff in Hin as [_ Hin].
  apply bool_decide_eq_false in Hin.
  destruct (tables σ !! t); [|done]. by destruct Hin.
Qed.

(** [getattr] on a table name yields the table on disk. *)
Lemma getattr_spec (t : string) (σ : NuImages) :
  wf σ → t ∈ table_names →
  ∃ σ', getattr_ t σ = (table_on_disk (table_root σ) t, σ') ∧ wf σ' ∧
        version σ' = version σ ∧ dataroot σ' = dataroot σ ∧
        _token2ind σ' = _token2ind σ ∧
        sample_to_key_frame_map σ' = sample_to_key_frame_map σ ∧
        (∀ tbl, table_on_disk (table_root σ) t = Ok tbl →
                tables σ' !! t = Some tbl).
Proof.
  intros Hwf Ht. rewrite getattr_run by done.
  unfold table_on_disk. fold (table_path σ t).
  destruct (tables σ !! t) as [tbl|] eqn:Htbl.
  - destruct (wf_tables _ Hwf _ _ Htbl) as [-> ->].
    exists σ. simpl. split_and!; try done. by intros ? [= <-].
  - destruct (osp_exists _) eqn:Hex; simpl.
    + exists (with_table t σ). split_and!; try done.
      * by apply wf_with_table.
      * intros ? [= <-]. apply lookup_insert_eq.
    + exists σ. by split_and!.
Qed.

Lemma getind_wf (t : string) (k : value) (σ : NuImages) :
  wf σ → wf (getind t k σ).2.
Proof.
  intros Hwf. destruct (decide (t ∈ table_names)) as [Ht|Ht].
  - rewrite getind_run by done.
    destruct (_token2ind σ !! t) as [[ix|]|] eqn:Hix; try done.
    rewrite getattr_run by done.
    change (tables (with_index t ∅ σ)) with (tables σ).
    change (table_path (with_index t ∅ σ) t) with (table_path σ t).
    assert (Hii : ∀ ix σ', with_index t ix (with_index t ∅ σ') = with_index t ix σ').
    { intros. unfold with_index, set_token2ind. simpl. by rewrite insert_insert_eq. }
    destruct (tables σ !! t) as [tbl|] eqn:Htbl.
    + simpl. rewrite Hii. apply wf_with_index; [done..|]. by rewrite Htbl.
    + destruct (osp_exists _) eqn:Hex; simpl.
      * change (with_table t (with_index t ∅ σ))
          with (with_index t ∅ (with_table t σ)).
        rewrite Hii. apply wf_with_index; [by apply wf_with_table|done|].
        simpl. by rewrite lookup_insert_eq.
      * apply wf_with_index; [done..|]. by rewrite Htbl.
  - unfold getind. munfold.
    destruct (_token2ind σ !! t) eqn:Hix; [|done].
    exfalso. apply Ht. apply (wf_index_dom _ Hwf). by eauto.
Qed.

(** [getind] on a table that is loaded. *)
Lemma getind_loaded (t : string) (k : value) (tbl : table) (σ : NuImages) :
  wf σ → t ∈ table_names → tables σ !! t = Some tbl →
  ∃ σ', getind t k σ = (dict_getitem (index_of tbl) k, σ') ∧ wf σ' ∧
        version σ' = version σ ∧ dataroot σ' = dataroot σ ∧
        tables σ' = tables σ.
Proof.
  intros Hwf Ht Htbl. rewrite getind_run by done.
  destruct (_token2ind σ !! t) as [[ix|]|] eqn:Hix.
  - pose proof (wf_index _ Hwf _ _ Hix) as Hi. rewrite Htbl in Hi. subst ix.
    by exists σ.
  - rewrite getattr_run by done.
    change (tables (with_index t ∅ σ)) with (tables σ). rewrite Htbl.
    eexists. split; [done|]. split_and!; try done.
    unfold with_index, set_token2ind. simpl. rewrite insert_insert_eq.
    apply (wf_with_index σ t); [done..|]. by rewrite Htbl.
  - exfalso. assert (Hs : is_Some (_token2ind σ !! t))
      by by apply (wf_index_dom _ Hwf).
    rewrite Hix in Hs. by destruct Hs.
Qed.

Lemma get_computes (v d t : string) (k : value) :
  t ∈ table_names →
  computes v d (get t k) (lookup_record (osp_join d v) t k).
Proof.
  intros Ht σ Hwf Hv Hd. unfold get.
  rewrite bool_decide_eq_true_2 by done. munfold.
  destruct (getattr_spec t σ Hwf Ht) as (σ1 & -> & Hwf1 & Hv1 & Hd1 & _ & _ & Hl).
  unfold lookup_record, table_root. rewrite Hv, Hd.
  unfold table_root in Hl. rewrite Hv, Hd in Hl.
  destruct (table_on_disk (osp_join d v) t) as [tbl|e]; simpl.
  - destruct (getind_loaded t k tbl σ1 Hwf1 Ht (Hl _ eq_refl))
      as (σ2 & -> & Hwf2 & Hv2 & Hd2 & _).
    unfold find_token. exists σ2.
    destruct (dict_getitem (index_of tbl) k); simpl;
      (split_and!; [done|done|congruence|congruence]).
  - exists σ1. split_and!; [done|done|congruence|congruence].
Qed.

Lemma get_wf (t : string) (k : value) (σ : NuImages) :
  wf σ → wf (get t k σ).2.
Proof.
  intros Hwf. destruct (decide (t ∈ table_names)) as [Ht|Ht].
  - destruct (get_computes _ _ t k Ht σ Hwf eq_refl eq_refl) as (σ' & -> & ? & _).
    done.
  - unfold get. rewrite bool_decide_eq_false_2 by done. by munfold.
Qed.

End Store.

(** ** Running the renderer *)

Section Render.
Context `{Environment}.

#[local] Arguments getitem : simpl never.
#[local] Arguments dict_getitem : simpl never.
#[local] Arguments subscript : simpl never.
#[local] Arguments iter_value : simpl never.
#[local] Arguments image_path : simpl never.
#[local] Arguments lookup_record : simpl never.
#[local] Arguments table_on_disk : simpl never.
#[local] Arguments select_sample_data : simpl never.
#[local] Arguments select_tokens : simpl never.
#[local] Arguments osp_join : simpl never.
#[local] Arguments eq_str : simpl never.
#[local] Arguments truthy : simpl never.

Lemma getattr_computes (v d t : string) :
  t ∈ table_names → computes v d (getattr_ t) (table_on_disk (osp_join d v) t).
Proof.
  intros Ht σ Hwf Hv Hd.
  destruct (getattr_spec t σ Hwf Ht) as (σ' & -> & ? & ? & ? & _).
  unfold table_root. rewrite Hv, Hd. exists σ'. split_and!; congruence.
Qed.

Lemma category_color_computes (v d : string) (ann : record) :
  computes v d (category_color ann)
    (resolve_color (osp_join d v) get_colormap ann).
Proof.
  intros σ Hwf Hv Hd. unfold category_color, resolve_color. mstep.
  destruct (getitem ann "category_token") as [ct|e]; mstep; [|leaf].
  run (get_computes v d "category" ct ltac:(set_solver)).
  destruct (lookup_record _ _ _) as [cat|e]; mstep; [|leaf].
  destruct (getitem cat "name") as [n|e]; mstep; [|leaf].
  rewrite (wf_color_map σ0) by done.
  destruct (dict_getitem get_colormap n) as [c|e]; mstep; leaf.
Qed.

Lemma get_attributes_computes (v d : string) (attr_tokens : list value) :
  computes v d (get_attributes attr_tokens)
    (lookup_attributes (osp_join d v) attr_tokens).
Proof.
  induction attr_tokens as [|a rest IH]; intros σ Hwf Hv Hd; mstep; [leaf|].
  run (get_computes v d "attribute" a ltac:(set_solver)).
  destruct (lookup_record _ _ _) as [r|e]; mstep; [|leaf].
  run IH.
  destruct (lookup_attributes _ _) as [rs|e]; mstep; leaf.
Qed.

Lemma draw_surface_anns_computes (v d : string) (anns : table) :
  ∀ im, computes v d (draw_surface_anns anns im)
          (pass (surface_cmds (osp_join d v) get_colormap) anns im).
Proof.
  induction anns as [|ann rest IH]; intros im σ Hwf Hv Hd; mstep; [leaf|].
  run (category_color_computes v d ann). unfold surface_cmds. mstep.
  destruct (resolve_color _ _ _) as [[n c]|e]; mstep; [|leaf].
  destruct (getitem ann "mask") as [mv|e]; mstep; [|leaf].
  destruct (is_None mv); mstep; [by apply IH|].
  destruct (mask_decode mv) as [mask|e]; mstep; [|leaf].
  destruct (draw_bitmap im mask _) as [im'|e]; mstep; [|leaf].
  by apply IH.
Qed.

Lemma draw_object_anns_computes (v d : string) (wa : bool) (anns : table) :
  ∀ im, computes v d (draw_object_anns wa anns im)
          (pass (object_cmds (osp_join d v) get_colormap wa) anns im).
Proof.
  induction anns as [|ann rest IH]; intros im σ Hwf Hv Hd; mstep; [leaf|].
  run (category_color_computes v d ann). unfold object_cmds. mstep.
  destruct (resolve_color _ _ _) as [[n c]|e]; mstep; [|leaf].
  destruct (getitem ann "bbox") as [bbox|e]; mstep; [|leaf].
  destruct (getitem ann "attribute_tokens") as [ats|e]; mstep; [|leaf].
  destruct (iter_value ats) as [atl|e]; mstep; [|leaf].
  run (get_attributes_computes v d atl).
  destruct (lookup_attributes _ _) as [attrs|e]; mstep; [|leaf].
  destruct (annotation_name attrs n wa) as [name|e]; mstep; [|leaf].
  destruct (getitem ann "mask") as [mv|e]; mstep; [|leaf].
  destruct (is_None mv); mstep; [by apply IH|].
  destruct (mask_decode mv) as [mask|e]; mstep; [|leaf].
  destruct (draw_rectangle im bbox c) as [im1|e]; mstep; [|leaf].
  destruct (subscript bbox 0) as [x|e]; mstep; [|leaf].
  destruct (subscript bbox 1) as [y|e]; mstep; [|leaf].
  destruct (draw_text im1 (x, y) name) as [im2|e]; mstep; [|leaf].
  destruct (draw_bitmap im2 mask _) as [im3|e]; mstep; [|leaf].
  by apply IH.
Qed.

(** The part of [render_image] after the checks. *)
Ltac render_tail v d tok wa ot st :=
  match goal with Hd' : dataroot _ = d |- _ => rewrite Hd' end;
  destruct (getitem _ "filename") as [fn|?]; mstep; [|leaf];
  destruct (image_path d fn) as [p|?]; mstep; [|leaf];
  destruct (Image_open p) as [im|?]; mstep; [|leaf];
  first
    [ leaf
    | run (getattr_computes v d "surface_ann" ltac:(set_solver));
      destruct (table_on_disk _ "surface_ann") as [stbl|?]; mstep; [|leaf];
      destruct (select_sample_data stbl tok) as [sanns|?]; mstep; [|leaf];
      run (draw_surface_anns_computes v d (select_tokens st sanns) im);
      destruct (pass _ _ _) as [im1|?]; mstep; [|leaf];
      run (getattr_computes v d "object_ann" ltac:(set_solver));
      destruct (table_on_disk _ "object_ann") as [otbl|?]; mstep; [|leaf];
      destruct (select_sample_data otbl tok) as [oanns|?]; mstep; [|leaf];
      by apply draw_object_anns_computes ].

(** [render_image] returns, or raises, what [render] says. *)
Lemma render_image_computes (v d tok : string) (wn wa : bool)
    (ot st : option (list string)) :
  computes v d (render_image tok wn wa ot st)
    (render (osp_join d v) d get_colormap tok wn wa ot st).
Proof.
  intros σ Hwf Hv Hd. unfold render_image, render, base_image, annotations_of.
  mstep.
  run (get_computes v d "sample_data" (VStr tok) ltac:(set_solver)).
  destruct (lookup_record _ _ _) as [sd|e]; mstep; [|leaf].
  destruct (getitem sd "fileformat") as [ff|e]; mstep; [|leaf].
  destruct (eq_str ff "jpg"); mstep; [|leaf].
  destruct (getitem sd "is_key_frame") as [kf|e]; mstep; [|leaf].
  destruct (truthy kf); mstep.
  - destruct wn; mstep; render_tail v d tok wa ot st.
  - destruct wn; mstep; [leaf|]. destruct wa; mstep; [leaf|].
    render_tail v d tok false ot st.
Qed.

End Render.

(** ** Construction *)

Section Construction.
Context `{Environment}.

Lemma with_table_path (t t' : string) (σ : NuImages) :
  table_path (with_table t σ) t' = table_path σ t'.
Proof. done. Qed.

Lemma init_tables_run (σ : NuImages) :
  (init_table "attribute";;
   init_table "calibrated_sensor";;
   init_table "category";;
   init_table "ego_pose";;
   init_table "log";;
   init_table "object_ann";;
   init_table "sample";;
   init_table "sample_data";;
   init_table "sensor";;
   init_table "surface_ann") σ = load_all table_names σ.
Proof.
  unfold table_names, load_all.
  repeat (unfold mbind at 1, M_bind at 1; rewrite init_table_run;
          rewrite ?with_table_path;
          destruct (osp_exists (table_path σ _)); [|reflexivity]).
  rewrite init_table_run, ?with_table_path.
  by destruct (osp_exists _).
Qed.

#[local] Arguments load_all : simpl never.

(** [__init__], step by step. *)
Lemma init_run (v d : string) (l vb : bool) :
  NuImages_new v d l vb =
    if osp_exists (osp_join d v) then
      if l then (Ok tt, finish (fresh_object v d l vb))
      else match load_all table_names (fresh_object v d l vb) with
           | (Ok _, σ) => (Ok tt, finish σ)
           | (Err e, σ) => (Err e, σ)
           end
    else (Err (AssertionError ("Database version not found: " +:+ osp_join d v)),
          set_config v d l vb blank).
Proof.
  unfold NuImages_new, __init__. munfold.
  change (table_root (set_config v d l vb blank)) with (osp_join d v).
  destruct (osp_exists (osp_join d v)); [|done]. simpl.
  destruct l; simpl; [done|].
  pose proof (init_tables_run (fresh_object v d false vb)) as Hrun.
  unfold mbind, M_bind in Hrun. unfold fresh_object in Hrun.
  cbn [foldl table_names] in Hrun.
  unfold set_token2ind, set_config, blank. simpl. rewrite Hrun.
  by destruct (load_all _ _) as [[[]|e] σ].
Qed.

Lemma with_tables_cons (t : string) (rest : list string) (σ : NuImages) :
  with_tables (t :: rest) σ = with_tables rest (with_table t σ).
Proof. done. Qed.

Lemma with_tables_config (names : list string) (σ : NuImages) :
  version (with_tables names σ) = version σ ∧
  dataroot (with_tables names σ) = dataroot σ ∧
  lazy (with_tables names σ) = lazy σ ∧
  reads (with_tables names σ) = reads σ ++ names.
Proof.
  revert σ. induction names as [|t rest IH]; intros σ.
  - by rewrite app_nil_r.
  - rewrite with_tables_cons.
    destruct (IH (with_table t σ)) as (-> & -> & -> & ->).
    split_and!; try done. simpl. by rewrite <- app_assoc.
Qed.

Lemma with_tables_path (names : list string) (σ : NuImages) (t : string) :
  table_path (with_tables names σ) t = table_path σ t.
Proof.
  destruct (with_tables_config names σ) as (Hv & Hd & _).
  by apply table_path_eq.
Qed.

Lemma with_tables_other (names : list string) (σ : NuImages) (t : string) :
  t ∉ names → tables (with_tables names σ) !! t = tables σ !! t.
Proof.
  revert σ. induction names as [|t' rest IH]; intros σ Ht; [done|].
  apply not_elem_of_cons in Ht as [Hne Ht].
  rewrite with_tables_cons, IH by done. simpl. by rewrite lookup_insert_ne.
Qed.

Lemma with_tables_loaded (names : list string) (σ : NuImages) (t : string) :
  t ∈ names →
  tables (with_tables names σ) !! t = Some (json_load (table_path σ t)).
Proof.
  revert σ. induction names as [|t' rest IH]; intros σ Ht.
  - by apply elem_of_nil in Ht.
  - rewrite with_tables_cons.
    destruct (decide (t ∈ rest)) as [Hin|Hnin].
    + by rewrite IH.
    + rewrite with_tables_other by done.
      apply elem_of_cons in Ht as [->|?]; [|done].
      simpl. by rewrite lookup_insert_eq.
Qed.

Lemma load_all_cons (t : string) (rest : list string) (σ : NuImages) :
  load_all (t :: rest) σ =
    if osp_exists (table_path σ t) then load_all rest (with_table t σ)
    else (Err (AssertionError ("Error: Table " +:+ t +:+ " does not exist!")), σ).
Proof. done. Qed.

Lemma load_all_ok (names : list string) (σ : NuImages) :
  (∀ t, t ∈ names → osp_exists (table_path σ t) = true) →
  load_all names σ = (Ok tt, with_tables names σ).
Proof.
  revert σ. induction names as [|t rest IH]; intros σ Hex; [done|].
  rewrite load_all_cons, Hex by left. rewrite with_tables_cons. apply IH.
  intros t' Ht'. rewrite with_table_path. apply Hex. by right.
Qed.

(** The first missing file stops the loading. *)
Lemma load_all_missing (pre post : list string) (t : string) (σ : NuImages) :
  (∀ t', t' ∈ pre → osp_exists (table_path σ t') = true) →
  osp_exists (table_path σ t) = false →
  load_all (pre ++ t :: post) σ =
    (Err (AssertionError ("Error: Table " +:+ t +:+ " does not exist!")),
     with_tables pre σ).
Proof.
  revert σ. induction pre as [|t' pre IH]; intros σ Hex Hmiss.
  - simpl. by rewrite load_all_cons, Hmiss.
  - rewrite <- app_comm_cons, load_all_cons, Hex by left.
    rewrite with_tables_cons. apply IH.
    + intros t'' Ht''. rewrite with_table_path. apply Hex. by right.
    + by rewrite with_table_path.
Qed.

Lemma load_all_inv (names : list string) (σ σ' : NuImages) (u : unit) :
  load_all names σ = (Ok u, σ') →
  (∀ t, t ∈ names → osp_exists (table_path σ t) = true) ∧
  σ' = with_tables names σ.
Proof.
  revert σ. induction names as [|t rest IH]; intros σ.
  - intros [= _ <-]. split; [|done]. by intros t ?%elem_of_nil.
  - rewrite load_all_cons.
    destruct (osp_exists (table_path σ t)) eqn:Hex; [|done].
    intros [Hrest ->]%IH. split; [|done].
    intros t' [->|Ht']%elem_of_cons; [done|].
    rewrite <- (with_table_path t). by apply Hrest.
Qed.

Lemma with_tables_wf (names : list string) (σ : NuImages) :
  wf σ → NoDup names →
  (∀ t, t ∈ names → tables σ !! t = None) →
  (∀ t, t ∈ names → osp_exists (table_path σ t) = true) →
  wf (with_tables names σ).
Proof.
  revert σ. induction names as [|t rest IH]; intros σ Hwf Hnd Hnone Hex; [done|].
  apply NoDup_cons in Hnd as [Hnotin Hnd].
  rewrite with_tables_cons. apply IH; [|done|..].
  - apply wf_with_table; [done|apply Hnone; left|apply Hex; left].
  - intros t' Ht'. simpl. rewrite lookup_insert_ne; [apply Hnone; by right|].
    intros ->. contradiction.
  - intros t' Ht'. rewrite with_table_path. apply Hex. by right.
Qed.

Lemma index_init_lookup (names : list string)
    (d : gmap string (option (gmap string nat))) (t : string) :
  foldl (λ d table, <[table := None]> d) d names !! t =
    if decide (t ∈ names) then Some None else d !! t.
Proof.
  revert d. induction names as [|t' rest IH]; intros d; simpl; [done|].
  rewrite IH. destruct (decide (t ∈ rest)) as [Hin|Hnin].
  - rewrite decide_True; [done|by right].
  - destruct (decide (t = t')) as [->|Hne].
    + rewrite lookup_insert_eq, decide_True; [done|left].
    + rewrite lookup_insert_ne by done.
      rewrite decide_False; [done|].
      by intros [?|?]%elem_of_cons.
Qed.

Lemma wf_finish_fresh (v d : string) (l vb : bool) :
  wf (finish (fresh_object v d l vb)).
Proof.
  assert (Hix : _token2ind (finish (fresh_object v d l vb)) =
                foldl (λ d table, <[table := None]> d) ∅ table_names) by done.
  split.
  - intros t tbl. simpl. by rewrite lookup_empty.
  - intros t. rewrite Hix, index_init_lookup.
    case_decide; [by split|]. rewrite lookup_empty.
    split; [by intros [? ?]|done].
  - intros t ix. rewrite Hix, index_init_lookup.
    case_decide; [done|by rewrite lookup_empty].
  - apply NoDup_nil_2.
  - by intros t ?%elem_of_nil.
  - done.
  - done.
Qed.

Lemma finish_with_tables (names : list string) (σ : NuImages) :
  finish (with_tables names σ) = with_tables names (finish σ).
Proof.
  revert σ. induction names as [|t rest IH]; intros σ; [done|].
  by rewrite !with_tables_cons, IH.
Qed.

Lemma NoDup_table_names : NoDup table_names.
Proof. apply (bool_decide_unpack _). by vm_compute. Qed.

(** A constructed object is well-formed. *)
Lemma init_wf (v d : string) (l vb : bool) (σ : NuImages) :
  NuImages_new v d l vb = (Ok tt, σ) →
  wf σ ∧ version σ = v ∧ dataroot σ = d ∧ lazy σ = l.
Proof.
  rewrite init_run. destruct (osp_exists (osp_join d v)); [|done].
  destruct l.
  - intros [= <-]. split; [apply wf_finish_fresh|done].
  - destruct (load_all _ _) as [[u|e] σ'] eqn:Hload; [|done].
    intros [= <-]. apply load_all_inv in Hload as [Hex ->].
    rewrite finish_with_tables.
    destruct (with_tables_config table_names (finish (fresh_object v d false vb)))
      as (-> & -> & -> & _).
    split; [|done].
    apply with_tables_wf;
      [apply wf_finish_fresh|apply NoDup_table_names|done|done].
Qed.

End Construction.

(** ** The key-frame index *)

Section KeyFrames.
Context `{Environment}.

#[local] Arguments getitem : simpl never.
#[local] Arguments truthy : simpl never.
#[local] Arguments eq_str : simpl never.

(** No round of the loop creates the key ['camera']. *)
Lemma key_frame_step_camera (mapping m' : gmap string (gmap pykey value))
    (sd : record) :
  mapping !! "camera" = None → key_frame_step mapping sd = Ok m' →
  m' !! "camera" = None.
Proof.
  intros Hcam. unfold key_frame_step. simpl.
  destruct (getitem sd "is_key_frame") as [kf|]; simpl; [|done].
  destruct (truthy kf); [|by intros [= <-]].
  destruct (getitem sd "fileformat") as [ff|]; simpl; [|done].
  destruct (getitem sd "sample_token") as [st|]; simpl; [|done].
  destruct (eq_str ff "jpg"); [by rewrite Hcam|].
  destruct (mapping !! "lidar") as [inner|]; simpl; [|done].
  destruct (hashable st); [|done].
  intros [= <-]. by rewrite lookup_insert_ne.
Qed.

Lemma key_frame_loop_camera (sds : table) :
  ∀ mapping m', mapping !! "camera" = None →
    key_frame_loop mapping sds = Ok m' → m' !! "camera" = None.
Proof.
  induction sds as [|sd rest IH]; intros mapping m' Hcam; simpl.
  - by intros [= <-].
  - destruct (key_frame_step mapping sd) as [m1|] eqn:Hstep; simpl; [|done].
    apply IH. by eapply key_frame_step_camera.
Qed.

(** A key frame of a camera stops the loop. *)
Lemma key_frame_step_jpg (mapping : gmap string (gmap pykey value))
    (sd : record) (kf st : value) :
  mapping !! "camera" = None →
  getitem sd "is_key_frame" = Ok kf → truthy kf = true →
  getitem sd "fileformat" = Ok (VStr "jpg") →
  getitem sd "sample_token" = Ok st →
  key_frame_step mapping sd = Err (KeyError (VStr "camera")).
Proof.
  intros Hcam Hkf Ht Hff Hst. unfold key_frame_step.
  rewrite Hkf. simpl. rewrite Ht, Hff. simpl. rewrite Hst. simpl.
  by rewrite Hcam.
Qed.

Lemma key_frame_init_camera : key_frame_init !! "camera" = None.
Proof. by vm_compute. Qed.

Lemma wf_set_key_frames (σ : NuImages) (m : gmap string (gmap pykey value)) :
  wf σ →
  key_frame_loop key_frame_init (json_load (table_path σ "sample_data")) = Ok m →
  wf (set_sample_to_key_frame_map (Some m) σ).
Proof.
  intros [Htb Hdom Hix Hnd Hrl Hcm Hkf] Hm. split; try done.
  by intros m' [= <-].
Qed.

Lemma sample_to_key_frame_run (s m : string) (σ : NuImages) :
  wf σ →
  ∃ r σ', sample_to_key_frame s m σ = (r, σ') ∧ wf σ' ∧
    version σ' = version σ ∧ dataroot σ' = dataroot σ ∧
    (m = "camera" → is_Err r = true).
Proof.
  intros Hwf. unfold sample_to_key_frame. mstep.
  assert (Hlook : ∀ mapping : gmap string (gmap pykey value),
    mapping !! "camera" = None → m = "camera" →
    is_Err (match dict_getitem mapping (VStr m) with
            | Ok inner => pydict_getitem inner (VStr s)
            | Err e => Err e
            end) = true).
  { intros mapping Hcam ->. unfold dict_getitem. by rewrite Hcam. }
  destruct (sample_to_key_frame_map σ) as [mapping|] eqn:Hmap; mstep.
  - rewrite Hmap. mstep. eexists _, σ. split_and!; try done.
    apply Hlook.
    eapply key_frame_loop_camera;
      [apply key_frame_init_camera|by apply (wf_key_frames _ Hwf)].
  - destruct (getattr_spec "sample_data" σ Hwf ltac:(set_solver))
      as (σ1 & -> & Hwf1 & Hv1 & Hd1 & _ & Hmap1 & _).
    unfold table_on_disk. fold (table_path σ "sample_data").
    destruct (osp_exists _); mstep; [|by eexists _, σ1].
    destruct (key_frame_loop key_frame_init _) as [mapping|e] eqn:Hloop; mstep.
    + eexists _, _. split_and!; [done| |done|done|].
      * apply wf_set_key_frames; [done|].
        by rewrite (table_path_eq σ σ1).
      * apply Hlook.
        eapply key_frame_loop_camera; [apply key_frame_init_camera|done].
    + by eexists _, σ1.
Qed.

End KeyFrames.

(** ** The lifetime of an object *)

Section Lifetime.
Context `{Environment}.

Lemma render_image_wf (tok : string) (wn wa : bool)
    (ot st : option (list string)) (σ : NuImages) :
  wf σ → wf (render_image tok wn wa ot st σ).2.
Proof.
  intros Hwf.
  destruct (render_image_computes (version σ) (dataroot σ) tok wn wa ot st
              σ Hwf eq_refl eq_refl) as (σ' & -> & ? & _).
  done.
Qed.

Lemma after_call_wf (σ : NuImages) (c : call) :
  wf σ → wf (after_call σ c).
Proof.
  intros Hwf. destruct c; simpl.
  - by apply load_table_wf.
  - by apply get_wf.
  - by apply getind_wf.
  - destruct (sample_to_key_frame_run sample_token modality σ Hwf)
      as (r & σ' & -> & ? & _). done.
  - by apply render_image_wf.
Qed.

Lemma after_calls_wf (calls : list call) :
  ∀ σ, wf σ → wf (after_calls σ calls).
Proof.
  induction calls as [|c rest IH]; intros σ Hwf; [done|].
  apply IH. by apply after_call_wf.
Qed.

(** Every state a constructed object goes through is well-formed. *)
Lemma reachable_wf (v d : string) (l vb : bool) (σ0 : NuImages)
    (calls : list call) :
  NuImages_new v d l vb = (Ok tt, σ0) → wf (after_calls σ0 calls).
Proof. intros [Hwf _]%init_wf. by apply after_calls_wf. Qed.

End Lifetime.

(** * Properties of the store *)

Section StoreClaims.
Context `{Environment}.

(** [get] on a table whose file exists: the record found, and the table
    is resident afterwards. *)
Lemma get_on_disk (t : string) (k : value) (tbl : table) (σ : NuImages) :
  wf σ → t ∈ table_names → table_on_disk (table_root σ) t = Ok tbl →
  ∃ σ', get t k σ = (find_token tbl k, σ') ∧ wf σ' ∧
        version σ' = version σ ∧ dataroot σ' = dataroot σ ∧
        tables σ' !! t = Some tbl.
Proof.
  intros Hwf Ht Hdisk. unfold get.
  rewrite bool_decide_eq_true_2 by done. munfold.
  destruct (getattr_spec t σ Hwf Ht) as (σ1 & -> & Hwf1 & Hv1 & Hd1 & _ & _ & Hl).
  rewrite Hdisk. specialize (Hl _ Hdisk).
  destruct (getind_loaded t k tbl σ1 Hwf1 Ht Hl)
    as (σ2 & -> & Hwf2 & Hv2 & Hd2 & Htb).
  unfold find_token. exists σ2.
  destruct (dict_getitem (index_of tbl) k); simpl;
    (split_and!; [done|done|congruence|congruence|by rewrite Htb]).
Qed.

(** C5. In a table with unique tokens, [get(table_name, r['token'])]
    returns the record [r] for every record of the table; for a token
    that is in no record it raises [KeyError] (the spec's NotFoundError);
    and for a name that is not one of the ten table names it raises
    [AssertionError 'Table ... not found'], a different exception. *)
Theorem get_index_correct (σ : NuImages) (t : string) (tbl : table) :
  wf σ → t ∈ table_names →
  table_on_disk (table_root σ) t = Ok tbl → NoDup (token <$> tbl) →
  (∀ r, r ∈ tbl → (get t (VStr (token r)) σ).1 = Ok r) ∧
  (∀ s, s ∉ token <$> tbl → (get t (VStr s) σ).1 = Err (KeyError (VStr s))) ∧
  (∀ t' k σ', t' ∉ table_names →
     get t' k σ' = (Err (AssertionError ("Table " +:+ t' +:+ " not found")), σ')).
Proof.
  intros Hwf Ht Hdisk Hnd. split_and!.
  - intros r [i Hi]%list_elem_of_lookup_1.
    destruct (get_on_disk t (VStr (token r)) tbl σ Hwf Ht Hdisk) as (σ' & -> & _).
    unfold find_token. simpl.
    rewrite (index_of_unique tbl i r) by done. simpl.
    unfold list_getitem. by rewrite Hi.
  - intros s Hs.
    destruct (get_on_disk t (VStr s) tbl σ Hwf Ht Hdisk) as (σ' & -> & _).
    unfold find_token. simpl. by rewrite index_of_absent.
  - intros t' k σ' Ht'. unfold get.
    rewrite bool_decide_eq_false_2 by done. by munfold.
Qed.

(** C6. When two records of a table carry the same token, the index
    keeps the position of the later one: [get] and [getind] for that
    token answer with the last such record and its position, no
    exception is raised, and the table keeps both records. *)
Theorem duplicate_token_last_wins (σ : NuImages) (t : string)
    (l1 l2 l3 : table) (r1 r2 : record) :
  wf σ → t ∈ table_names →
  table_on_disk (table_root σ) t = Ok (l1 ++ r1 :: l2 ++ r2 :: l3) →
  token r1 = token r2 → (∀ r, r ∈ l3 → token r ≠ token r2) →
  ∃ σ', get t (VStr (token r1)) σ = (Ok r2, σ') ∧
        (getind t (VStr (token r1)) σ').1 = Ok (length l1 + 1 + length l2)%nat ∧
        tables σ' !! t = Some (l1 ++ r1 :: l2 ++ r2 :: l3).
Proof.
  intros Hwf Ht Hdisk Heq Hlast.
  set (tbl := l1 ++ r1 :: l2 ++ r2 :: l3) in *.
  assert (Hsplit : tbl = (l1 ++ r1 :: l2) ++ r2 :: l3)
    by (unfold tbl; by rewrite <- app_assoc).
  assert (Hix : index_of tbl !! token r1 = Some (length l1 + 1 + length l2)%nat).
  { rewrite Hsplit, Heq, index_of_last by done.
    f_equal. rewrite length_app. simpl. lia. }
  destruct (get_on_disk t (VStr (token r1)) tbl σ Hwf Ht Hdisk)
    as (σ' & Hget & Hwf' & _ & _ & Htbl).
  exists σ'. split_and!; [|
    |done].
  - rewrite Hget. f_equal. unfold find_token. simpl. rewrite Hix. simpl.
    unfold list_getitem. rewrite Hsplit.
    replace (length l1 + 1 + length l2)%nat with (length (l1 ++ r1 :: l2))
      by (rewrite length_app; simpl; lia).
    by rewrite list_lookup_middle.
  - destruct (getind_loaded t (VStr (token r1)) tbl σ' Hwf' Ht Htbl)
      as (σ'' & -> & _). simpl. by rewrite Hix.
Qed.

Lemma finish_reads (σ : NuImages) : reads (finish σ) = reads σ.
Proof. done. Qed.

Lemma finish_tables (σ : NuImages) : tables (finish σ) = tables σ.
Proof. done. Qed.

(** C7. Construction raises [AssertionError 'Database version not
    found'] (the spec's ConfigError) whenever the version directory does
    not exist.  When it exists: with [lazy] on, construction succeeds and
    reads no table; with [lazy] off and all ten files present, it reads
    and stores the ten tables in order; with [lazy] off and a file
    missing, it raises at the first missing table, having read only the
    tables before it. *)
Theorem construction (v d : string) (l vb : bool) :
  (osp_exists (osp_join d v) = false →
   (NuImages_new v d l vb).1 =
     Err (AssertionError ("Database version not found: " +:+ osp_join d v))) ∧
  (osp_exists (osp_join d v) = true →
   (l = true →
    ∃ σ, NuImages_new v d l vb = (Ok tt, σ) ∧ tables σ = ∅ ∧ reads σ = []) ∧
   (l = false →
    (∀ t, t ∈ table_names →
       osp_exists (osp_join (osp_join d v) (t +:+ ".json")) = true) →
    ∃ σ, NuImages_new v d l vb = (Ok tt, σ) ∧ reads σ = table_names ∧
         ∀ t, t ∈ table_names →
           tables σ !! t =
             Some (json_load (osp_join (osp_join d v) (t +:+ ".json")))) ∧
   (l = false →
    ∀ pre t post, table_names = pre ++ t :: post →
      (∀ t', t' ∈ pre →
         osp_exists (osp_join (osp_join d v) (t' +:+ ".json")) = true) →
      osp_exists (osp_join (osp_join d v) (t +:+ ".json")) = false →
      ∃ σ, NuImages_new v d l vb =
             (Err (AssertionError ("Error: Table " +:+ t +:+ " does not exist!")), σ) ∧
           reads σ = pre)).
Proof.
  rewrite init_run. split.
  - by intros ->.
  - intros ->. split_and!.
    + intros ->. by eexists.
    + intros -> Hex. rewrite load_all_ok by done.
      eexists. split; [done|].
      destruct (with_tables_config table_names (fresh_object v d false vb))
        as (_ & _ & _ & Hr).
      split; [by rewrite finish_reads, Hr|].
      intros t Ht. by rewrite finish_tables, with_tables_loaded.
    + intros -> pre t post Hnames Hpre Hmiss.
      rewrite Hnames, (load_all_missing pre post t) by done.
      eexists. split; [done|].
      destruct (with_tables_config pre (fresh_object v d false vb))
        as (_ & _ & _ & Hr).
      by rewrite Hr.
Qed.

(** C8. [load_table] on a resident table does nothing; calling it twice
    in a row is the same as calling it once; and over the lifetime of a
    constructed object, whatever methods are called, no table file is
    read more than once. *)
Theorem load_table_idempotent :
  (∀ t σ tbl, tables σ !! t = Some tbl → load_table t σ = (Ok tt, σ)) ∧
  (∀ t σ, (load_table t;; load_table t) σ = load_table t σ) ∧
  (∀ v d l vb σ0 calls, NuImages_new v d l vb = (Ok tt, σ0) →
     NoDup (reads (after_calls σ0 calls))).
Proof.
  split_and!.
  - intros t σ tbl Htbl. rewrite load_table_run. unfold in_dict.
    rewrite Htbl, (bool_decide_eq_true_2 (is_Some (Some tbl))) by eauto.
    by rewrite orb_true_r.
  - intros t σ. unfold mbind at 1, M_bind. rewrite !load_table_run.
    destruct (in_dict σ t) eqn:Hin.
    + by rewrite load_table_run, Hin.
    + destruct (osp_exists (table_path σ t)) eqn:Hex; [|done].
      rewrite load_table_run. unfold in_dict at 1. simpl.
      rewrite lookup_insert_eq, (bool_decide_eq_true_2 (is_Some (Some _))) by eauto.
      by rewrite orb_true_r.
  - intros v d l vb σ0 calls [Hwf _]%init_wf.
    by apply wf_reads, after_calls_wf.
Qed.

(** C1 (the code departs from it).  In every well-formed state and for
    every sample token, [sample_to_key_frame(sample_token, 'camera')]
    raises: the mapping is created with the keys ['image'] and ['lidar'],
    the loop files camera key frames under ['camera']. *)
Theorem sample_to_key_frame_camera_raises (σ : NuImages) (s : string) :
  wf σ → is_Err (sample_to_key_frame s "camera" σ).1 = true.
Proof.
  intros Hwf.
  destruct (sample_to_key_frame_run s "camera" σ Hwf) as (r & σ' & -> & _ & _ & _ & Hr).
  by apply Hr.
Qed.

(** C4. With annotations requested, [render_image] on a point cloud
    ([fileformat] ['bin']) raises the assertion on the file format, and
    on a camera frame that is no key frame it raises the assertion on
    key frames (the spec's PreconditionError).  In both cases the state
    left is the one after the lookup of the sample_data: no image has
    been opened and nothing drawn, whatever the image codec and the
    drawing primitives do. *)
Theorem render_image_preconditions (σ σ1 : NuImages) (tok : string)
    (wa : bool) (ot st : option (list string)) (sd : record) :
  get "sample_data" (VStr tok) σ = (Ok sd, σ1) →
  (getitem sd "fileformat" = Ok (VStr "bin") →
   render_image tok true wa ot st σ =
     (Err (AssertionError "Error: Cannot use render_image() on lidar pointclouds!"), σ1)) ∧
  (getitem sd "fileformat" = Ok (VStr "jpg") →
   ∀ kf, getitem sd "is_key_frame" = Ok kf → truthy kf = false →
   render_image tok true wa ot st σ =
     (Err (AssertionError "Error: Cannot render annotations for non keyframes!"), σ1)).
Proof.
  intros Hget. split.
  - intros Hff. unfold render_image. munfold. by rewrite Hget, Hff.
  - intros Hff kf Hkf Ht. unfold render_image. munfold.
    rewrite Hget, Hff. simpl. by rewrite Hkf, Ht.
Qed.

(** C9. On a camera frame that is no key frame, [render_image] with
    [with_attributes] on raises even when [with_annotations] is off. *)
Theorem render_image_attributes_need_key_frame (σ σ1 : NuImages)
    (tok : string) (ot st : option (list string)) (sd : record) (kf : value) :
  get "sample_data" (VStr tok) σ = (Ok sd, σ1) →
  getitem sd "fileformat" = Ok (VStr "jpg") →
  getitem sd "is_key_frame" = Ok kf → truthy kf = false →
  render_image tok false true ot st σ =
    (Err (AssertionError "Error: Cannot render attributes for non keyframes!"), σ1).
Proof.
  intros Hget Hff Hkf Ht. unfold render_image. munfold.
  rewrite Hget, Hff. simpl. by rewrite Hkf, Ht.
Qed.

End StoreClaims.

Section RenderClaims.
Context `{Environment}.

#[local] Arguments getitem : simpl never.
#[local] Arguments lookup_record : simpl never.
#[local] Arguments table_on_disk : simpl never.
#[local] Arguments select_sample_data : simpl never.
#[local] Arguments mask_decode : simpl never.

(** In a well-formed state [render_image] returns, or raises, what
    [render] says for the files of the object. *)
Lemma render_image_result (σ : NuImages) (tok : string) (wn wa : bool)
    (ot st : option (list string)) :
  wf σ →
  (render_image tok wn wa ot st σ).1 =
    render (table_root σ) (dataroot σ) get_colormap tok wn wa ot st.
Proof.
  intros Hwf.
  destruct (render_image_computes (version σ) (dataroot σ) tok wn wa ot st
              σ Hwf eq_refl eq_refl) as (σ' & -> & _).
  done.
Qed.

Lemma exec_cmds_app (cs1 cs2 : list draw_cmd) (im : Image) :
  exec_cmds (cs1 ++ cs2) im = exec_cmds cs1 im ≫= exec_cmds cs2.
Proof.
  revert im. induction cs1 as [|c cs1 IH]; intros im; simpl; [done|].
  destruct (exec_cmd im c); simpl; [apply IH|done].
Qed.

(** The image returned is the output of the last command. *)
Lemma exec_cmds_snoc (cs : list draw_cmd) (c : draw_cmd) (im out : Image) :
  exec_cmds (cs ++ [c]) im = Ok out ↔
  ∃ im', exec_cmds cs im = Ok im' ∧ exec_cmd im' c = Ok out.
Proof.
  rewrite exec_cmds_app. simpl. split.
  - destruct (exec_cmds cs im) as [im'|]; simpl; [|done].
    destruct (exec_cmd im' c) as [out'|] eqn:Hc; simpl; [|done].
    intros [= <-]. by exists im'.
  - intros (im' & -> & Hc). simpl. by rewrite Hc.
Qed.

(** A loop over annotations runs the commands of its plan, in order. *)
Lemma pass_plan (f : record → result (list draw_cmd)) (anns : table) :
  ∀ im out, pass f anns im = Ok out ↔
    ∃ cs, plan f anns = Ok cs ∧ exec_cmds cs im = Ok out.
Proof.
  induction anns as [|a rest IH]; intros im out; simpl.
  - split; [intros [= <-]; by exists []|]. by intros (cs & [= <-] & ?).
  - destruct (f a) as [cs1|e]; simpl.
    + destruct (exec_cmds cs1 im) as [im1|e] eqn:Hex; simpl.
      * rewrite IH. split.
        -- intros (cs & -> & Hcs). exists (cs1 ++ cs). split; [done|].
           by rewrite exec_cmds_app, Hex.
        -- intros (cs & Hplan & Hcs).
           destruct (plan f rest) as [cs'|]; simpl in Hplan; [|done].
           injection Hplan as <-. exists cs'. split; [done|].
           by rewrite exec_cmds_app, Hex in Hcs.
      * split; [done|]. intros (cs & Hplan & Hcs).
        destruct (plan f rest) as [cs'|]; simpl in Hplan; [|done].
        injection Hplan as <-. by rewrite exec_cmds_app, Hex in Hcs.
    + split; [done|]. by intros (cs & ? & _).
Qed.


(** *** Annotations without a mask *)

Lemma select_tokens_filter (tokens : option (list string)) (anns : table) :
  select_tokens tokens anns = List.filter (λ o, allowed tokens (token o)) anns.
Proof.
  destruct tokens as [l|]; simpl; [done|].
  induction anns as [|a rest IH]; simpl; [done|]. by rewrite <- IH.
Qed.

Lemma select_sample_data_subset (tbl anns : table) (tok : string) :
  select_sample_data tbl tok = Ok anns → ∀ b, b ∈ anns → b ∈ tbl.
Proof.
  revert anns. induction tbl as [|o rest IH]; intros anns; simpl.
  - unfold select_sample_data. intros [= <-] b Hb. by apply elem_of_nil in Hb.
  - unfold select_sample_data. fold select_sample_data. simpl.
    destruct (getitem o "sample_data_token") as [v|]; simpl; [|done].
    destruct (select_sample_data rest tok) as [rest'|]; simpl; [|done].
    intros [= <-] b Hb.
    destruct (eq_str v tok).
    + apply elem_of_cons in Hb as [->|Hb]; [left|right; by eapply IH].
    + right. by eapply IH.
Qed.

Lemma surface_cmds_absent (root : string) (cm : gmap string rgb)
    (a : record) (cs : list draw_cmd) :
  getitem a "mask" = Ok VNone → surface_cmds root cm a = Ok cs → cs = [].
Proof.
  intros Hm. unfold surface_cmds. simpl.
  destruct (resolve_color root cm a) as [[n c]|]; simpl; [|done].
  rewrite Hm. simpl. by intros [= <-].
Qed.

Lemma object_cmds_absent (root : string) (cm : gmap string rgb) (wa : bool)
    (a : record) (cs : list draw_cmd) :
  getitem a "mask" = Ok VNone → object_cmds root cm wa a = Ok cs → cs = [].
Proof.
  intros Hm. unfold object_cmds. simpl.
  destruct (resolve_color root cm a) as [[n c]|]; simpl; [|done].
  destruct (getitem a "bbox"); simpl; [|done].
  destruct (getitem a "attribute_tokens") as [ats|]; simpl; [|done].
  destruct (iter_value ats) as [atl|]; simpl; [|done].
  destruct (lookup_attributes root atl) as [attrs|]; simpl; [|done].
  destruct (annotation_name attrs n wa); simpl; [|done].
  rewrite Hm. simpl. by intros [= <-].
Qed.

(** Dropping an annotation that draws nothing does not change what a
    loop returns. *)
Lemma pass_exclude (f : record → result (list draw_cmd)) (a : record)
    (P P' : string → bool) (anns : table) :
  (∀ cs, f a = Ok cs → cs = []) →
  (∀ b, b ∈ anns → token b = token a → b = a) →
  P' (token a) = false →
  (∀ b, b ∈ anns → token b ≠ token a → P' (token b) = P (token b)) →
  ∀ im out,
    pass f (List.filter (λ o, P (token o)) anns) im = Ok out →
    pass f (List.filter (λ o, P' (token o)) anns) im = Ok out.
Proof.
  intros Hnil. induction anns as [|b rest IH]; intros Huniq Ha Hsame im out;
    simpl; [done|].
  assert (IH' : ∀ im out,
    pass f (List.filter (λ o, P (token o)) rest) im = Ok out →
    pass f (List.filter (λ o, P' (token o)) rest) im = Ok out).
  { apply IH; [|done|].
    - intros b' Hb'. apply Huniq. by right.
    - intros b' Hb'. apply Hsame. by right. }
  destruct (decide (token b = token a)) as [Heq|Hne].
  - assert (b = a) as -> by (apply Huniq; [left|done]).
    rewrite Ha. destruct (P (token a)); [|apply IH'].
    simpl. destruct (f a) as [cs|] eqn:Hfa; simpl; [|done].
    rewrite (Hnil cs eq_refl). simpl. apply IH'.
  - rewrite (Hsame b) by (done || left).
    destruct (P (token b)); [|apply IH'].
    simpl. destruct (f b) as [cs|]; simpl; [|done].
    destruct (exec_cmds cs im) as [im'|]; simpl; [|done]. apply IH'.
Qed.

Lemma annotations_exclude (f : record → result (list draw_cmd))
    (root t tok : string) (tbl : table) (a : record)
    (tokens tokens' : option (list string)) :
  (∀ cs, f a = Ok cs → cs = []) →
  table_on_disk root t = Ok tbl → excludes_absent_mask tbl a tokens tokens' →
  ∀ im out,
    annotations_of root t tok tokens ≫= (λ anns, pass f anns im) = Ok out →
    annotations_of root t tok tokens' ≫= (λ anns, pass f anns im) = Ok out.
Proof.
  intros Hnil Hdisk (Hin & Hmask & Huniq & Hoff & Hsame) im out.
  unfold annotations_of. rewrite Hdisk. simpl.
  destruct (select_sample_data tbl tok) as [anns|] eqn:Hsel; simpl; [|done].
  rewrite !select_tokens_filter.
  pose proof (select_sample_data_subset _ _ _ Hsel) as Hsub.
  apply (pass_exclude f a); [done| |done|].
  - intros b Hb. apply Huniq. by apply Hsub.
  - intros b Hb. apply Hsame. by apply Hsub.
Qed.

(** C3. An annotation whose mask is absent draws nothing: a render that
    returns an image returns the same image when that annotation is
    taken off the allow-list, be it a surface or an object annotation. *)
Theorem mask_gating (σ : NuImages) (tok : string) (wa : bool)
    (ot st ot' st' : option (list string)) (out : Image) :
  wf σ →
  ((∃ tbl a, table_on_disk (table_root σ) "surface_ann" = Ok tbl ∧
             excludes_absent_mask tbl a st st') ∧ ot' = ot) ∨
  ((∃ tbl a, table_on_disk (table_root σ) "object_ann" = Ok tbl ∧
             excludes_absent_mask tbl a ot ot') ∧ st' = st) →
  (render_image tok true wa ot st σ).1 = Ok out →
  (render_image tok true wa ot' st' σ).1 = Ok out.
Proof.
  intros Hwf Hex. rewrite !render_image_result by done. unfold render. simpl.
  destruct (base_image _ _ _ _ _) as [im0|]; simpl; [|done].
  destruct Hex as [[(tbl & a & Hdisk & Hexcl) ->]|[(tbl & a & Hdisk & Hexcl) ->]].
  - pose proof (annotations_exclude
      (surface_cmds (table_root σ) get_colormap) _ _ tok tbl a st st'
      (λ cs, surface_cmds_absent _ _ a cs (proj1 (proj2 Hexcl))) Hdisk Hexcl im0)
      as Hstep.
    destruct (annotations_of _ "surface_ann" _ st) as [sa|]; simpl; [|done].
    destruct (pass _ sa im0) as [im1|] eqn:Hs; simpl; [|done].
    specialize (Hstep im1 Hs).
    destruct (annotations_of _ "surface_ann" _ st') as [sa'|]; simpl in *; [|done].
    by rewrite Hstep.
  - destruct (annotations_of _ "surface_ann" _ st) as [sa|]; simpl; [|done].
    destruct (pass _ sa im0) as [im1|]; simpl; [|done].
    apply (annotations_exclude
      (object_cmds (table_root σ) get_colormap wa) _ _ tok tbl a ot ot'
      (λ cs, object_cmds_absent _ _ wa a cs (proj1 (proj2 Hexcl))) Hdisk Hexcl).
Qed.

(** *** Annotations whose category does not resolve *)

Lemma dangling_resolve (root : string) (cm : gmap string rgb) (a : record)
    (e : exn) :
  dangling root cm a e → resolve_color root cm a = Err e.
Proof.
  unfold resolve_color.
  intros [(c & cats & -> & Hcats & Hc & ->)|(ct & cat & n & -> & Hcat & Hn & Hcm & ->)];
    simpl.
  - unfold lookup_record. rewrite Hcats. simpl. unfold find_token. simpl.
    by rewrite index_of_absent.
  - rewrite Hcat. simpl. rewrite Hn. simpl. by rewrite Hcm.
Qed.

Lemma pass_app (f : record → result (list draw_cmd)) (l1 l2 : table) :
  ∀ im, pass f (l1 ++ l2) im = pass f l1 im ≫= pass f l2.
Proof.
  induction l1 as [|a l1 IH]; intros im; simpl; [done|].
  destruct (f a) as [cs|]; simpl; [|done].
  destruct (exec_cmds cs im); simpl; [apply IH|done].
Qed.

Lemma pass_raises (f : record → result (list draw_cmd)) (a : record)
    (anns : table) :
  is_Err (f a) = true → a ∈ anns → ∀ im, is_Err (pass f anns im) = true.
Proof.
  intros Ha. induction anns as [|b rest IH]; intros Hin im.
  - by apply elem_of_nil in Hin.
  - simpl. destruct (f b) as [cs|] eqn:Hfb; simpl; [|done].
    destruct (exec_cmds cs im); simpl; [|done].
    apply elem_of_cons in Hin as [->|Hin]; [by rewrite Hfb in Ha|by apply IH].
Qed.

(** C10. The category and the colour of an annotation are looked up
    before its mask is tested.  If the category token of an annotation
    without a mask is not in the category table, or its category name is
    not in the colour map, then a render whose annotations include it
    raises, although with a resolved category it would draw nothing; and
    when nothing before it fails, the exception is the [KeyError] of
    that lookup. *)
Theorem absent_mask_category_looked_up (σ : NuImages) (tok : string)
    (wa : bool) (ot st : option (list string)) (a : record) (e : exn) :
  wf σ → getitem a "mask" = Ok VNone →
  dangling (table_root σ) get_colormap a e →
  (∀ root cm wa' cs,
     surface_cmds root cm a = Ok cs ∨ object_cmds root cm wa' a = Ok cs →
     cs = []) ∧
  (∀ anns,
     annotations_of (table_root σ) "surface_ann" tok st = Ok anns ∨
     annotations_of (table_root σ) "object_ann" tok ot = Ok anns →
     a ∈ anns → is_Err (render_image tok true wa ot st σ).1 = true) ∧
  (∀ im0 pre post im1,
     base_image (table_root σ) (dataroot σ) tok true wa = Ok im0 →
     annotations_of (table_root σ) "surface_ann" tok st = Ok (pre ++ a :: post) →
     pass (surface_cmds (table_root σ) get_colormap) pre im0 = Ok im1 →
     (render_image tok true wa ot st σ).1 = Err e) ∧
  (∀ im0 anns im1 pre post im2,
     base_image (table_root σ) (dataroot σ) tok true wa = Ok im0 →
     annotations_of (table_root σ) "surface_ann" tok st = Ok anns →
     pass (surface_cmds (table_root σ) get_colormap) anns im0 = Ok im1 →
     annotations_of (table_root σ) "object_ann" tok ot = Ok (pre ++ a :: post) →
     pass (object_cmds (table_root σ) get_colormap wa) pre im1 = Ok im2 →
     (render_image tok true wa ot st σ).1 = Err e).
Proof.
  intros Hwf Hmask Hd. apply dangling_resolve in Hd.
  assert (Hs : surface_cmds (table_root σ) get_colormap a = Err e)
    by (unfold surface_cmds; by rewrite Hd).
  assert (Ho : object_cmds (table_root σ) get_colormap wa a = Err e)
    by (unfold object_cmds; by rewrite Hd).
  rewrite render_image_result by done. unfold render. simpl.
  split_and!.
  - intros root cm wa' cs [Hcs|Hcs].
    + by eapply surface_cmds_absent.
    + by eapply object_cmds_absent.
  - intros anns Hanns Hin.
    destruct (base_image _ _ _ _ _) as [im0|]; simpl; [|done].
    destruct Hanns as [->| ->]; simpl.
    + pose proof (pass_raises _ a anns ltac:(by rewrite Hs) Hin im0) as Hp.
      by destruct (pass _ anns im0).
    + destruct (annotations_of _ "surface_ann" _ _) as [sa|]; simpl; [|done].
      destruct (pass _ sa im0) as [im1|]; simpl; [|done].
      apply pass_raises with (a := a); [by rewrite Ho|done].
  - intros im0 pre post im1 -> -> Hpre. simpl.
    rewrite pass_app, Hpre. simpl. by rewrite Hs.
  - intros im0 anns im1 pre post im2 -> -> Hsurf Hobj Hpre. simpl.
    rewrite Hsurf. simpl. rewrite Hobj. simpl.
    rewrite pass_app, Hpre. simpl. by rewrite Ho.
Qed.

End RenderClaims.

(** * The properties on the small dataset *)

Lemma store_wf (files : list (string * table)) (l : bool) :
  (@NuImages_new (Mini.env files) "v1.0-mini" Mini.root l false).1 = Ok tt →
  @wf (Mini.env files) (Mini.store files l).
Proof.
  intros Hok.
  apply (@init_wf (Mini.env files) "v1.0-mini" Mini.root l false).
  unfold Mini.store.
  by destruct (@NuImages_new (Mini.env files) "v1.0-mini" Mini.root l false)
    as [[[]|] σ].
Qed.

(** Membership in a list that is written out. *)
Ltac in_list := apply (bool_decide_unpack _); vm_compute; exact I.

(** Membership of a record in a table that is written out. *)
Ltac in_table :=
  first [ apply list_elem_of_here
        | apply list_elem_of_further; in_table ].

(** A property of every element of a list that is written out. *)
Ltac each_of tac :=
  refine (proj1 (Forall_forall _ _) _);
  repeat (apply Forall_cons_2; [tac|]); apply Forall_nil_2.

Section Full.
#[local] Existing Instance Mini.full.

(** The camera query on the small dataset: the loop stops at the first
    camera key frame. *)
Example sample_to_key_frame_camera_KeyError :
  (sample_to_key_frame "s1" "camera" (Mini.store Mini.files true)).1 =
    Err (KeyError (VStr "camera")).
Proof. by vm_compute. Qed.

(** The same loop serves the lidar query, which is lost with it. *)
Example sample_to_key_frame_lidar_KeyError :
  (sample_to_key_frame "s1" "lidar" (Mini.store Mini.files true)).1 =
    Err (KeyError (VStr "camera")).
Proof. by vm_compute. Qed.

Lemma sample_to_key_frame_camera_raises_witness :
  is_Err (sample_to_key_frame "s1" "camera" (Mini.store Mini.files true)).1 = true.
Proof.
  apply sample_to_key_frame_camera_raises.
  apply store_wf. vm_compute. reflexivity.
Defined.

Lemma get_index_correct_witness :
  (get "category" (VStr "c_adult") (Mini.store Mini.files true)).1 =
    Ok (Mini.rec_ "c_adult" [("name", VStr "human.pedestrian.adult")]) ∧
  (get "category" (VStr "c_tram") (Mini.store Mini.files true)).1 =
    Err (KeyError (VStr "c_tram")) ∧
  get "categories" (VStr "c_adult") (Mini.store Mini.files true) =
    (Err (AssertionError "Table categories not found"), Mini.store Mini.files true).
Proof.
  destruct (get_index_correct (Mini.store Mini.files true) "category"
              Mini.categories) as (Hin & Hout & Hname).
  - apply store_wf. vm_compute. reflexivity.
  - in_list.
  - vm_compute. reflexivity.
  - in_list.
  - split_and!.
    + apply (Hin (Mini.rec_ "c_adult" [("name", VStr "human.pedestrian.adult")])).
      in_table.
    + apply Hout. in_list.
    + apply Hname. in_list.
Defined.

Lemma render_image_preconditions_witness :
  (render_image "sd_lidar" true false None None (Mini.store Mini.files true)).1 =
    Err (AssertionError "Error: Cannot use render_image() on lidar pointclouds!") ∧
  (render_image "sd_sweep" true false None None (Mini.store Mini.files true)).1 =
    Err (AssertionError "Error: Cannot render annotations for non keyframes!").
Proof.
  split.
  - destruct (render_image_preconditions (Mini.store Mini.files true)
      (get "sample_data" (VStr "sd_lidar") (Mini.store Mini.files true)).2
      "sd_lidar" false None None
      (Mini.rec_ "sd_lidar" [("sample_token", VStr "s1"); ("fileformat", VStr "bin");
                             ("is_key_frame", VBool true);
                             ("filename", VStr "samples/lidar.bin")]))
      as [Hbin _].
    + vm_compute. reflexivity.
    + rewrite Hbin; reflexivity.
  - destruct (render_image_preconditions (Mini.store Mini.files true)
      (get "sample_data" (VStr "sd_sweep") (Mini.store Mini.files true)).2
      "sd_sweep" false None None
      (Mini.rec_ "sd_sweep" [("sample_token", VStr "s1"); ("fileformat", VStr "jpg");
                             ("is_key_frame", VBool false);
                             ("filename", VStr "samples/cam.jpg")]))
      as [_ Hkf].
    + vm_compute. reflexivity.
    + rewrite (Hkf eq_refl (VBool false)); reflexivity.
Defined.

Lemma render_image_attributes_need_key_frame_witness :
  (render_image "sd_sweep" false true None None (Mini.store Mini.files true)).1 =
    Err (AssertionError "Error: Cannot render attributes for non keyframes!").
Proof.
  rewrite (render_image_attributes_need_key_frame (Mini.store Mini.files true)
    (get "sample_data" (VStr "sd_sweep") (Mini.store Mini.files true)).2
    "sd_sweep" None None
    (Mini.rec_ "sd_sweep" [("sample_token", VStr "s1"); ("fileformat", VStr "jpg");
                           ("is_key_frame", VBool false);
                           ("filename", VStr "samples/cam.jpg")])
    (VBool false)).
  - reflexivity.
  - vm_compute. reflexivity.
  - reflexivity.
  - reflexivity.
  - reflexivity.
Defined.


Lemma mask_gating_witness :
  (render_image "sd_cam" true false None (Some ["su_road"])
     (Mini.store Mini.files true)).1 = Ok Mini.rendered ∧
  (render_image "sd_cam" true false (Some ["ob_adult"]) None
     (Mini.store Mini.files true)).1 = Ok Mini.rendered.
Proof.
  split.
  - apply (mask_gating (Mini.store Mini.files true) "sd_cam" false
             None None None (Some ["su_road"])).
    + apply store_wf. vm_compute. reflexivity.
    + left. split; [|reflexivity].
      exists Mini.surface_anns,
        (Mini.rec_ "su_nomask" [("sample_data_token", VStr "sd_cam");
                                ("category_token", VStr "c_road");
                                ("mask", VNone)]).
      split; [vm_compute; reflexivity|].
      split_and!.
      * in_table.
      * vm_compute. reflexivity.
      * each_of ltac:(first [reflexivity | intros Heq; vm_compute in Heq; discriminate]).
      * reflexivity.
      * each_of ltac:(first [intros _; reflexivity | intros Hne; exfalso; apply Hne; reflexivity]).
    + vm_compute. reflexivity.
  - apply (mask_gating (Mini.store Mini.files true) "sd_cam" false
             None None (Some ["ob_adult"]) None).
    + apply store_wf. vm_compute. reflexivity.
    + right. split; [|reflexivity].
      exists Mini.object_anns,
        (Mini.rec_ "ob_nomask" [("sample_data_token", VStr "sd_cam");
                                ("category_token", VStr "c_adult");
                                ("bbox", VList [VNum 0; VNum 0; VNum 1; VNum 1]);
                                ("attribute_tokens", VList []);
                                ("mask", VNone)]).
      split; [vm_compute; reflexivity|].
      split_and!.
      * in_table.
      * vm_compute. reflexivity.
      * each_of ltac:(first [reflexivity | intros Heq; vm_compute in Heq; discriminate]).
      * reflexivity.
      * each_of ltac:(first [intros _; reflexivity | intros Hne; exfalso; apply Hne; reflexivity]).
    + vm_compute. reflexivity.
Defined.

Lemma load_table_idempotent_witness :
  (load_table "category";; load_table "category") (Mini.store Mini.files true) =
    load_table "category" (Mini.store Mini.files true) ∧
  NoDup (reads (after_calls (Mini.store Mini.files true)
    [Call_load_table "category";
     Call_get "category" (VStr "c_road");
     Call_render_image "sd_cam" true false None None;
     Call_load_table "category";
     Call_sample_to_key_frame "s1" "lidar";
     Call_getind "surface_ann" (VStr "su_road")])).
Proof.
  destruct load_table_idempotent as (_ & Htwice & Hreads).
  split.
  - apply Htwice.
  - apply (Hreads "v1.0-mini" Mini.root true false).
    vm_compute. reflexivity.
Defined.

Lemma construction_witness :
  (NuImages_new "v9.9-none" Mini.root true false).1 =
    Err (AssertionError "Database version not found: /data/sets/nuimages/v9.9-none") ∧
  (∃ σ, NuImages_new "v1.0-mini" Mini.root true false = (Ok tt, σ) ∧
        tables σ = ∅ ∧ reads σ = []) ∧
  (∃ σ, NuImages_new "v1.0-mini" Mini.root false false = (Ok tt, σ) ∧
        reads σ = table_names ∧
        ∀ t, t ∈ table_names →
          tables σ !! t =
            Some (json_load (osp_join (osp_join Mini.root "v1.0-mini") (t +:+ ".json")))) ∧
  (∃ σ, @NuImages_new Mini.no_sensor "v1.0-mini" Mini.root false false =
          (Err (AssertionError "Error: Table sensor does not exist!"), σ) ∧
        reads σ = ["attribute"; "calibrated_sensor"; "category"; "ego_pose";
                   "log"; "object_ann"; "sample"; "sample_data"]).
Proof.
  split_and!.
  - apply (proj1 (construction "v9.9-none" Mini.root true false)).
    vm_compute. reflexivity.
  - apply (proj2 (construction "v1.0-mini" Mini.root true false));
      [vm_compute|]; reflexivity.
  - apply (proj2 (construction "v1.0-mini" Mini.root false false));
      [vm_compute; reflexivity|reflexivity|].
    each_of ltac:(vm_compute; reflexivity).
  - destruct (@construction Mini.no_sensor "v1.0-mini" Mini.root false false)
      as [_ Hex].
    destruct Hex as (_ & _ & Hmiss); [vm_compute; reflexivity|].
    apply (Hmiss eq_refl
             ["attribute"; "calibrated_sensor"; "category"; "ego_pose";
              "log"; "object_ann"; "sample"; "sample_data"]
             "sensor" ["surface_ann"]).
    + reflexivity.
    + each_of ltac:(vm_compute; reflexivity).
    + vm_compute. reflexivity.
Defined.

End Full.

Section Duplicates.
#[local] Existing Instance Mini.duplicates.

Lemma duplicate_token_last_wins_witness :
  ∃ σ', get "category" (VStr "c") (Mini.store Mini.files_dup true) =
          (Ok (Mini.rec_ "c" [("name", VStr "second")]), σ') ∧
        (getind "category" (VStr "c") σ').1 = Ok 2%nat ∧
        tables σ' !! "category" =
          Some [Mini.rec_ "c" [("name", VStr "first")];
                Mini.rec_ "d" [("name", VStr "other")];
                Mini.rec_ "c" [("name", VStr "second")]].
Proof.
  apply (duplicate_token_last_wins (Mini.store Mini.files_dup true) "category"
           [] [Mini.rec_ "d" [("name", VStr "other")]] []
           (Mini.rec_ "c" [("name", VStr "first")])
           (Mini.rec_ "c" [("name", VStr "second")])).
  - apply store_wf. vm_compute. reflexivity.
  - in_list.
  - vm_compute. reflexivity.
  - reflexivity.
  - intros r Hr. by apply elem_of_nil in Hr.
Defined.

End Duplicates.

Section Dangling.
#[local] Existing Instance Mini.dangling_refs.

Lemma absent_mask_category_looked_up_witness :
  (render_image "sd_cam" true false None None
     (Mini.store Mini.files_dangling true)).1 = Err (KeyError (VStr "c_gone")) ∧
  (render_image "sd_cam" true false None (Some [])
     (Mini.store Mini.files_dangling true)).1 = Err (KeyError (VStr "vehicle.new")).
Proof.
  split.
  - destruct (absent_mask_category_looked_up
      (Mini.store Mini.files_dangling true) "sd_cam" false None None
      (Mini.rec_ "su_dangling" [("sample_data_token", VStr "sd_cam");
                                ("category_token", VStr "c_gone");
                                ("mask", VNone)])
      (KeyError (VStr "c_gone"))) as (_ & _ & Hsurface & _).
    + apply store_wf. vm_compute. reflexivity.
    + vm_compute. reflexivity.
    + left. exists "c_gone",
        (Mini.categories ++ [Mini.rec_ "c_new" [("name", VStr "vehicle.new")]]).
      split_and!; [vm_compute; reflexivity|vm_compute; reflexivity|in_list|reflexivity].
    + apply (Hsurface Mini.opened
               [] [] Mini.opened);
        vm_compute; reflexivity.
  - destruct (absent_mask_category_looked_up
      (Mini.store Mini.files_dangling true) "sd_cam" false None (Some [])
      (Mini.rec_ "ob_dangling" [("sample_data_token", VStr "sd_cam");
                                ("category_token", VStr "c_new");
                                ("bbox", VList [VNum 0; VNum 0; VNum 1; VNum 1]);
                                ("attribute_tokens", VList []);
                                ("mask", VNone)])
      (KeyError (VStr "vehicle.new"))) as (_ & _ & _ & Hobject).
    + apply store_wf. vm_compute. reflexivity.
    + vm_compute. reflexivity.
    + right. exists (VStr "c_new"),
        (Mini.rec_ "c_new" [("name", VStr "vehicle.new")]), "vehicle.new".
      split_and!; vm_compute; reflexivity.
    + apply (Hobject Mini.opened
               [] Mini.opened
               [] [] Mini.opened);
        vm_compute; reflexivity.
Defined.

End Dangling.

(** * Further properties *)

(** ** Resident tables stay *)

Lemma grows_refl (σ : NuImages) : grows σ σ.
Proof. by split_and!. Qed.

Lemma grows_trans (σ1 σ2 σ3 : NuImages) :
  grows σ1 σ2 → grows σ2 σ3 → grows σ1 σ3.
Proof.
  intros (Hv & Hd & Hl & Hc & Ht & Hr) (Hv' & Hd' & Hl' & Hc' & Ht' & Hr').
  split_and!; try congruence; by etrans.
Qed.

Lemma keeps_ret {A} (a : A) : keeps (mret a).
Proof. intros σ. apply grows_refl. Qed.

Lemma keeps_lift {A} (r : result A) : keeps (lift r).
Proof. intros σ. apply grows_refl. Qed.

Lemma keeps_gets {A} (f : NuImages → A) : keeps (gets f).
Proof. intros σ. apply grows_refl. Qed.

Lemma keeps_raise {A} (e : exn) : keeps (@raise A e).
Proof. intros σ. apply grows_refl. Qed.

Lemma keeps_bind {A B} (m : M A) (f : A → M B) :
  keeps m → (∀ a, keeps (f a)) → keeps (m ≫= f).
Proof.
  intros Hm Hf σ. unfold mbind, M_bind. specialize (Hm σ).
  destruct (m σ) as [[a|e] σ1]; simpl in *; [|done].
  eapply grows_trans; [done|apply Hf].
Qed.

Lemma keeps_set_token2ind f : keeps (modify (set_token2ind f)).
Proof. intros σ. by split_and!. Qed.

Lemma keeps_set_key_frames m : keeps (modify (set_sample_to_key_frame_map m)).
Proof. intros σ. by split_and!. Qed.

(** Structural steps of a proof that a method keeps what is there. *)
Ltac keeps_step :=
  lazymatch goal with
  | |- keeps (mret _) => apply keeps_ret
  | |- keeps (lift _) => apply keeps_lift
  | |- keeps (gets _) => apply keeps_gets
  | |- keeps (raise _) => apply keeps_raise
  | |- keeps (modify (set_token2ind _)) => apply keeps_set_token2ind
  | |- keeps (modify (set_sample_to_key_frame_map _)) =>
      apply keeps_set_key_frames
  | |- keeps (mbind _ _) => apply keeps_bind; [|intros ?]
  | |- keeps (match ?x with _ => _ end) => destruct x
  end.

Section Keeps.
Context `{Environment}.

Lemma keeps_load_table (t : string) : keeps (load_table t).
Proof.
  intros σ. rewrite load_table_run.
  destruct (in_dict σ t) eqn:Hin; [apply grows_refl|].
  destruct (osp_exists _); [|apply grows_refl].
  split_and!; try done; simpl.
  - apply insert_subseteq.
    unfold in_dict in Hin. apply orb_false_iff in Hin as [_ Hin].
    apply bool_decide_eq_false in Hin.
    destruct (tables σ !! t); [|done]. by destruct Hin.
  - by apply prefix_app_r.
Qed.

Lemma keeps_getattr (t : string) : keeps (getattr_ t).
Proof.
  unfold getattr_. repeat keeps_step. apply keeps_load_table.
Qed.

Lemma keeps_index_loop (t : string) (members : table) :
  ∀ ind, keeps (index_loop t ind members).
Proof.
  induction members as [|m rest IH]; intros ind; simpl; repeat keeps_step.
  - unfold token2ind_setitem. apply keeps_set_token2ind.
  - apply IH.
Qed.

Lemma keeps_getind (t : string) (k : value) : keeps (getind t k).
Proof.
  unfold getind. repeat keeps_step.
  - apply keeps_getattr.
  - apply keeps_index_loop.
Qed.

Lemma keeps_get (t : string) (k : value) : keeps (get t k).
Proof.
  unfold get. repeat keeps_step.
  - apply keeps_getattr.
  - apply keeps_getind.
Qed.

Lemma keeps_category_color (ann : record) : keeps (category_color ann).
Proof. unfold category_color. repeat keeps_step. apply keeps_get. Qed.

Lemma keeps_get_attributes (l : list value) : keeps (get_attributes l).
Proof.
  induction l as [|a rest IH]; simpl; repeat keeps_step;
    [apply keeps_get|apply IH].
Qed.

Lemma keeps_draw_surface_anns (anns : table) :
  ∀ im, keeps (draw_surface_anns anns im).
Proof.
  induction anns as [|a rest IH]; intros im; simpl; repeat keeps_step;
    try apply IH.
  apply keeps_category_color.
Qed.

Lemma keeps_draw_object_anns (wa : bool) (anns : table) :
  ∀ im, keeps (draw_object_anns wa anns im).
Proof.
  induction anns as [|a rest IH]; intros im; simpl; repeat keeps_step;
    try apply IH.
  - apply keeps_category_color.
  - apply keeps_get_attributes.
Qed.

Lemma keeps_render_image (tok : string) (wn wa : bool)
    (ot st : option (list string)) : keeps (render_image tok wn wa ot st).
Proof.
  unfold render_image. repeat keeps_step;
    first [ apply keeps_get | apply keeps_getattr
          | apply keeps_draw_surface_anns | apply keeps_draw_object_anns ].
Qed.

Lemma keeps_sample_to_key_frame (s m : string) :
  keeps (sample_to_key_frame s m).
Proof.
  unfold sample_to_key_frame. repeat keeps_step. apply keeps_getattr.
Qed.

(** X1. No sequence of method calls removes or replaces a resident
    table, changes the version or the data root, or forgets a file that
    was read: the state after the calls has grown from the state before,
    whether the calls return or raise. *)
Theorem after_calls_grows (calls : list call) (σ : NuImages) :
  grows σ (after_calls σ calls).
Proof.
  revert σ. induction calls as [|c rest IH]; intros σ; [apply grows_refl|].
  apply grows_trans with (after_call σ c); [|apply IH].
  destruct c; simpl.
  - apply keeps_load_table.
  - apply keeps_get.
  - apply keeps_getind.
  - apply keeps_sample_to_key_frame.
  - apply keeps_render_image.
Qed.

End Keeps.

(** ** Lookups without the uniqueness of tokens *)

Lemma index_from_inv (s : string) (members : table) :
  ∀ ind ix i, index_from ind members ix !! s = Some i →
    (ix !! s = Some i ∧ ∀ m, m ∈ members → token m ≠ s) ∨
    (∃ j r, members !! j = Some r ∧ token r = s ∧ i = (ind + j)%nat).
Proof.
  induction members as [|m rest IH]; intros ind ix i; simpl.
  - intros Hi. left. split; [done|]. by intros m ?%elem_of_nil.
  - intros [[Hi Hrest]|(j & r & Hj & Hr & ->)]%IH.
    + destruct (decide (token m = s)) as [Heq|Hne].
      * rewrite Heq, lookup_insert_eq in Hi. injection Hi as <-.
        right. exists 0%nat, m. split_and!; [done|done|lia].
      * rewrite lookup_insert_ne in Hi by done. left. split; [done|].
        intros m' [->|Hm']%elem_of_cons; [done|by apply Hrest].
    + right. exists (S j), r. split_and!; [done|done|lia].
Qed.

(** An indexed position holds a record with the token. *)
Lemma index_of_sound (tbl : table) (s : string) (i : nat) :
  index_of tbl !! s = Some i → ∃ r, tbl !! i = Some r ∧ token r = s.
Proof.
  unfold index_of. intros [[Hi _]|(j & r & Hj & Hr & ->)]%index_from_inv.
  - by rewrite lookup_empty in Hi.
  - by exists r.
Qed.

(** A token that occurs has a last occurrence. *)
Lemma last_occurrence (tbl : table) (s : string) :
  s ∈ token <$> tbl →
  ∃ l1 r l2, tbl = l1 ++ r :: l2 ∧ token r = s ∧ ∀ m, m ∈ l2 → token m ≠ s.
Proof.
  induction tbl as [|m rest IH]; simpl.
  - by intros ?%elem_of_nil.
  - intros Hin. destruct (decide (s ∈ token <$> rest)) as [Hrest|Hrest].
    + destruct (IH Hrest) as (l1 & r & l2 & -> & Hr & Hl2).
      by exists (m :: l1), r, l2.
    + apply elem_of_cons in Hin as [->|Hin]; [|done].
      exists [], m, rest. split_and!; [done|done|].
      intros m' Hm' Heq. apply Hrest. rewrite <- Heq.
      by apply list_elem_of_fmap_2.
Qed.

Section Lookups.
Context `{Environment}.

Lemma table_on_disk_inv (σ : NuImages) (t : string) (tbl : table) :
  table_on_disk (table_root σ) t = Ok tbl →
  osp_exists (table_path σ t) = true ∧ tbl = json_load (table_path σ t).
Proof.
  unfold table_on_disk. fold (table_path σ t).
  destruct (osp_exists _); simpl; [|done]. by intros [= <-].
Qed.

(** [getind] on a table whose file exists. *)
Lemma getind_on_disk (t : string) (k : value) (tbl : table) (σ : NuImages) :
  wf σ → t ∈ table_names → table_on_disk (table_root σ) t = Ok tbl →
  ∃ σ', getind t k σ = (dict_getitem (index_of tbl) k, σ') ∧ wf σ' ∧
        tables σ' !! t = Some tbl ∧
        _token2ind σ' !! t = Some (Some (index_of tbl)).
Proof.
  intros Hwf Ht [Hex ->]%table_on_disk_inv.
  pose proof (getind_wf t k σ Hwf) as Hwf'.
  rewrite getind_run in * by done.
  destruct (_token2ind σ !! t) as [[ix|]|] eqn:Hix.
  - pose proof (wf_index _ Hwf _ _ Hix) as Hi.
    destruct (tables σ !! t) as [tbl|] eqn:Htbl.
    + destruct (wf_tables _ Hwf _ _ Htbl) as [_ ->]. subst ix.
      by exists σ.
    + destruct Hi as [_ Hi]. congruence.
  - rewrite getattr_run in * by done.
    change (tables (with_index t ∅ σ)) with (tables σ) in *.
    change (table_path (with_index t ∅ σ) t) with (table_path σ t) in *.
    destruct (tables σ !! t) as [tbl|] eqn:Htbl.
    + destruct (wf_tables _ Hwf _ _ Htbl) as [_ ->].
      eexists. split; [done|]. split_and!; [done|done|].
      simpl. apply lookup_insert_eq.
    + rewrite Hex in *. eexists. split; [done|]. split_and!; [done|..];
        simpl; apply lookup_insert_eq.
  - exfalso. assert (Hs : is_Some (_token2ind σ !! t))
      by by apply (wf_index_dom _ Hwf).
    rewrite Hix in Hs. by destruct Hs.
Qed.

Lemma dict_getitem_inv {V} (d : gmap string V) (k : value) (v : V) :
  dict_getitem d k = Ok v → ∃ s, k = VStr s ∧ d !! s = Some v.
Proof.
  destruct k as [| | |s| |]; simpl; try done.
  destruct (d !! s) as [v'|] eqn:Hs; [|done]. intros [= <-]. by exists s.
Qed.


(** X3. Whatever the tokens of a table are, [get] finds every token
    that occurs in it and raises [KeyError] for every string that does
    not: which of the two happens depends on the table only, never on
    what has been loaded or indexed before. *)
Theorem lookup_complete (σ : NuImages) (t : string) (tbl : table) (s : string) :
  wf σ → t ∈ table_names → table_on_disk (table_root σ) t = Ok tbl →
  (s ∈ token <$> tbl →
   ∃ r, (get t (VStr s) σ).1 = Ok r ∧ r ∈ tbl ∧ token r = s) ∧
  (s ∉ token <$> tbl → (get t (VStr s) σ).1 = Err (KeyError (VStr s))).
Proof.
  intros Hwf Ht Hdisk.
  destruct (get_on_disk t (VStr s) tbl σ Hwf Ht Hdisk) as (σ' & -> & _).
  simpl. split.
  - intros (l1 & r & l2 & -> & <- & Hl2)%last_occurrence.
    exists r. rewrite find_token_last by done.
    split_and!; [done| |done].
    apply elem_of_app. right. left.
  - intros Hs. unfold find_token. simpl. by rewrite index_of_absent.
Qed.

(** X4. Once a table has been looked into, it is resident and indexed,
    and from then on neither [get] nor [getind] changes the object: the
    file is not read again and the index is not rebuilt. *)
Theorem lookup_builds_once (σ : NuImages) (t : string) (k : value) :
  wf σ → t ∈ table_names → osp_exists (table_path σ t) = true →
  warm t (get t k σ).2 ∧ warm t (getind t k σ).2 ∧
  ∀ σ', warm t σ' → ∀ k', (get t k' σ').2 = σ' ∧ (getind t k' σ').2 = σ'.
Proof.
  intros Hwf Ht Hex.
  assert (Hdisk : table_on_disk (table_root σ) t = Ok (json_load (table_path σ t))).
  { unfold table_on_disk. fold (table_path σ t). by rewrite Hex. }
  split_and!.
  - destruct (get_on_disk t k _ σ Hwf Ht Hdisk) as (σ' & Hget & Hwf' & _ & _ & Htbl).
    rewrite Hget. simpl. split; [by rewrite Htbl|].
    destruct (_token2ind σ' !! t) as [[ix|]|] eqn:Hix; [by eauto|..].
    + exfalso. revert Hget. unfold get.
      rewrite bool_decide_eq_true_2 by done. munfold.
      destruct (getattr_spec t σ Hwf Ht) as (σ1 & -> & Hwf1 & _ & _ & _ & _ & Hl).
      rewrite Hdisk.
      destruct (getind_on_disk t k (json_load (table_path σ t)) σ1 Hwf1 Ht)
        as (σ2 & -> & _ & _ & Hix2).
      { destruct (getattr_spec t σ Hwf Ht) as (? & ? & _ & Hv & Hd & _).
        unfold table_root in *.
        assert (Hσ1 : tables σ1 !! t = Some (json_load (table_path σ t)))
          by by apply Hl.
        destruct (wf_tables _ Hwf1 _ _ Hσ1) as [Hex1 Heq1].
        unfold table_on_disk. fold (table_root σ1). fold (table_path σ1 t).
        rewrite Hex1. simpl. by rewrite <- Heq1. }
      destruct (dict_getitem _ k); simpl;
        [destruct (list_getitem _ _)|]; intros [= _ <-]; congruence.
    + exfalso. assert (Hs : is_Some (_token2ind σ' !! t))
        by by apply (wf_index_dom _ Hwf').
      rewrite Hix in Hs. by destruct Hs.
  - destruct (getind_on_disk t k _ σ Hwf Ht Hdisk) as (σ' & -> & _ & Htbl & Hix).
    simpl. split; [by rewrite Htbl|by eauto].
  - intros σ' [[tbl Htbl] [ix Hix]] k'.
    assert (Hgi : getind t k' σ' = (dict_getitem ix k', σ'))
      by (rewrite getind_run by done; by rewrite Hix).
    split; [|by rewrite Hgi].
    unfold get. rewrite bool_decide_eq_true_2 by done. munfold.
    rewrite getattr_run, Htbl, Hgi by done.
    by destruct (dict_getitem ix k'); simpl.
Qed.

(** X5. [getind] assigns the empty index before it loads the table.
    When the file of a table is missing, the first [getind] therefore
    raises the [AssertionError] of the load and leaves the empty index
    behind, and every later [getind] on that table raises [KeyError] for
    the token instead; [get], which loads the table first, keeps raising
    the [AssertionError]. *)
Theorem getind_missing_file (σ : NuImages) (t : string) (k : value) :
  wf σ → t ∈ table_names → osp_exists (table_path σ t) = false →
  _token2ind σ !! t = Some None →
  getind t k σ =
    (Err (AssertionError ("Error: Table " +:+ t +:+ " does not exist!")),
     with_index t ∅ σ) ∧
  (∀ s, getind t (VStr s) (with_index t ∅ σ) =
          (Err (KeyError (VStr s)), with_index t ∅ σ)) ∧
  (∀ k', get t k' (with_index t ∅ σ) =
           (Err (AssertionError ("Error: Table " +:+ t +:+ " does not exist!")),
            with_index t ∅ σ)).
Proof.
  intros Hwf Ht Hex Hix.
  assert (Hnone : tables σ !! t = None).
  { destruct (tables σ !! t) as [tbl|] eqn:Htbl; [|done].
    destruct (wf_tables _ Hwf _ _ Htbl). congruence. }
  split_and!.
  - rewrite getind_run, Hix, getattr_run by done.
    change (tables (with_index t ∅ σ)) with (tables σ).
    change (table_path (with_index t ∅ σ) t) with (table_path σ t).
    by rewrite Hnone, Hex.
  - intros s. rewrite getind_run by done. simpl.
    rewrite lookup_insert_eq. simpl. by rewrite lookup_empty.
  - intros k'. unfold get. rewrite bool_decide_eq_true_2 by done. munfold.
    rewrite getattr_run by done.
    change (tables (with_index t ∅ σ)) with (tables σ).
    change (table_path (with_index t ∅ σ) t) with (table_path σ t).
    by rewrite Hnone, Hex.
Qed.

End Lookups.

(** ** The key-frame index *)

Section KeyFrameIndex.
Context `{Environment}.

#[local] Arguments getitem : simpl never.
#[local] Arguments truthy : simpl never.
#[local] Arguments eq_str : simpl never.

Lemma key_frame_step_lidar (mapping : gmap string (gmap pykey value))
    (inner : gmap pykey value) (sd : record) :
  lidar_ready sd → mapping !! "lidar" = Some inner →
  ∃ inner', key_frame_step mapping sd = Ok (<["lidar" := inner']> mapping) ∧
    ∀ k, (key_frame_of k sd → inner' !! k = Some (VStr (token sd))) ∧
         (¬ key_frame_of k sd → inner' !! k = inner !! k).
Proof.
  intros (kf & Hkf & Hready) Hlidar. unfold key_frame_step.
  rewrite Hkf. simpl. destruct (truthy kf) eqn:Ht.
  - destruct (Hready eq_refl) as (ff & st & k0 & Hff & Hjpg & Hst & Hk0).
    rewrite Hff. simpl. rewrite Hjpg, Hst. simpl.
    rewrite Hlidar. simpl. rewrite Hk0.
    exists (<[k0 := VStr (token sd)]> inner). split; [done|].
    intros k. split.
    + intros (kf' & st' & Hkf' & _ & Hst' & Hk).
      assert (k = k0) as -> by congruence. apply lookup_insert_eq.
    + intros Hno. apply lookup_insert_ne. intros <-. apply Hno.
      by exists kf, st.
  - exists inner. split; [by rewrite insert_id|].
    intros k. split; [|done].
    intros (kf' & st' & Hkf' & Ht' & _). congruence.
Qed.

(** On a table without camera key frames the loop ends, and under each
    sample token it leaves the token of the last key frame of it. *)
Lemma key_frame_loop_lidar (tbl : table) :
  ∀ mapping inner, Forall lidar_ready tbl → mapping !! "lidar" = Some inner →
  ∃ inner', key_frame_loop mapping tbl = Ok (<["lidar" := inner']> mapping) ∧
    ∀ k,
      (∀ l1 r l2, tbl = l1 ++ r :: l2 → key_frame_of k r →
         (∀ m, m ∈ l2 → ¬ key_frame_of k m) →
         inner' !! k = Some (VStr (token r))) ∧
      ((∀ m, m ∈ tbl → ¬ key_frame_of k m) → inner' !! k = inner !! k).
Proof.
  induction tbl as [|sd rest IH]; intros mapping inner Hall Hlidar.
  - exists inner. split; [simpl; by rewrite insert_id|].
    intros k. split; [|done]. intros [|??] ?? Heq; discriminate Heq.
  - apply Forall_cons in Hall as [Hsd Hrest].
    destruct (key_frame_step_lidar mapping inner sd Hsd Hlidar)
      as (inner1 & Hstep & Hinner1).
    destruct (IH (<["lidar" := inner1]> mapping) inner1 Hrest
                (lookup_insert_eq _ _ _)) as (inner' & Hloop & Hinner').
    exists inner'. split.
    { simpl. rewrite Hstep. simpl. rewrite Hloop. by rewrite insert_insert_eq. }
    intros k. destruct (Hinner' k) as [Hlast Hnone].
    destruct (Hinner1 k) as [Hhere Hnot]. split.
    + intros [|m l1] r l2 Heq Hr Hl2; simplify_eq/=.
      * rewrite Hnone by done. by apply Hhere.
      * by eapply Hlast.
    + intros Hno. rewrite Hnone.
      * apply Hnot, Hno. left.
      * intros m Hm. apply Hno. by right.
Qed.

(** What [sample_to_key_frame] returns once the loop has ended. *)
Lemma sample_to_key_frame_result (σ : NuImages) (s modality : string)
    (tbl : table) (m : gmap string (gmap pykey value)) :
  wf σ → table_on_disk (table_root σ) "sample_data" = Ok tbl →
  key_frame_loop key_frame_init tbl = Ok m →
  ∃ σ', sample_to_key_frame s modality σ =
          (dict_getitem m (VStr modality) ≫= λ inner,
             pydict_getitem inner (VStr s), σ') ∧
        sample_to_key_frame_map σ' = Some m.
Proof.
  intros Hwf Hdisk Hloop. unfold sample_to_key_frame. mstep.
  pose proof (table_on_disk_inv _ _ _ Hdisk) as [Hex ->].
  destruct (sample_to_key_frame_map σ) as [m'|] eqn:Hmap; mstep.
  - rewrite Hmap. mstep.
    pose proof (wf_key_frames _ Hwf _ Hmap) as Hm'.
    assert (m' = m) as -> by congruence. by exists σ.
  - destruct (getattr_spec "sample_data" σ Hwf ltac:(set_solver))
      as (σ1 & -> & _). rewrite Hdisk. mstep. rewrite Hloop. mstep.
    by eexists.
Qed.

(** X6. On a sample_data table without camera key frames (every record
    has the key [is_key_frame], and every key frame has a file format
    other than ['jpg'] and a hashable sample token),
    [sample_to_key_frame(sample_token, 'lidar')] returns the token of the
    last key frame of that sample, and raises [KeyError] when the sample
    has no key frame. *)
Theorem sample_to_key_frame_lidar (σ : NuImages) (s : string) (tbl : table) :
  wf σ → table_on_disk (table_root σ) "sample_data" = Ok tbl →
  Forall lidar_ready tbl →
  (∀ l1 r l2, tbl = l1 ++ r :: l2 → key_frame_of (KStr s) r →
     (∀ m, m ∈ l2 → ¬ key_frame_of (KStr s) m) →
     (sample_to_key_frame s "lidar" σ).1 = Ok (VStr (token r))) ∧
  ((∀ m, m ∈ tbl → ¬ key_frame_of (KStr s) m) →
   (sample_to_key_frame s "lidar" σ).1 = Err (KeyError (VStr s))).
Proof.
  intros Hwf Hdisk Hall.
  assert (Hinit : key_frame_init !! "lidar" = Some (∅ : gmap pykey value))
    by by vm_compute.
  destruct (key_frame_loop_lidar tbl key_frame_init ∅ Hall Hinit)
    as (inner' & Hloop & Hinner').
  destruct (sample_to_key_frame_result σ s "lidar" tbl _ Hwf Hdisk Hloop)
    as (σ' & -> & _).
  simpl. rewrite lookup_insert_eq. simpl. unfold pydict_getitem. simpl.
  destruct (Hinner' (KStr s)) as [Hlast Hnone]. split.
  - intros l1 r l2 Heq Hr Hl2. by rewrite (Hlast l1 r l2).
  - intros Hno. by rewrite (Hnone Hno), lookup_empty.
Qed.

(** X7. The key-frame mapping is built at most once: after a call whose
    loop has ended the mapping is stored and no later call changes the
    object.  A loop that raises stores nothing, so the call raises that
    exception, the mapping is still unset, and the next call runs the
    loop again and raises the same exception. *)
Theorem key_frames_built_once (σ : NuImages) (s modality : string)
    (tbl : table) :
  wf σ → table_on_disk (table_root σ) "sample_data" = Ok tbl →
  match key_frame_loop key_frame_init tbl with
  | Ok m =>
      sample_to_key_frame_map (sample_to_key_frame s modality σ).2 = Some m ∧
      ∀ s' modality',
        (sample_to_key_frame s' modality' (sample_to_key_frame s modality σ).2).2
        = (sample_to_key_frame s modality σ).2
  | Err e =>
      (sample_to_key_frame s modality σ).1 = Err e ∧
      sample_to_key_frame_map (sample_to_key_frame s modality σ).2 = None ∧
      ∀ s' modality',
        (sample_to_key_frame s' modality' (sample_to_key_frame s modality σ).2).1
        = Err e
  end.
Proof.
  intros Hwf Hdisk.
  destruct (key_frame_loop key_frame_init tbl) as [m|e] eqn:Hloop.
  - destruct (sample_to_key_frame_result σ s modality tbl m Hwf Hdisk Hloop)
      as (σ' & -> & Hmap). simpl. split; [done|].
    intros s' modality'. unfold sample_to_key_frame. mstep.
    rewrite Hmap. mstep. rewrite Hmap. mstep.
    by destruct (dict_getitem m (VStr modality')) as [inner|].
  - assert (Hraise : ∀ σ0 s0 m0, wf σ0 →
      table_on_disk (table_root σ0) "sample_data" = Ok tbl →
      ∃ σ1, sample_to_key_frame s0 m0 σ0 = (Err e, σ1) ∧ wf σ1 ∧
            sample_to_key_frame_map σ1 = None ∧
            table_on_disk (table_root σ1) "sample_data" = Ok tbl).
    { intros σ0 s0 m0 Hwf0 Hdisk0. unfold sample_to_key_frame. mstep.
      pose proof (table_on_disk_inv _ _ _ Hdisk0) as [Hex Htbl].
      destruct (sample_to_key_frame_map σ0) as [m'|] eqn:Hmap.
      - pose proof (wf_key_frames _ Hwf0 _ Hmap). congruence.
      - mstep.
        destruct (getattr_spec "sample_data" σ0 Hwf0 ltac:(set_solver))
          as (σ1 & -> & Hwf1 & Hv & Hd & _ & Hmap1 & _).
        rewrite Hdisk0. mstep. rewrite Hloop. mstep.
        exists σ1. split_and!; [done|done|congruence|].
        unfold table_root in *. by rewrite Hv, Hd. }
    destruct (Hraise σ s modality Hwf Hdisk) as (σ1 & -> & Hwf1 & Hmap1 & Hdisk1).
    simpl. split_and!; [done|done|].
    intros s' modality'.
    by destruct (Hraise σ1 s' modality' Hwf1 Hdisk1) as (σ2 & -> & _).
Qed.

End KeyFrameIndex.

(** ** Allow-lists and annotation tables *)

Lemma allowed_Some (l : list string) (t : string) :
  allowed (Some l) t = true ↔ t ∈ l.
Proof.
  unfold allowed, in_tokens. rewrite existsb_exists. split.
  - intros (x & Hx%list_elem_of_In & Heq). simpl in Heq.
    by apply String.eqb_eq in Heq as ->.
  - intros Ht. exists t. split; [by apply list_elem_of_In|].
    simpl. apply String.eqb_refl.
Qed.

Lemma filter_ext_in {A} (f g : A → bool) (l : list A) :
  (∀ x, x ∈ l → f x = g x) → List.filter f l = List.filter g l.
Proof.
  induction l as [|x l IH]; intros Hfg; simpl; [done|].
  rewrite (Hfg x) by left. rewrite IH; [done|].
  intros y Hy. apply Hfg. by right.
Qed.

Section AllowLists.
Context `{Environment}.

#[local] Arguments getitem : simpl never.
#[local] Arguments table_on_disk : simpl never.
#[local] Arguments select_sample_data : simpl never.
#[local] Arguments eq_str : simpl never.

Lemma annotations_of_ext (root t tok : string)
    (tokens tokens' : option (list string)) :
  (∀ tbl b, table_on_disk root t = Ok tbl → b ∈ tbl →
     allowed tokens (token b) = allowed tokens' (token b)) →
  annotations_of root t tok tokens = annotations_of root t tok tokens'.
Proof.
  intros Hsame. unfold annotations_of.
  destruct (table_on_disk root t) as [tbl|] eqn:Hdisk; simpl; [|done].
  destruct (select_sample_data tbl tok) as [anns|] eqn:Hsel; simpl; [|done].
  rewrite !select_tokens_filter. f_equal. apply filter_ext_in.
  intros b Hb. apply (Hsame tbl); [done|].
  by eapply select_sample_data_subset.
Qed.

(** X8. A render depends on an allow-list only through the annotations
    of the table it admits: two allow-lists that admit the same records
    of the surface table and of the object table give the same outcome.
    So the order and the repetitions of the tokens in a list do not
    matter, and tokens of no annotation are ignored without an error. *)
Theorem allow_list_extensional (σ : NuImages) (tok : string) (wn wa : bool)
    (ot st ot' st' : option (list string)) :
  wf σ →
  (∀ tbl b, table_on_disk (table_root σ) "surface_ann" = Ok tbl → b ∈ tbl →
     allowed st (token b) = allowed st' (token b)) →
  (∀ tbl b, table_on_disk (table_root σ) "object_ann" = Ok tbl → b ∈ tbl →
     allowed ot (token b) = allowed ot' (token b)) →
  (render_image tok wn wa ot st σ).1 = (render_image tok wn wa ot' st' σ).1.
Proof.
  intros Hwf Hs Ho. rewrite !render_image_result by done. unfold render.
  by rewrite (annotations_of_ext _ "surface_ann" tok st st'),
             (annotations_of_ext _ "object_ann" tok ot ot').
Qed.

Lemma select_quiet (tbl : table) (tok : string)
    (tokens : option (list string)) :
  quiet tbl tok tokens →
  ∃ anns, select_sample_data tbl tok = Ok anns ∧ select_tokens tokens anns = [].
Proof.
  unfold quiet. induction 1 as [|b rest (v & Hv & Hb) _ (anns & Hsel & Hnil)].
  - exists []. split; [done|by destruct tokens].
  - unfold select_sample_data. fold select_sample_data.
    rewrite Hv. simpl. rewrite Hsel. simpl.
    destruct (eq_str v tok) eqn:Heq.
    + exists (b :: anns). split; [done|].
      destruct Hb as [?|Hb]; [done|].
      rewrite select_tokens_filter in *. simpl. by rewrite Hb.
    + by exists anns.
Qed.

(** X9. When no allowed annotation refers to the sample_data, a render
    with annotations returns the opened image as it is.  This is the
    case when no record of the two annotation tables refers to it, and
    also when both allow-lists are empty: an empty list draws nothing,
    it does not stand for "no restriction". *)
Theorem render_without_annotations_of_it (σ : NuImages) (tok : string)
    (wa : bool) (ot st : option (list string)) (stbl otbl : table) :
  wf σ →
  table_on_disk (table_root σ) "surface_ann" = Ok stbl →
  table_on_disk (table_root σ) "object_ann" = Ok otbl →
  quiet stbl tok st → quiet otbl tok ot →
  (render_image tok true wa ot st σ).1 =
    base_image (table_root σ) (dataroot σ) tok true wa.
Proof.
  intros Hwf Hs Ho (sa & Hsa & Hsnil)%select_quiet (oa & Hoa & Honil)%select_quiet.
  rewrite render_image_result by done. unfold render, annotations_of.
  rewrite Hs, Ho. simpl. rewrite Hsa, Hoa. simpl. rewrite Hsnil, Honil.
  by destruct (base_image _ _ _ _ _).
Qed.

Lemma select_sample_data_KeyError (tbl : table) (tok : string) (b : record) :
  b ∈ tbl → fields b !! "sample_data_token" = None →
  select_sample_data tbl tok = Err (KeyError (VStr "sample_data_token")).
Proof.
  intros Hin Hb. induction tbl as [|o rest IH]; [by apply elem_of_nil in Hin|].
  unfold select_sample_data. fold select_sample_data.
  destruct (getitem o "sample_data_token") as [v|e] eqn:Ho; simpl.
  - apply elem_of_cons in Hin as [->|Hin].
    + unfold getitem in Ho. simpl in Ho. by rewrite Hb in Ho.
    + by rewrite IH.
  - unfold getitem in Ho. simpl in Ho.
    destruct (fields o !! "sample_data_token"); [done|]. by injection Ho as <-.
Qed.

(** X10. The annotation tables are scanned whole.  A surface annotation
    without the key [sample_data_token], of whatever sample_data and on
    or off the allow-list, makes every render with annotations raise
    [KeyError] once the image is open; an object annotation without the
    key keeps every such render from returning an image. *)
Theorem render_scans_whole_tables (σ : NuImages) (tok : string) (wa : bool)
    (ot st : option (list string)) (tbl : table) (b : record) :
  wf σ → b ∈ tbl → fields b !! "sample_data_token" = None →
  (table_on_disk (table_root σ) "surface_ann" = Ok tbl →
   ∀ im0, base_image (table_root σ) (dataroot σ) tok true wa = Ok im0 →
     (render_image tok true wa ot st σ).1 =
       Err (KeyError (VStr "sample_data_token"))) ∧
  (table_on_disk (table_root σ) "object_ann" = Ok tbl →
   is_Err (render_image tok true wa ot st σ).1 = true).
Proof.
  intros Hwf Hin Hb. rewrite render_image_result by done.
  unfold render, annotations_of. split.
  - intros -> im0 ->. simpl.
    by rewrite (select_sample_data_KeyError tbl tok b).
  - intros ->. simpl.
    rewrite (select_sample_data_KeyError tbl tok b) by done.
    destruct (base_image _ _ _ _ _) as [im0|]; simpl; [|done].
    destruct (table_on_disk _ "surface_ann") as [stbl|]; simpl; [|done].
    destruct (select_sample_data stbl tok) as [sa|]; simpl; [|done].
    by destruct (pass _ _ im0).
Qed.

(** X11. Without annotations [render_image] returns the opened image
    and does no more than look the sample_data up: the allow-lists are
    not read, and no annotation, category or attribute table is loaded
    on its account. *)
Theorem render_image_plain (σ : NuImages) (tok : string) (wa : bool)
    (ot st : option (list string)) :
  wf σ →
  render_image tok false wa ot st σ =
    (base_image (table_root σ) (dataroot σ) tok false wa,
     (get "sample_data" (VStr tok) σ).2).
Proof.
  intros Hwf. unfold render_image, base_image. mstep.
  destruct (get_computes (version σ) (dataroot σ) "sample_data" (VStr tok)
              ltac:(set_solver) σ Hwf eq_refl eq_refl)
    as (σ1 & -> & _ & _ & Hd).
  fold (table_root σ). simpl.
  destruct (lookup_record _ _ _) as [sd|]; mstep; [|done].
  destruct (getitem sd "fileformat") as [ff|]; mstep; [|done].
  destruct (eq_str ff "jpg"); mstep; [|done].
  destruct (getitem sd "is_key_frame") as [kf|]; mstep; [|done].
  destruct (negb (truthy kf)); mstep.
  - destruct wa; mstep; [done|]. rewrite Hd.
    destruct (getitem sd "filename") as [fn|]; mstep; [|done].
    destruct (image_path _ fn) as [p|]; mstep; [|done].
    by destruct (Image_open p).
  - rewrite Hd.
    destruct (getitem sd "filename") as [fn|]; mstep; [|done].
    destruct (image_path _ fn) as [p|]; mstep; [|done].
    by destruct (Image_open p).
Qed.

End AllowLists.

(** ** The listing methods *)

(** *** Counting in a [defaultdict] *)

Lemma occurrences_cons (k : pykey) (v : value) (vals : list value) :
  occurrences k (v :: vals) =
    ((if bool_decide (hashable v = Some k) then 1 else 0) + occurrences k vals)%nat.
Proof. unfold occurrences. simpl. by destruct (bool_decide _). Qed.

Lemma occurrences_app (k : pykey) (a b : list value) :
  occurrences k (a ++ b) = (occurrences k a + occurrences k b)%nat.
Proof. unfold occurrences. by rewrite List.filter_app, length_app. Qed.

Lemma counter_find_bump (k k' : pykey) (v : value) (d : counter) :
  hashable v = Some k' →
  counter_find k (counter_bump k' v d) =
    if decide (k = k') then Some (S (default 0%nat (counter_find k d)))
    else counter_find k d.
Proof.
  intros Hv. induction d as [|[k0 n] rest IH]; simpl.
  - rewrite Hv. repeat case_decide; by simplify_eq/=.
  - destruct (decide (hashable k0 = Some k')) as [Hk0|Hk0]; simpl.
    + rewrite Hk0. repeat case_decide; by simplify_eq/=.
    + rewrite IH. repeat case_decide; by simplify_eq/=.
Qed.

Lemma hashed_Ok (v v' : value) :
  hashed v = Ok v' → v' = v ∧ is_Some (hashable v).
Proof. unfold hashed. destruct (hashable v); [|done]. intros [= <-]. eauto. Qed.

Lemma hashed_all_Ok (vals vs : list value) :
  hashed_all vals = Ok vs →
  vs = vals ∧ Forall (λ v, is_Some (hashable v)) vals.
Proof.
  revert vs. induction vals as [|v rest IH]; intros vs; simpl.
  - by intros [= <-].
  - destruct (hashed v) as [v'|] eqn:Hv; simpl; [|done].
    apply hashed_Ok in Hv as [-> Hv].
    destruct (hashed_all rest) as [rest'|]; simpl; [|done].
    destruct (IH rest' eq_refl) as [-> Hrest]. intros [= <-]. by split; [|constructor].
Qed.

(** Counting is as good as hashing all the keys first. *)
Lemma count_values_hashed_all (vals : list value) :
  ∀ d, count_values d vals = (vs ← hashed_all vals; count_values d vs).
Proof.
  induction vals as [|v rest IH]; intros d; simpl; [done|].
  unfold counter_incr, hashed.
  destruct (hashable v) as [k|] eqn:Hv; simpl; [|done].
  rewrite IH. destruct (hashed_all rest) as [rest'|]; simpl; [|done].
  unfold counter_incr. by rewrite Hv.
Qed.

Lemma count_values_app (a b : list value) :
  ∀ d, count_values d (a ++ b) = (d' ← count_values d a; count_values d' b).
Proof.
  induction a as [|v rest IH]; intros d; simpl; [done|].
  destruct (counter_incr d v) as [d'|]; simpl; [|done]. apply IH.
Qed.

(** The counts after a loop over hashable keys. *)
Lemma count_values_counts (vals : list value) :
  ∀ d, Forall (λ v, is_Some (hashable v)) vals →
  ∃ d', count_values d vals = Ok d' ∧
    ∀ k, default 0%nat (counter_find k d') =
           (default 0%nat (counter_find k d) + occurrences k vals)%nat.
Proof.
  induction vals as [|v rest IH]; intros d Hall.
  - exists d. split; [done|]. intros k. unfold occurrences. simpl. lia.
  - apply Forall_cons in Hall as [[k' Hv] Hrest]. simpl.
    unfold counter_incr. rewrite Hv. simpl.
    destruct (IH (counter_bump k' v d) Hrest) as (d' & -> & Hd').
    exists d'. split; [done|]. intros k.
    rewrite Hd', counter_find_bump, occurrences_cons, Hv by done.
    destruct (decide (k = k')) as [->|Hne].
    + rewrite bool_decide_eq_true_2 by done. simpl. lia.
    + rewrite bool_decide_eq_false_2 by congruence. simpl. lia.
Qed.

Lemma gather_cons {A} (f : A → result (list value)) (x : A) (rest : list A) :
  gather f (x :: rest) = (vs ← f x; rest' ← gather f rest; Ok (vs ++ rest')).
Proof. done. Qed.

Lemma gather_hashable {A} (f : A → result (list value)) (l : list A) :
  (∀ x ys, f x = Ok ys → Forall (λ v, is_Some (hashable v)) ys) →
  ∀ vs, gather f l = Ok vs → Forall (λ v, is_Some (hashable v)) vs.
Proof.
  intros Hf. induction l as [|x rest IH]; intros vs; simpl.
  - intros [= <-]. constructor.
  - destruct (f x) as [ys|] eqn:Hx; simpl; [|done].
    destruct (gather f rest) as [rest'|]; simpl; [|done].
    intros [= <-]. apply Forall_app. split; [by eapply Hf|by apply IH].
Qed.

(** The counts a loop leaves, when it starts from the empty dict. *)
Lemma gathered_counts {A} (f : A → result (list value)) (l : list A)
    (vs : list value) :
  (∀ x ys, f x = Ok ys → Forall (λ v, is_Some (hashable v)) ys) →
  gather f l = Ok vs →
  ∃ d, count_values [] vs = Ok d ∧
    ∀ k, default 0%nat (counter_find k d) = occurrences k vs.
Proof.
  intros Hf Hvs.
  destruct (count_values_counts vs [] (gather_hashable f l Hf vs Hvs))
    as (d & Hd & Hcount).
  exists d. split; [done|]. intros k. by rewrite Hcount.
Qed.

Lemma count_by_gather (l : table) :
  ∀ d, count_by "log_token" d l =
         (vs ← gather (λ sample,
                         log_token ← getitem sample "log_token";
                         v ← hashed log_token; Ok [v]) l;
          count_values d vs).
Proof.
  induction l as [|x rest IH]; intros d; [done|].
  unfold count_by; fold count_by. unfold gather; fold @gather.
  destruct (getitem x "log_token") as [v|]; simpl; [|done].
  unfold counter_incr, hashed.
  destruct (hashable v) as [k|] eqn:Hv; simpl; [|done].
  rewrite IH. destruct (gather _ rest) as [rest'|]; simpl; [|done].
  unfold counter_incr. by rewrite Hv.
Qed.

Lemma count_attribute_tokens_gather (l : table) :
  ∀ d, count_attribute_tokens d l =
         (vs ← gather (λ object_ann,
                         attribute_tokens ← getitem object_ann "attribute_tokens";
                         vals ← iter_value attribute_tokens;
                         hashed_all vals) l;
          count_values d vs).
Proof.
  induction l as [|x rest IH]; intros d; [done|].
  unfold count_attribute_tokens; fold count_attribute_tokens.
  unfold gather; fold @gather.
  destruct (getitem x "attribute_tokens") as [v|]; simpl; [|done].
  destruct (iter_value v) as [vals|]; simpl; [|done].
  rewrite count_values_hashed_all.
  destruct (hashed_all vals) as [vals'|] eqn:Hvals; simpl; [|done].
  apply hashed_all_Ok in Hvals as [-> Hvals].
  destruct (count_values_counts vals d Hvals) as (d' & Hd' & _).
  rewrite Hd'. simpl. rewrite IH.
  destruct (gather _ rest) as [rest'|]; simpl; [|done].
  by rewrite count_values_app, Hd'.
Qed.

(** The keys of a counter are the first occurrences of the keys counted. *)
Lemma counter_bump_keys (k : pykey) (v : value) (d : counter) :
  hashable v = Some k →
  (counter_bump k v d).*1 =
    if bool_decide (k ∈ omap hashable d.*1) then d.*1 else d.*1 ++ [v].
Proof.
  intros Hv. induction d as [|[k0 n] rest IH]; [done|].
  cbn [counter_bump]. rewrite fmap_cons. cbn [fst].
  destruct (decide (hashable k0 = Some k)) as [Hk0|Hk0].
  - rewrite fmap_cons. cbn [fst omap list_omap]. rewrite Hk0.
    rewrite bool_decide_eq_true_2; [done|]. left.
  - rewrite fmap_cons, IH. cbn [fst omap list_omap].
    fold (omap hashable rest.*1).
    destruct (hashable k0) as [k1|] eqn:Hk1; [|by destruct (bool_decide _)].
    destruct (bool_decide (k ∈ omap hashable rest.*1)) eqn:Hin.
    + apply bool_decide_eq_true in Hin.
      rewrite bool_decide_eq_true_2; [done|]. by right.
    + apply bool_decide_eq_false in Hin.
      rewrite bool_decide_eq_false_2; [done|].
      intros [->|?]%elem_of_cons; [done|done].
Qed.

Lemma first_occurrences_ext (l : list value) :
  ∀ seen seen', (∀ k, k ∈ seen ↔ k ∈ seen') →
  first_occurrences seen l = first_occurrences seen' l.
Proof.
  induction l as [|v rest IH]; intros seen seen' Hs; simpl; [done|].
  destruct (hashable v) as [k|]; [|by apply IH].
  destruct (bool_decide (k ∈ seen)) eqn:Hin.
  - apply bool_decide_eq_true in Hin.
    rewrite bool_decide_eq_true_2 by by apply Hs. by apply IH.
  - apply bool_decide_eq_false in Hin.
    rewrite bool_decide_eq_false_2 by by rewrite <- Hs.
    f_equal. apply IH. intros k'. rewrite !elem_of_cons. by rewrite Hs.
Qed.

Lemma count_values_keys (vs : list value) :
  ∀ d d', count_values d vs = Ok d' →
  d'.*1 = d.*1 ++ first_occurrences (omap hashable d.*1) vs.
Proof.
  induction vs as [|v rest IH]; intros d d'; simpl.
  - intros [= <-]. by rewrite app_nil_r.
  - unfold counter_incr. destruct (hashable v) as [k|] eqn:Hv; simpl; [|done].
    intros Hd'. rewrite (IH _ _ Hd'), counter_bump_keys by done.
    destruct (bool_decide (k ∈ omap hashable d.*1)); [done|].
    rewrite <- app_assoc. simpl. do 2 f_equal.
    apply first_occurrences_ext. intros k'.
    rewrite omap_app. simpl. rewrite Hv. simpl.
    rewrite elem_of_app, !elem_of_cons, elem_of_nil. tauto.
Qed.

Lemma result_bind_Ok {A B} (a : A) (f : A → result B) : (Ok a ≫= f) = f a.
Proof. done. Qed.

Lemma result_bind_Err {A B} (e : exn) (f : A → result B) :
  (Err e ≫= f) = Err e.
Proof. done. Qed.

(** *** Printing *)

Lemma io_bind_run {A B} (m : IO A) (f : A → IO B) (s : NuImages * list string) :
  (m ≫= f) s =
    match m s with
    | (Ok a, s') => f a s'
    | (Err e, s') => (Err e, s')
    end.
Proof. done. Qed.

Lemma io_lift_run {A} (r : result A) (s : NuImages * list string) :
  io_lift r s = (r, s).
Proof. done. Qed.

Lemma print_run (line : string) (σ : NuImages) (out : list string) :
  print line (σ, out) = (Ok tt, (σ, out ++ [line])).
Proof. done. Qed.

Lemma run_M_run {A} (m : M A) (σ : NuImages) (out : list string) :
  run_M m (σ, out) = ((m σ).1, ((m σ).2, out)).
Proof. unfold run_M. simpl. by destruct (m σ). Qed.

(** A printing loop appends the lines of [printed]. *)
Lemma print_rows_run {A} (row : A → result (option string)) (l : list A)
    (σ : NuImages) :
  ∀ out, print_rows row l (σ, out) =
           ((printed row l).1, (σ, out ++ (printed row l).2)).
Proof.
  induction l as [|x rest IH]; intros out; simpl.
  - by rewrite app_nil_r.
  - rewrite io_bind_run, io_lift_run.
    destruct (row x) as [[line|]|e]; simpl.
    + rewrite io_bind_run, print_run, IH. simpl.
      by rewrite <- app_assoc.
    + rewrite io_bind_run. unfold mret at 1, IO_ret. by rewrite IH.
    + by rewrite app_nil_r.
Qed.

Lemma printed_ext {A} (row row' : A → result (option string)) (l : list A) :
  (∀ x, x ∈ l → row x = row' x) → printed row l = printed row' l.
Proof.
  induction l as [|x rest IH]; intros Hrow; simpl; [done|].
  rewrite (Hrow x) by left. rewrite IH; [done|].
  intros y Hy. apply Hrow. by right.
Qed.

Lemma grows_table_root (σ σ' : NuImages) :
  grows σ σ' → table_root σ' = table_root σ.
Proof. intros (Hv & Hd & _). unfold table_root. by rewrite Hv, Hd. Qed.

Section Listings.
Context `{Environment} `{Console}.

#[local] Arguments getitem : simpl never.
#[local] Arguments table_on_disk : simpl never.
#[local] Arguments format : simpl never.

(** [load_table] on a table whose file exists. *)
Lemma load_table_step (t : string) (σ : NuImages) :
  wf σ → is_Ok (table_on_disk (table_root σ) t) = true →
  ∃ σ', load_table t σ = (Ok tt, σ') ∧ wf σ' ∧ grows σ σ'.
Proof.
  intros Hwf Hdisk.
  pose proof (load_table_wf t σ Hwf) as Hwf'.
  pose proof (keeps_load_table t σ) as Hg.
  rewrite load_table_run in *.
  destruct (in_dict σ t); [by eexists|].
  destruct (table_on_disk (table_root σ) t) as [tbl|] eqn:Htbl; [|done].
  apply table_on_disk_inv in Htbl as [Hex _]. rewrite Hex in *. by eexists.
Qed.

Lemma load_tables_step (names : list string) :
  ∀ σ, wf σ →
  Forall (λ t, is_Ok (table_on_disk (table_root σ) t) = true) names →
  ∃ σ', load_tables names σ = (Ok tt, σ') ∧ wf σ' ∧ grows σ σ'.
Proof.
  induction names as [|t rest IH]; intros σ Hwf Hall.
  - exists σ. split_and!; [done|done|apply grows_refl].
  - apply Forall_cons in Hall as [Ht Hrest].
    destruct (load_table_step t σ Hwf Ht) as (σ1 & E1 & Hwf1 & Hg1).
    destruct (IH σ1 Hwf1) as (σ2 & E2 & Hwf2 & Hg2).
    { by rewrite (grows_table_root _ _ Hg1). }
    exists σ2. split_and!; [|done|by eapply grows_trans].
    simpl. unfold mbind, M_bind. by rewrite E1.
Qed.

Lemma load_if_lazy_step (names : list string) (σ : NuImages)
    (out : list string) :
  wf σ →
  (lazy σ = true →
   Forall (λ t, is_Ok (table_on_disk (table_root σ) t) = true) names) →
  ∃ σ', load_if_lazy names (σ, out) = (Ok tt, (σ', out)) ∧ wf σ' ∧ grows σ σ'.
Proof.
  intros Hwf Hall. unfold load_if_lazy. rewrite run_M_run.
  unfold mbind, M_bind, gets. destruct (lazy σ).
  - destruct (load_tables_step names σ Hwf (Hall eq_refl)) as (σ' & -> & ? & ?).
    by exists σ'.
  - exists σ. split_and!; [done|done|apply grows_refl].
Qed.

Lemma m_bind_run {A B} (m : M A) (f : A → M B) (σ : NuImages) :
  (m ≫= f) σ =
    match m σ with
    | (Ok a, σ') => f a σ'
    | (Err e, σ') => (Err e, σ')
    end.
Proof. done. Qed.

Lemma lift_run {A} (r : result A) (σ : NuImages) : lift r σ = (r, σ).
Proof. done. Qed.

(** [get] returns the record on disk and keeps what is resident. *)
Lemma get_step (t : string) (k : value) (σ : NuImages) :
  wf σ → t ∈ table_names →
  ∃ σ', get t k σ = (lookup_record (table_root σ) t k, σ') ∧ wf σ' ∧
        grows σ σ'.
Proof.
  intros Hwf Ht. pose proof (keeps_get t k σ) as Hg.
  destruct (get_computes _ _ t k Ht σ Hwf eq_refl eq_refl)
    as (σ' & E & Hwf' & _).
  rewrite E in Hg. by exists σ'.
Qed.

(** Evaluating a table attribute whose file exists. *)
Lemma getattr_step (t : string) (tbl : table) (σ : NuImages)
    (out : list string) :
  wf σ → t ∈ table_names → table_on_disk (table_root σ) t = Ok tbl →
  ∃ σ', run_M (getattr_ t) (σ, out) = (Ok tbl, (σ', out)) ∧ wf σ' ∧
        grows σ σ' ∧ tables σ' !! t = Some tbl.
Proof.
  intros Hwf Ht Hdisk. rewrite run_M_run.
  pose proof (keeps_getattr t σ) as Hg.
  destruct (getattr_spec t σ Hwf Ht) as (σ' & E & Hwf' & _ & _ & _ & _ & Hl).
  rewrite E in *. rewrite Hdisk. exists σ'. simpl. split_and!; try done.
  by apply Hl.
Qed.

Lemma grows_on_disk (σ σ' : NuImages) (t : string) (r : result table) :
  grows σ σ' → table_on_disk (table_root σ) t = r →
  table_on_disk (table_root σ') t = r.
Proof. intros Hg. by rewrite (grows_table_root _ _ Hg). Qed.

Lemma grows_resident (σ σ' : NuImages) (t : string) (tbl : table) :
  grows σ σ' → tables σ !! t = Some tbl → tables σ' !! t = Some tbl.
Proof. intros (_ & _ & _ & _ & Ht & _) Hl. by eapply lookup_weaken. Qed.

Lemma log_row_line (d : counter) (vals : list value) (log : record) :
  (∀ k, default 0%nat (counter_find k d) = occurrences k vals) →
  log_row d log = log_line vals log.
Proof.
  intros Hd. unfold log_row, log_line.
  change (getitem log "token") with (Ok (VStr (token log)) : result value).
  simpl. unfold counter_get. simpl. by rewrite Hd.
Qed.

Lemma attribute_row_line (d : counter) (vals : list value) (a : record) :
  (∀ k, default 0%nat (counter_find k d) = occurrences k vals) →
  attribute_row d a = attribute_line vals a.
Proof.
  intros Hd. unfold attribute_row, attribute_line.
  change (getitem a "token") with (Ok (VStr (token a)) : result value).
  simpl. unfold counter_get. simpl. by rewrite Hd.
Qed.

Lemma log_token_of_hashable (x : record) (ys : list value) :
  log_token_of x = Ok ys → Forall (λ v, is_Some (hashable v)) ys.
Proof.
  unfold log_token_of. destruct (getitem x "log_token") as [v|]; simpl; [|done].
  destruct (hashed v) as [v'|] eqn:Hv; simpl; [|done].
  apply hashed_Ok in Hv as [-> Hv]. intros [= <-]. by repeat constructor.
Qed.

Lemma attribute_tokens_of_hashable (x : record) (ys : list value) :
  attribute_tokens_of x = Ok ys → Forall (λ v, is_Some (hashable v)) ys.
Proof.
  unfold attribute_tokens_of.
  destruct (getitem x "attribute_tokens") as [v|]; simpl; [|done].
  destruct (iter_value v) as [vals|]; simpl; [|done].
  by intros [-> ?]%hashed_all_Ok.
Qed.



#[local] Arguments get : simpl never.
#[local] Arguments lookup_record : simpl never.
#[local] Arguments in_sample_tokens : simpl never.
#[local] Arguments counter_incr : simpl never.
#[local] Arguments hashed : simpl never.
#[local] Arguments count_values : simpl never.

(** A counting loop of [list_categories] counts the gathered keys. *)
Lemma count_categories_step (sample_tokens : option (list string))
    (anns : table) :
  ∀ d σ, wf σ →
  ∃ σ', count_categories sample_tokens d anns σ =
          (vs ← gather (category_of (table_root σ) sample_tokens) anns;
           count_values d vs, σ') ∧
        wf σ' ∧ grows σ σ'.
Proof.
  induction anns as [|ann rest IH]; intros d σ Hwf.
  - exists σ. split_and!; [done|done|apply grows_refl].
  - unfold count_categories; fold count_categories.
    rewrite gather_cons. set (G := gather _ rest).
    unfold category_of, sample_of.
    rewrite m_bind_run, lift_run.
    destruct (getitem ann "sample_data_token") as [sdt|e]; simpl;
      [|exists σ; split_and!; [done|done|apply grows_refl]].
    destruct (get_step "sample_data" sdt σ Hwf ltac:(in_list))
      as (σ1 & E1 & Hwf1 & Hg1).
    rewrite m_bind_run, E1.
    destruct (lookup_record (table_root σ) "sample_data" sdt) as [sd|e]; simpl;
      [|exists σ1; by split_and!].
    rewrite m_bind_run, lift_run.
    destruct (getitem sd "sample_token") as [st|e]; simpl;
      [|exists σ1; by split_and!].
    rewrite m_bind_run, lift_run.
    destruct (in_sample_tokens sample_tokens st) as [[|]|e]; simpl;
      [| |exists σ1; by split_and!].
    + rewrite m_bind_run, m_bind_run, lift_run.
      destruct (getitem ann "category_token") as [ct|e]; simpl;
        [|exists σ1; by split_and!].
      destruct (hashed ct) as [ct'|e] eqn:Hct; simpl.
      * apply hashed_Ok in Hct as [-> [k Hk]].
        unfold counter_incr at 1. rewrite Hk.
        destruct (IH (counter_bump k ct d) σ1 Hwf1) as (σ3 & -> & Hwf3 & Hg3).
        exists σ3. split_and!; [|done|by eapply grows_trans].
        rewrite (grows_table_root _ _ Hg1). fold G.
        destruct G as [rest'|]; simpl; [|done].
        unfold count_values at 2; fold count_values.
        unfold counter_incr. by rewrite Hk.
      * unfold hashed in Hct. unfold counter_incr.
        destruct (hashable ct); [done|]. injection Hct as <-.
        exists σ1. by split_and!.
    + rewrite m_bind_run. unfold mret at 1, M_ret.
      destruct (IH d σ1 Hwf1) as (σ2 & -> & Hwf2 & Hg2).
      exists σ2. split_and!; [|done|by eapply grows_trans].
      rewrite (grows_table_root _ _ Hg1). fold G.
      by destruct G as [rest'|].
Qed.

Lemma category_of_hashable (root : string) (st : option (list string))
    (x : record) (ys : list value) :
  category_of root st x = Ok ys → Forall (λ v, is_Some (hashable v)) ys.
Proof.
  unfold category_of. destruct (sample_of root x) as [s|]; simpl; [|done].
  destruct (in_sample_tokens st s) as [[|]|]; simpl; [| |done].
  - destruct (getitem x "category_token") as [v|]; simpl; [|done].
    destruct (hashed v) as [v'|] eqn:Hv; simpl; [|done].
    apply hashed_Ok in Hv as [-> Hv]. intros [= <-]. by repeat constructor.
  - intros [= <-]. constructor.
Qed.

Lemma category_row_line (od sd : counter) (ocats scats : list value)
    (category : record) :
  (∀ k, default 0%nat (counter_find k od) = occurrences k ocats) →
  (∀ k, default 0%nat (counter_find k sd) = occurrences k scats) →
  category_row od sd category = category_line ocats scats category.
Proof.
  intros Hod Hsd. unfold category_row, category_line.
  change (getitem category "token") with (Ok (VStr (token category)) : result value).
  simpl. unfold counter_get. simpl. by rewrite Hod, Hsd.
Qed.

(** Running a counting loop within a listing. *)
Lemma count_categories_io (sample_tokens : option (list string))
    (anns : table) (σ : NuImages) (out : list string) :
  wf σ →
  ∃ σ', wf σ' ∧ grows σ σ' ∧
    match gather (category_of (table_root σ) sample_tokens) anns with
    | Ok vs =>
        ∃ d, run_M (count_categories sample_tokens [] anns) (σ, out) =
               (Ok d, (σ', out)) ∧
             ∀ k, default 0%nat (counter_find k d) = occurrences k vs
    | Err e =>
        run_M (count_categories sample_tokens [] anns) (σ, out) =
          (Err e, (σ', out))
    end.
Proof.
  intros Hwf.
  destruct (count_categories_step sample_tokens anns [] σ Hwf)
    as (σ' & E & Hwf' & Hg).
  exists σ'. split_and!; [done|done|].
  rewrite run_M_run, E.
  destruct (gather _ anns) as [vs|e] eqn:Hvs; [|done].
  destruct (gathered_counts _ anns vs
              (category_of_hashable (table_root σ) sample_tokens) Hvs)
    as (d & Hd & Hcount).
  exists d. rewrite result_bind_Ok, Hd. by split.
Qed.


#[local] Arguments truthy : simpl never.

(** The first counting loop of [list_cameras] counts the gathered
    channels. *)
Lemma count_calibrated_sensors_step (l : table) :
  ∀ d σ, wf σ →
  ∃ σ', count_calibrated_sensors d l σ =
          (vs ← gather (channel_of (table_root σ)) l; count_values d vs, σ') ∧
        wf σ' ∧ grows σ σ'.
Proof.
  induction l as [|cs rest IH]; intros d σ Hwf.
  - exists σ. split_and!; [done|done|apply grows_refl].
  - unfold count_calibrated_sensors; fold count_calibrated_sensors.
    rewrite gather_cons. set (G := gather _ rest). unfold channel_of.
    rewrite m_bind_run, lift_run.
    destruct (getitem cs "sensor_token") as [st|e]; simpl;
      [|exists σ; split_and!; [done|done|apply grows_refl]].
    destruct (get_step "sensor" st σ Hwf ltac:(in_list))
      as (σ1 & E1 & Hwf1 & Hg1).
    rewrite m_bind_run, E1.
    destruct (lookup_record (table_root σ) "sensor" st) as [sensor|e]; simpl;
      [|exists σ1; by split_and!].
    rewrite m_bind_run, lift_run.
    destruct (getitem sensor "channel") as [ch|e]; simpl;
      [|exists σ1; by split_and!].
    rewrite m_bind_run, lift_run.
    destruct (hashed ch) as [ch'|e] eqn:Hch; simpl.
    + apply hashed_Ok in Hch as [-> [k Hk]].
      unfold counter_incr at 1. rewrite Hk.
      destruct (IH (counter_bump k ch d) σ1 Hwf1) as (σ3 & -> & Hwf3 & Hg3).
      exists σ3. split_and!; [|done|by eapply grows_trans].
      rewrite (grows_table_root _ _ Hg1). fold G.
      destruct G as [rest'|]; simpl; [|done].
      unfold count_values at 2; fold count_values.
      unfold counter_incr. by rewrite Hk.
    + unfold hashed in Hch. unfold counter_incr.
      destruct (hashable ch); [done|]. injection Hch as <-.
      exists σ1. by split_and!.
Qed.

(** The second counting loop of [list_cameras] counts the gathered
    channels of the key frames. *)
Lemma count_key_frame_channels_step (l : table) :
  ∀ d σ, wf σ →
  ∃ σ', count_key_frame_channels d l σ =
          (vs ← gather (key_frame_channel_of (table_root σ)) l;
           count_values d vs, σ') ∧
        wf σ' ∧ grows σ σ'.
Proof.
  induction l as [|sd rest IH]; intros d σ Hwf.
  - exists σ. split_and!; [done|done|apply grows_refl].
  - unfold count_key_frame_channels; fold count_key_frame_channels.
    rewrite gather_cons. set (G := gather _ rest).
    unfold key_frame_channel_of, channel_of.
    rewrite m_bind_run, lift_run.
    destruct (getitem sd "is_key_frame") as [kf|e]; simpl;
      [|exists σ; split_and!; [done|done|apply grows_refl]].
    rewrite m_bind_run.
    destruct (truthy kf).
    + rewrite m_bind_run, lift_run.
      destruct (getitem sd "calibrated_sensor_token") as [ct|e]; simpl;
        [|exists σ; split_and!; [done|done|apply grows_refl]].
      destruct (get_step "calibrated_sensor" ct σ Hwf ltac:(in_list))
        as (σ1 & E1 & Hwf1 & Hg1).
      rewrite m_bind_run, E1.
      destruct (lookup_record (table_root σ) "calibrated_sensor" ct)
        as [cs|e]; simpl; [|exists σ1; by split_and!].
      rewrite m_bind_run, lift_run.
      destruct (getitem cs "sensor_token") as [st|e]; simpl;
        [|exists σ1; by split_and!].
      destruct (get_step "sensor" st σ1 Hwf1 ltac:(in_list))
        as (σ2 & E2 & Hwf2 & Hg2).
      assert (Hg02 : grows σ σ2) by by eapply grows_trans.
      rewrite m_bind_run, E2. rewrite (grows_table_root _ _ Hg1).
      destruct (lookup_record (table_root σ) "sensor" st) as [sensor|e]; simpl;
        [|exists σ2; by split_and!].
      rewrite m_bind_run, lift_run.
      destruct (getitem sensor "channel") as [ch|e]; simpl;
        [|exists σ2; by split_and!].
      destruct (hashed ch) as [ch'|e] eqn:Hch; simpl.
      * apply hashed_Ok in Hch as [-> [k Hk]].
        unfold counter_incr at 1. rewrite Hk.
        destruct (IH (counter_bump k ch d) σ2 Hwf2) as (σ3 & -> & Hwf3 & Hg3).
        exists σ3. split_and!; [|done|by eapply grows_trans].
        rewrite (grows_table_root _ _ Hg02). fold G.
        destruct G as [rest'|]; simpl; [|done].
        unfold count_values at 2; fold count_values.
        unfold counter_incr. by rewrite Hk.
      * unfold hashed in Hch. unfold counter_incr.
        destruct (hashable ch); [done|]. injection Hch as <-.
        exists σ2. by split_and!.
    + unfold mret at 1, M_ret.
      destruct (IH d σ Hwf) as (σ2 & -> & Hwf2 & Hg2).
      exists σ2. split_and!; [|done|done].
      fold G. by destruct G as [rest'|].
Qed.

Lemma channel_of_hashable (root : string) (x : record) (ys : list value) :
  channel_of root x = Ok ys → Forall (λ v, is_Some (hashable v)) ys.
Proof.
  unfold channel_of. destruct (getitem x "sensor_token") as [st|]; simpl; [|done].
  destruct (lookup_record root "sensor" st) as [sensor|]; simpl; [|done].
  destruct (getitem sensor "channel") as [v|]; simpl; [|done].
  destruct (hashed v) as [v'|] eqn:Hv; simpl; [|done].
  apply hashed_Ok in Hv as [-> Hv]. intros [= <-]. by repeat constructor.
Qed.

Lemma key_frame_channel_of_hashable (root : string) (x : record)
    (ys : list value) :
  key_frame_channel_of root x = Ok ys → Forall (λ v, is_Some (hashable v)) ys.
Proof.
  unfold key_frame_channel_of.
  destruct (getitem x "is_key_frame") as [kf|]; simpl; [|done].
  destruct (truthy kf); [|intros [= <-]; constructor].
  destruct (getitem x "calibrated_sensor_token") as [ct|]; simpl; [|done].
  destruct (lookup_record root "calibrated_sensor" ct) as [cs|]; simpl; [|done].
  apply channel_of_hashable.
Qed.

Lemma camera_row_line (cd kd : counter) (cs_channels kf_channels : list value)
    (channel : value) :
  (∀ k, default 0%nat (counter_find k cd) = occurrences k cs_channels) →
  (∀ k, default 0%nat (counter_find k kd) = occurrences k kf_channels) →
  camera_row cd kd channel = camera_line cs_channels kf_channels channel.
Proof.
  intros Hcd Hkd. unfold camera_row, camera_line, counter_get.
  destruct (hashable channel) as [k|]; simpl; [|done].
  by rewrite Hcd, Hkd.
Qed.


End Listings.

(** *** What a listing leaves in place *)

Lemma io_keeps_ret {A} (a : A) : io_keeps (mret a).
Proof. intros σ out. split; [apply grows_refl|done]. Qed.

Lemma io_keeps_lift {A} (r : result A) : io_keeps (io_lift r).
Proof. intros σ out. split; [apply grows_refl|done]. Qed.

Lemma io_keeps_print (line : string) : io_keeps (print line).
Proof. intros σ out. split; [apply grows_refl|by apply prefix_app_r]. Qed.

Lemma io_keeps_run_M {A} (m : M A) : keeps m → io_keeps (run_M m).
Proof. intros Hm σ out. rewrite run_M_run. split; [apply Hm|done]. Qed.

Lemma io_keeps_bind {A B} (m : IO A) (f : A → IO B) :
  io_keeps m → (∀ a, io_keeps (f a)) → io_keeps (m ≫= f).
Proof.
  intros Hm Hf σ out. rewrite io_bind_run. specialize (Hm σ out).
  destruct (m (σ, out)) as [[a|e] [σ1 out1]]; simpl in *; [|done].
  destruct Hm as [Hg Hp]. destruct (Hf a σ1 out1) as [Hg' Hp'].
  split; [by eapply grows_trans|by etrans].
Qed.

Lemma io_keeps_print_rows {A} (row : A → result (option string)) (l : list A) :
  io_keeps (print_rows row l).
Proof.
  intros σ out. rewrite print_rows_run. simpl.
  split; [apply grows_refl|by apply prefix_app_r].
Qed.

(** Structural steps of a proof that a listing keeps what is there. *)
Ltac io_keeps_step :=
  lazymatch goal with
  | |- io_keeps (mret _) => apply io_keeps_ret
  | |- io_keeps (io_lift _) => apply io_keeps_lift
  | |- io_keeps (print _) => apply io_keeps_print
  | |- io_keeps (print_rows _ _) => apply io_keeps_print_rows
  | |- io_keeps (run_M _) => apply io_keeps_run_M
  | |- io_keeps (mbind _ _) => apply io_keeps_bind; [|intros ?]
  end.

Section ListingsKeep.
Context `{Environment} `{Console}.

Lemma keeps_load_tables (names : list string) : keeps (load_tables names).
Proof.
  induction names as [|t rest IH]; simpl; repeat keeps_step;
    [apply keeps_load_table|apply IH].
Qed.

Lemma io_keeps_load_if_lazy (names : list string) :
  io_keeps (load_if_lazy names).
Proof.
  unfold load_if_lazy. apply io_keeps_run_M. repeat keeps_step.
  apply keeps_load_tables.
Qed.

Lemma keeps_count_categories (sample_tokens : option (list string))
    (anns : table) :
  ∀ d, keeps (count_categories sample_tokens d anns).
Proof.
  induction anns as [|a rest IH]; intros d; simpl; repeat keeps_step;
    first [apply keeps_get|apply IH].
Qed.

Lemma keeps_count_calibrated_sensors (l : table) :
  ∀ d, keeps (count_calibrated_sensors d l).
Proof.
  induction l as [|a rest IH]; intros d; simpl; repeat keeps_step;
    first [apply keeps_get|apply IH].
Qed.

Lemma keeps_count_key_frame_channels (l : table) :
  ∀ d, keeps (count_key_frame_channels d l).
Proof.
  induction l as [|a rest IH]; intros d; simpl; repeat keeps_step;
    first [apply keeps_get|apply IH].
Qed.

(** X16. A listing never drops or replaces a resident table, never
    changes the configuration, and never takes back what has been
    printed: whether it returns or raises, and in whatever state it is
    called, the state has grown and the output so far is a prefix of the
    output. *)
Theorem listings_keep :
  io_keeps list_attributes ∧ io_keeps list_cameras ∧
  (∀ sample_tokens, io_keeps (list_categories sample_tokens)) ∧
  io_keeps list_logs.
Proof.
  split_and!; [| |intros sample_tokens|].
  - unfold list_attributes. repeat io_keeps_step;
      first [apply io_keeps_load_if_lazy | apply keeps_getattr].
  - unfold list_cameras. repeat io_keeps_step;
      first [ apply io_keeps_load_if_lazy | apply keeps_getattr
            | apply keeps_count_calibrated_sensors
            | apply keeps_count_key_frame_channels ].
  - unfold list_categories. repeat io_keeps_step;
      first [ apply io_keeps_load_if_lazy | apply keeps_getattr
            | apply keeps_count_categories ].
  - unfold list_logs. repeat io_keeps_step;
      first [apply io_keeps_load_if_lazy | apply keeps_getattr].
Qed.

End ListingsKeep.

(** ** The files a method reads *)

Lemma reads_only_ret {A} (names : list string) (a : A) :
  reads_only names (mret a).
Proof. intros σ t. by left. Qed.

Lemma reads_only_lift {A} (names : list string) (r : result A) :
  reads_only names (lift r).
Proof. intros σ t. by left. Qed.

Lemma reads_only_gets {A} (names : list string) (f : NuImages → A) :
  reads_only names (gets f).
Proof. intros σ t. by left. Qed.

Lemma reads_only_raise {A} (names : list string) (e : exn) :
  reads_only names (@raise A e).
Proof. intros σ t. by left. Qed.

Lemma reads_only_set_token2ind (names : list string) f :
  reads_only names (modify (set_token2ind f)).
Proof. intros σ t. by left. Qed.

Lemma reads_only_set_key_frames (names : list string) m :
  reads_only names (modify (set_sample_to_key_frame_map m)).
Proof. intros σ t. by left. Qed.

Lemma reads_only_bind {A B} (names : list string) (m : M A) (f : A → M B) :
  reads_only names m → (∀ a, reads_only names (f a)) →
  reads_only names (m ≫= f).
Proof.
  intros Hm Hf σ t. unfold mbind, M_bind. specialize (Hm σ t).
  destruct (m σ) as [[a|e] σ1]; simpl in *; [|done].
  intros [Ht|Ht]%Hf; [by apply Hm|by right].
Qed.

Lemma reads_only_weaken {A} (names names' : list string) (m : M A) :
  (∀ t, t ∈ names → t ∈ names') → reads_only names m → reads_only names' m.
Proof. intros Hsub Hm σ t [?|?]%Hm; [by left|right; by apply Hsub]. Qed.

(** Structural steps of a proof about the files a method reads. *)
Ltac reads_step :=
  lazymatch goal with
  | |- reads_only _ (mret _) => apply reads_only_ret
  | |- reads_only _ (lift _) => apply reads_only_lift
  | |- reads_only _ (gets _) => apply reads_only_gets
  | |- reads_only _ (raise _) => apply reads_only_raise
  | |- reads_only _ (modify (set_token2ind _)) => apply reads_only_set_token2ind
  | |- reads_only _ (modify (set_sample_to_key_frame_map _)) =>
      apply reads_only_set_key_frames
  | |- reads_only _ (mbind _ _) => apply reads_only_bind; [|intros ?]
  | |- reads_only _ (match ?x with _ => _ end) => destruct x
  end.

(** One of the names of a list that is written out. *)
Ltac one_of := intros ?; rewrite !elem_of_cons, !elem_of_nil; tauto.

Section Footprint.
Context `{Environment}.

Lemma reads_only_load_table (t : string) : reads_only [t] (load_table t).
Proof.
  intros σ t'. rewrite load_table_run.
  destruct (in_dict σ t); [by left|].
  destruct (osp_exists _); [|by left].
  simpl. rewrite elem_of_app. by intros [?|?]; [left|right].
Qed.

Lemma reads_only_getattr (t : string) : reads_only [t] (getattr_ t).
Proof.
  unfold getattr_. repeat reads_step. apply reads_only_load_table.
Qed.

Lemma reads_only_index_loop (names : list string) (t : string)
    (members : table) :
  ∀ ind, reads_only names (index_loop t ind members).
Proof.
  induction members as [|m rest IH]; intros ind; simpl; repeat reads_step.
  - unfold token2ind_setitem. apply reads_only_set_token2ind.
  - apply IH.
Qed.

Lemma reads_only_getind (t : string) (k : value) : reads_only [t] (getind t k).
Proof.
  unfold getind. repeat reads_step.
  - apply reads_only_getattr.
  - apply reads_only_index_loop.
Qed.

Lemma reads_only_get (t : string) (k : value) : reads_only [t] (get t k).
Proof.
  unfold get. repeat reads_step.
  - apply reads_only_getattr.
  - apply reads_only_getind.
Qed.

Lemma reads_only_get_in (names : list string) (t : string) (k : value) :
  t ∈ names → reads_only names (get t k).
Proof.
  intros Ht. apply (reads_only_weaken [t]); [|apply reads_only_get].
  by intros t' ->%list_elem_of_singleton.
Qed.

Lemma reads_only_getattr_in (names : list string) (t : string) :
  t ∈ names → reads_only names (getattr_ t).
Proof.
  intros Ht. apply (reads_only_weaken [t]); [|apply reads_only_getattr].
  by intros t' ->%list_elem_of_singleton.
Qed.

Lemma reads_only_category_color (names : list string) (ann : record) :
  "category" ∈ names → reads_only names (category_color ann).
Proof.
  intros Hc. unfold category_color. repeat reads_step.
  by apply reads_only_get_in.
Qed.

Lemma reads_only_get_attributes (names : list string) (l : list value) :
  "attribute" ∈ names → reads_only names (get_attributes l).
Proof.
  intros Ha. induction l as [|a rest IH]; simpl; repeat reads_step;
    [by apply reads_only_get_in|apply IH].
Qed.

Lemma reads_only_draw_surface_anns (names : list string) (anns : table) :
  "category" ∈ names → ∀ im, reads_only names (draw_surface_anns anns im).
Proof.
  intros Hc. induction anns as [|a rest IH]; intros im; simpl;
    repeat reads_step; try apply IH.
  by apply reads_only_category_color.
Qed.

Lemma reads_only_draw_object_anns (names : list string) (wa : bool)
    (anns : table) :
  "category" ∈ names → "attribute" ∈ names →
  ∀ im, reads_only names (draw_object_anns wa anns im).
Proof.
  intros Hc Ha. induction anns as [|a rest IH]; intros im; simpl;
    repeat reads_step; try apply IH.
  - by apply reads_only_category_color.
  - by apply reads_only_get_attributes.
Qed.

(** X17. Each method reads the files of its own tables only:
    [load_table], [getind] and [get] the file of the table they are
    called for, [sample_to_key_frame] that of sample_data, a render
    without annotations that of sample_data, and a render with
    annotations those of sample_data, surface_ann, category, object_ann
    and attribute; this holds in every state and also when the call
    raises. *)
Theorem read_footprint :
  (∀ t, reads_only [t] (load_table t)) ∧
  (∀ t k, reads_only [t] (getind t k)) ∧
  (∀ t k, reads_only [t] (get t k)) ∧
  (∀ s m, reads_only ["sample_data"] (sample_to_key_frame s m)) ∧
  (∀ tok wa ot st,
     reads_only ["sample_data"] (render_image tok false wa ot st)) ∧
  (∀ tok wa ot st,
     reads_only ["sample_data"; "surface_ann"; "category"; "object_ann";
                 "attribute"] (render_image tok true wa ot st)).
Proof.
  split_and!.
  - apply reads_only_load_table.
  - apply reads_only_getind.
  - apply reads_only_get.
  - intros s m. unfold sample_to_key_frame. repeat reads_step.
    apply reads_only_getattr.
  - intros tok wa ot st. unfold render_image. simpl. repeat reads_step.
    apply reads_only_get.
  - intros tok wa ot st. unfold render_image. simpl. repeat reads_step;
      first [ apply reads_only_get_in; in_list
            | apply reads_only_getattr_in; in_list
            | apply reads_only_draw_surface_anns; in_list
            | apply reads_only_draw_object_anns; in_list ].
Qed.

End Footprint.

Lemma io_reads_only_ret {A} (names : list string) (a : A) :
  io_reads_only names (mret a).
Proof. intros σ out t. by left. Qed.

Lemma io_reads_only_lift {A} (names : list string) (r : result A) :
  io_reads_only names (io_lift r).
Proof. intros σ out t. by left. Qed.

Lemma io_reads_only_print (names : list string) (line : string) :
  io_reads_only names (print line).
Proof. intros σ out t. by left. Qed.

Lemma io_reads_only_print_rows {A} (names : list string)
    (row : A → result (option string)) (l : list A) :
  io_reads_only names (print_rows row l).
Proof. intros σ out t. rewrite print_rows_run. by left. Qed.

Lemma io_reads_only_run_M {A} (names : list string) (m : M A) :
  reads_only names m → io_reads_only names (run_M m).
Proof. intros Hm σ out t. rewrite run_M_run. apply Hm. Qed.

Lemma io_reads_only_bind {A B} (names : list string) (m : IO A)
    (f : A → IO B) :
  io_reads_only names m → (∀ a, io_reads_only names (f a)) →
  io_reads_only names (m ≫= f).
Proof.
  intros Hm Hf σ out t. rewrite io_bind_run. specialize (Hm σ out t).
  destruct (m (σ, out)) as [[a|e] [σ1 out1]]; simpl in *; [|done].
  intros [Ht|Ht]%Hf; [by apply Hm|by right].
Qed.

Ltac io_reads_step :=
  lazymatch goal with
  | |- io_reads_only _ (mret _) => apply io_reads_only_ret
  | |- io_reads_only _ (io_lift _) => apply io_reads_only_lift
  | |- io_reads_only _ (print _) => apply io_reads_only_print
  | |- io_reads_only _ (print_rows _ _) => apply io_reads_only_print_rows
  | |- io_reads_only _ (run_M _) => apply io_reads_only_run_M
  | |- io_reads_only _ (mbind _ _) => apply io_reads_only_bind; [|intros ?]
  end.

Section ListingFootprint.
Context `{Environment} `{Console}.

Lemma reads_only_load_tables (names : list string) :
  reads_only names (load_tables names).
Proof.
  induction names as [|t rest IH]; simpl; repeat reads_step.
  - apply (reads_only_weaken [t]); [|apply reads_only_load_table].
    intros t' ->%list_elem_of_singleton. left.
  - apply (reads_only_weaken rest); [|apply IH]. intros t' ?. by right.
Qed.

Lemma io_reads_only_load_if_lazy (names names' : list string) :
  (∀ t, t ∈ names → t ∈ names') → io_reads_only names' (load_if_lazy names).
Proof.
  intros Hsub. unfold load_if_lazy. apply io_reads_only_run_M.
  repeat reads_step.
  apply (reads_only_weaken names); [done|apply reads_only_load_tables].
Qed.

Lemma reads_only_count_categories (names : list string)
    (sample_tokens : option (list string)) (anns : table) :
  "sample_data" ∈ names →
  ∀ d, reads_only names (count_categories sample_tokens d anns).
Proof.
  intros Hs. induction anns as [|a rest IH]; intros d; simpl;
    repeat reads_step; first [by apply reads_only_get_in|apply IH].
Qed.

Lemma reads_only_count_calibrated_sensors (names : list string) (l : table) :
  "sensor" ∈ names → ∀ d, reads_only names (count_calibrated_sensors d l).
Proof.
  intros Hs. induction l as [|a rest IH]; intros d; simpl;
    repeat reads_step; first [by apply reads_only_get_in|apply IH].
Qed.

Lemma reads_only_count_key_frame_channels (names : list string) (l : table) :
  "sensor" ∈ names → "calibrated_sensor" ∈ names →
  ∀ d, reads_only names (count_key_frame_channels d l).
Proof.
  intros Hs Hc. induction l as [|a rest IH]; intros d; simpl;
    repeat reads_step; first [by apply reads_only_get_in|apply IH].
Qed.

(** X18. A listing reads the files of the tables it lists only:
    [list_attributes] those of attribute and object_ann, [list_cameras]
    those of sample, sample_data, calibrated_sensor and sensor,
    [list_categories] those of sample, object_ann, surface_ann, category
    and, through the lookups of the counting loops, sample_data, and
    [list_logs] those of sample and log. *)
Theorem listing_read_footprint :
  io_reads_only ["attribute"; "object_ann"] list_attributes ∧
  io_reads_only ["sample"; "sample_data"; "calibrated_sensor"; "sensor"]
    list_cameras ∧
  (∀ sample_tokens,
     io_reads_only ["sample"; "object_ann"; "surface_ann"; "category";
                    "sample_data"] (list_categories sample_tokens)) ∧
  io_reads_only ["sample"; "log"] list_logs.
Proof.
  split_and!; [| |intros sample_tokens|].
  - unfold list_attributes. repeat io_reads_step;
      first [ apply io_reads_only_load_if_lazy; one_of
            | apply reads_only_getattr_in; in_list ].
  - unfold list_cameras. repeat io_reads_step;
      first [ apply io_reads_only_load_if_lazy; one_of
            | apply reads_only_getattr_in; in_list
            | apply reads_only_count_calibrated_sensors; in_list
            | apply reads_only_count_key_frame_channels; in_list ].
  - unfold list_categories. repeat io_reads_step;
      first [ apply io_reads_only_load_if_lazy; one_of
            | apply reads_only_getattr_in; in_list
            | apply reads_only_count_categories; in_list ].
  - unfold list_logs. repeat io_reads_step;
      first [ apply io_reads_only_load_if_lazy; one_of
            | apply reads_only_getattr_in; in_list ].
Qed.

End ListingFootprint.

(** ** Caches that do not show *)

Section History.
Context `{Environment}.

Lemma after_call_grows (σ : NuImages) (c : call) : grows σ (after_call σ c).
Proof.
  destruct c; simpl.
  - apply keeps_load_table.
  - apply keeps_get.
  - apply keeps_getind.
  - apply keeps_sample_to_key_frame.
  - apply keeps_render_image.
Qed.

(** The calls are calls on one object. *)
Lemma after_calls_same_object (calls : list call) :
  ∀ σ, version (after_calls σ calls) = version σ ∧
       dataroot (after_calls σ calls) = dataroot σ.
Proof.
  induction calls as [|c rest IH]; intros σ; [done|].
  destruct (after_call_grows σ c) as (Hv & Hd & _).
  destruct (IH (after_call σ c)) as [Hv' Hd'].
  split; simpl; congruence.
Qed.

(** The outcome of [sample_to_key_frame] when the sample_data file
    exists. *)
Lemma sample_to_key_frame_outcome (σ : NuImages) (s m : string) (tbl : table) :
  wf σ → table_on_disk (table_root σ) "sample_data" = Ok tbl →
  (sample_to_key_frame s m σ).1 =
    (mapping ← key_frame_loop key_frame_init tbl;
     inner ← dict_getitem mapping (VStr m);
     pydict_getitem inner (VStr s)).
Proof.
  intros Hwf Hdisk.
  destruct (key_frame_loop key_frame_init tbl) as [mp|e] eqn:Hloop.
  - by destruct (sample_to_key_frame_result σ s m tbl mp Hwf Hdisk Hloop)
      as (σ' & -> & _).
  - unfold sample_to_key_frame. mstep.
    pose proof (table_on_disk_inv _ _ _ Hdisk) as [Hex Htbl].
    destruct (sample_to_key_frame_map σ) as [m'|] eqn:Hmap.
    + pose proof (wf_key_frames _ Hwf _ Hmap). congruence.
    + mstep.
      destruct (getattr_spec "sample_data" σ Hwf ltac:(in_list))
        as (σ1 & -> & _).
      rewrite Hdisk. mstep. rewrite Hloop. by mstep.
Qed.

(** The outcome of [getind] when the file of the table exists, or the
    name is not that of a table. *)
Lemma getind_outcome (σ : NuImages) (t : string) (k : value) :
  wf σ → is_Ok (table_on_disk (table_root σ) t) = true →
  (getind t k σ).1 =
    if bool_decide (t ∈ table_names)
    then tbl ← table_on_disk (table_root σ) t; dict_getitem (index_of tbl) k
    else Err (KeyError (VStr t)).
Proof.
  intros Hwf Hdisk. case_bool_decide as Ht.
  - destruct (table_on_disk (table_root σ) t) as [tbl|] eqn:Htbl; [|done].
    by destruct (getind_on_disk t k tbl σ Hwf Ht Htbl) as (σ' & -> & _).
  - unfold getind. munfold.
    destruct (_token2ind σ !! t) eqn:Hix; [|done].
    exfalso. apply Ht, (wf_index_dom _ Hwf). by eauto.
Qed.

(** X19. Loading tables lazily, indexing them on first use and caching
    the key-frame mapping do not show in what the methods return or
    raise: after any sequence of calls, [get] and [render_image] have the
    outcome they have without those calls, and so have [getind] and
    [sample_to_key_frame] when the file of their table exists. *)
Theorem outcome_independent_of_history (σ : NuImages) (calls : list call) :
  wf σ →
  (∀ t k, (get t k (after_calls σ calls)).1 = (get t k σ).1) ∧
  (∀ tok wn wa ot st,
     (render_image tok wn wa ot st (after_calls σ calls)).1 =
     (render_image tok wn wa ot st σ).1) ∧
  (∀ t k, is_Ok (table_on_disk (table_root σ) t) = true →
     (getind t k (after_calls σ calls)).1 = (getind t k σ).1) ∧
  (∀ s m, is_Ok (table_on_disk (table_root σ) "sample_data") = true →
     (sample_to_key_frame s m (after_calls σ calls)).1 =
     (sample_to_key_frame s m σ).1).
Proof.
  intros Hwf.
  pose proof (after_calls_wf calls σ Hwf) as Hwf'.
  pose proof (after_calls_same_object calls σ) as [Hv Hd].
  assert (Hroot : table_root (after_calls σ calls) = table_root σ)
    by (unfold table_root; by rewrite Hv, Hd).
  split_and!.
  - intros t k. destruct (decide (t ∈ table_names)) as [Ht|Ht].
    + destruct (get_computes (version σ) (dataroot σ) t k Ht σ Hwf eq_refl eq_refl)
        as (σ1 & -> & _).
      by destruct (get_computes (version σ) (dataroot σ) t k Ht _ Hwf' Hv Hd)
        as (σ2 & -> & _).
    + unfold get. rewrite bool_decide_eq_false_2 by done. by munfold.
  - intros tok wn wa ot st. rewrite !render_image_result by done.
    by rewrite Hroot, Hd.
  - intros t k Hdisk. rewrite !getind_outcome by (by rewrite ?Hroot).
    by rewrite Hroot.
  - intros s m Hdisk.
    destruct (table_on_disk (table_root σ) "sample_data") as [tbl|] eqn:Htbl;
      [|done].
    rewrite (sample_to_key_frame_outcome _ s m tbl) by (by rewrite ?Hroot).
    by rewrite (sample_to_key_frame_outcome σ s m tbl).
Qed.

End History.

(** ** Attribute tokens that do not resolve *)

Section Attributes.
Context `{Environment}.

#[local] Arguments getitem : simpl never.
#[local] Arguments table_on_disk : simpl never.

Lemma lookup_attributes_raises (root : string) (atts : table) (s : string)
    (toks : list value) :
  table_on_disk root "attribute" = Ok atts → s ∉ token <$> atts →
  VStr s ∈ toks → is_Err (lookup_attributes root toks) = true.
Proof.
  intros Hdisk Hs. induction toks as [|a rest IH]; intros Hin.
  - by apply elem_of_nil in Hin.
  - simpl. destruct (lookup_record root "attribute" a) as [r|] eqn:Ha; [|done].
    simpl. apply elem_of_cons in Hin as [<-|Hin].
    + unfold lookup_record in Ha. rewrite Hdisk in Ha. simpl in Ha.
      unfold find_token in Ha. simpl in Ha. by rewrite index_of_absent in Ha.
    + specialize (IH Hin). by destruct (lookup_attributes root rest).
Qed.

(** X20. The attributes of an object annotation are looked up whether
    or not they are asked for.  If an attribute token of an annotation is
    the token of no attribute, every render that draws the annotation
    raises, also with [with_attributes] off and also when the annotation
    has no mask. *)
Theorem attribute_tokens_resolved_regardless (σ : NuImages) (tok : string)
    (wa : bool) (ot st : option (list string)) (a : record)
    (toks : list value) (s : string) (atts anns : table) :
  wf σ →
  getitem a "attribute_tokens" = Ok (VList toks) → VStr s ∈ toks →
  table_on_disk (table_root σ) "attribute" = Ok atts → s ∉ token <$> atts →
  annotations_of (table_root σ) "object_ann" tok ot = Ok anns → a ∈ anns →
  is_Err (render_image tok true wa ot st σ).1 = true.
Proof.
  intros Hwf Hat Hin Hdisk Hs Hanns Ha.
  pose proof (lookup_attributes_raises _ atts s toks Hdisk Hs Hin) as Hraise.
  assert (Ho : is_Err (object_cmds (table_root σ) get_colormap wa a) = true).
  { unfold object_cmds.
    destruct (resolve_color _ _ a) as [[n c]|]; simpl; [|done].
    destruct (getitem a "bbox"); simpl; [|done].
    rewrite Hat. simpl.
    by destruct (lookup_attributes (table_root σ) toks). }
  rewrite render_image_result by done. unfold render. simpl.
  destruct (base_image _ _ _ _ _) as [im0|]; simpl; [|done].
  destruct (annotations_of _ "surface_ann" _ _) as [sa|]; simpl; [|done].
  destruct (pass _ sa im0) as [im1|]; simpl; [|done].
  rewrite Hanns. simpl. by apply pass_raises with (a := a).
Qed.

End Attributes.

(** ** Objects constructed with [lazy] off *)

Lemma rests_ret {A} (a : A) : rests (mret a).
Proof. by intros σ _. Qed.

Lemma rests_lift {A} (r : result A) : rests (lift r).
Proof. by intros σ _. Qed.

Lemma rests_gets {A} (f : NuImages → A) : rests (gets f).
Proof. by intros σ _. Qed.

Lemma rests_raise {A} (e : exn) : rests (@raise A e).
Proof. by intros σ _. Qed.

Lemma rests_set_token2ind f : rests (modify (set_token2ind f)).
Proof. by intros σ _. Qed.

Lemma rests_set_key_frames m : rests (modify (set_sample_to_key_frame_map m)).
Proof. by intros σ _. Qed.

Lemma settled_tables (σ σ' : NuImages) :
  tables σ' = tables σ → settled σ → settled σ'.
Proof. intros Ht Hs t. rewrite Ht. apply Hs. Qed.

Lemma rests_bind {A B} (m : M A) (f : A → M B) :
  rests m → (∀ a, rests (f a)) → rests (m ≫= f).
Proof.
  intros Hm Hf σ Hs. unfold mbind, M_bind. destruct (Hm σ Hs) as [Ht Hr].
  destruct (m σ) as [[a|e] σ1]; simpl in *; [|done].
  destruct (Hf a σ1 (settled_tables _ _ Ht Hs)) as [Ht' Hr'].
  split; congruence.
Qed.

(** Structural steps of a proof that a method rests. *)
Ltac rests_step :=
  lazymatch goal with
  | |- rests (mret _) => apply rests_ret
  | |- rests (lift _) => apply rests_lift
  | |- rests (gets _) => apply rests_gets
  | |- rests (raise _) => apply rests_raise
  | |- rests (modify (set_token2ind _)) => apply rests_set_token2ind
  | |- rests (modify (set_sample_to_key_frame_map _)) =>
      apply rests_set_key_frames
  | |- rests (mbind _ _) => apply rests_bind; [|intros ?]
  | |- rests (match ?x with _ => _ end) => destruct x
  end.

Section Eager.
Context `{Environment}.

Lemma rests_load_table (t : string) : t ∈ table_names → rests (load_table t).
Proof.
  intros Ht σ Hs. rewrite load_table_run. unfold in_dict.
  rewrite (bool_decide_eq_true_2 (is_Some _)) by by apply Hs.
  by rewrite orb_true_r.
Qed.

Lemma rests_getattr (t : string) : rests (getattr_ t).
Proof.
  intros σ Hs. unfold getattr_. munfold.
  destruct (tables σ !! t) eqn:Htbl; [done|].
  case_bool_decide as Ht; [|done].
  apply Hs in Ht. rewrite Htbl in Ht. by destruct Ht.
Qed.

Lemma rests_index_loop (t : string) (members : table) :
  ∀ ind, rests (index_loop t ind members).
Proof.
  induction members as [|m rest IH]; intros ind; simpl; repeat rests_step.
  - unfold token2ind_setitem. apply rests_set_token2ind.
  - apply IH.
Qed.

Lemma rests_getind (t : string) (k : value) : rests (getind t k).
Proof.
  unfold getind. repeat rests_step.
  - apply rests_getattr.
  - apply rests_index_loop.
Qed.

Lemma rests_get (t : string) (k : value) : rests (get t k).
Proof.
  unfold get. repeat rests_step.
  - apply rests_getattr.
  - apply rests_getind.
Qed.

Lemma rests_category_color (ann : record) : rests (category_color ann).
Proof. unfold category_color. repeat rests_step. apply rests_get. Qed.

Lemma rests_get_attributes (l : list value) : rests (get_attributes l).
Proof.
  induction l as [|a rest IH]; simpl; repeat rests_step;
    [apply rests_get|apply IH].
Qed.

Lemma rests_draw_surface_anns (anns : table) :
  ∀ im, rests (draw_surface_anns anns im).
Proof.
  induction anns as [|a rest IH]; intros im; simpl; repeat rests_step;
    try apply IH.
  apply rests_category_color.
Qed.

Lemma rests_draw_object_anns (wa : bool) (anns : table) :
  ∀ im, rests (draw_object_anns wa anns im).
Proof.
  induction anns as [|a rest IH]; intros im; simpl; repeat rests_step;
    try apply IH.
  - apply rests_category_color.
  - apply rests_get_attributes.
Qed.

Lemma rests_render_image (tok : string) (wn wa : bool)
    (ot st : option (list string)) : rests (render_image tok wn wa ot st).
Proof.
  unfold render_image. repeat rests_step;
    first [ apply rests_get | apply rests_getattr
          | apply rests_draw_surface_anns | apply rests_draw_object_anns ].
Qed.

Lemma rests_sample_to_key_frame (s m : string) :
  rests (sample_to_key_frame s m).
Proof.
  unfold sample_to_key_frame. repeat rests_step. apply rests_getattr.
Qed.

Lemma after_calls_rest (calls : list call) :
  ∀ σ, settled σ → loads_tables_only calls →
  tables (after_calls σ calls) = tables σ ∧
  reads (after_calls σ calls) = reads σ.
Proof.
  induction calls as [|c rest IH]; intros σ Hs Hcalls; [done|].
  apply Forall_cons in Hcalls as [Hc Hrest].
  assert (Hstep : tables (after_call σ c) = tables σ ∧
                  reads (after_call σ c) = reads σ).
  { destruct c; simpl.
    - apply rests_load_table; [by apply Hc|done].
    - by apply rests_get.
    - by apply rests_getind.
    - by apply rests_sample_to_key_frame.
    - by apply rests_render_image. }
  destruct Hstep as [Ht Hr].
  destruct (IH (after_call σ c) (settled_tables _ _ Ht Hs) Hrest) as [Ht' Hr'].
  split; simpl; congruence.
Qed.

(** An object constructed with [lazy] off has all tables resident. *)
Lemma eager_settled (v d : string) (vb : bool) (σ0 : NuImages) :
  NuImages_new v d false vb = (Ok tt, σ0) →
  settled σ0 ∧ reads σ0 = table_names ∧
  ∀ t, t ∈ table_names → osp_exists (table_path σ0 t) = true.
Proof.
  rewrite init_run. destruct (osp_exists (osp_join d v)); [|done].
  destruct (load_all _ _) as [[u|e] σ'] eqn:Hload; [|done].
  intros [= <-]. apply load_all_inv in Hload as [Hex ->].
  split_and!.
  - intros t Ht. rewrite finish_tables, with_tables_loaded by done. by eauto.
  - rewrite finish_reads.
    by destruct (with_tables_config table_names (fresh_object v d false vb))
      as (_ & _ & _ & ->).
  - intros t Ht. by rewrite <- (Hex t Ht).
Qed.

End Eager.

Lemma io_rests_ret {A} (a : A) : io_rests (mret a).
Proof. by intros σ out _. Qed.

Lemma io_rests_lift {A} (r : result A) : io_rests (io_lift r).
Proof. by intros σ out _. Qed.

Lemma io_rests_print (line : string) : io_rests (print line).
Proof. by intros σ out _. Qed.

Lemma io_rests_print_rows {A} (row : A → result (option string)) (l : list A) :
  io_rests (print_rows row l).
Proof. intros σ out _. by rewrite print_rows_run. Qed.

Lemma io_rests_run_M {A} (m : M A) : rests m → io_rests (run_M m).
Proof. intros Hm σ out Hs. rewrite run_M_run. by apply Hm. Qed.

Lemma io_rests_bind {A B} (m : IO A) (f : A → IO B) :
  io_rests m → (∀ a, io_rests (f a)) → io_rests (m ≫= f).
Proof.
  intros Hm Hf σ out Hs. rewrite io_bind_run. destruct (Hm σ out Hs) as [Ht Hr].
  destruct (m (σ, out)) as [[a|e] [σ1 out1]]; simpl in *; [|done].
  destruct (Hf a σ1 out1 (settled_tables _ _ Ht Hs)) as [Ht' Hr'].
  split; congruence.
Qed.

Ltac io_rests_step :=
  lazymatch goal with
  | |- io_rests (mret _) => apply io_rests_ret
  | |- io_rests (io_lift _) => apply io_rests_lift
  | |- io_rests (print _) => apply io_rests_print
  | |- io_rests (print_rows _ _) => apply io_rests_print_rows
  | |- io_rests (run_M _) => apply io_rests_run_M
  | |- io_rests (mbind _ _) => apply io_rests_bind; [|intros ?]
  end.

(** The names of a list that is written out are table names. *)
Ltac table_names_only :=
  intros ?; unfold table_names; rewrite !elem_of_cons, !elem_of_nil; tauto.

Section EagerListings.
Context `{Environment} `{Console}.

Lemma rests_load_tables (names : list string) :
  (∀ t, t ∈ names → t ∈ table_names) → rests (load_tables names).
Proof.
  induction names as [|t rest IH]; intros Hsub; simpl; repeat rests_step.
  - apply rests_load_table, Hsub. left.
  - apply IH. intros t' ?. apply Hsub. by right.
Qed.

Lemma io_rests_load_if_lazy (names : list string) :
  (∀ t, t ∈ names → t ∈ table_names) → io_rests (load_if_lazy names).
Proof.
  intros Hsub. unfold load_if_lazy. apply io_rests_run_M.
  repeat rests_step. by apply rests_load_tables.
Qed.

Lemma rests_count_categories (sample_tokens : option (list string))
    (anns : table) :
  ∀ d, rests (count_categories sample_tokens d anns).
Proof.
  induction anns as [|a rest IH]; intros d; simpl; repeat rests_step;
    first [apply rests_get|apply IH].
Qed.

Lemma rests_count_calibrated_sensors (l : table) :
  ∀ d, rests (count_calibrated_sensors d l).
Proof.
  induction l as [|a rest IH]; intros d; simpl; repeat rests_step;
    first [apply rests_get|apply IH].
Qed.

Lemma rests_count_key_frame_channels (l : table) :
  ∀ d, rests (count_key_frame_channels d l).
Proof.
  induction l as [|a rest IH]; intros d; simpl; repeat rests_step;
    first [apply rests_get|apply IH].
Qed.

Lemma listings_rest :
  io_rests list_attributes ∧ io_rests list_cameras ∧
  (∀ sample_tokens, io_rests (list_categories sample_tokens)) ∧
  io_rests list_logs.
Proof.
  split_and!; [| |intros sample_tokens|].
  - unfold list_attributes. repeat io_rests_step;
      first [ apply io_rests_load_if_lazy; table_names_only
            | apply rests_getattr ].
  - unfold list_cameras. repeat io_rests_step;
      first [ apply io_rests_load_if_lazy; table_names_only
            | apply rests_getattr
            | apply rests_count_calibrated_sensors
            | apply rests_count_key_frame_channels ].
  - unfold list_categories. repeat io_rests_step;
      first [ apply io_rests_load_if_lazy; table_names_only
            | apply rests_getattr
            | apply rests_count_categories ].
  - unfold list_logs. repeat io_rests_step;
      first [ apply io_rests_load_if_lazy; table_names_only
            | apply rests_getattr ].
Qed.

(** X21. An object constructed with [lazy] off has read its ten files in
    the constructor and reads nothing afterwards: after any sequence of
    [get], [getind], [sample_to_key_frame] and [render_image] calls and
    of [load_table] calls for tables of the dataset, and after a listing
    on top of them, the files read are the ten table files, once each,
    and the table attributes are those the constructor set. *)
Theorem eager_object_reads_nothing_more (v d : string) (vb : bool)
    (σ0 : NuImages) (calls : list call) :
  NuImages_new v d false vb = (Ok tt, σ0) → loads_tables_only calls →
  (reads (after_calls σ0 calls) = table_names ∧
   tables (after_calls σ0 calls) = tables σ0) ∧
  ∀ out σ',
    σ' = (list_attributes (after_calls σ0 calls, out)).2.1 ∨
    σ' = (list_cameras (after_calls σ0 calls, out)).2.1 ∨
    (∃ sample_tokens,
       σ' = (list_categories sample_tokens (after_calls σ0 calls, out)).2.1) ∨
    σ' = (list_logs (after_calls σ0 calls, out)).2.1 →
    reads σ' = table_names ∧ tables σ' = tables σ0.
Proof.
  intros (Hs & Hr & _)%eager_settled Hcalls.
  destruct (after_calls_rest calls σ0 Hs Hcalls) as [Ht' Hr'].
  pose proof (settled_tables _ _ Ht' Hs) as Hs'.
  split; [split; congruence|].
  destruct listings_rest as (Ha & Hc & Hcat & Hl).
  intros out σ' [->|[->|[[sample_tokens ->]| ->]]].
  - destruct (Ha _ out Hs'). split; congruence.
  - destruct (Hc _ out Hs'). split; congruence.
  - destruct (Hcat sample_tokens _ out Hs'). split; congruence.
  - destruct (Hl _ out Hs'). split; congruence.
Qed.

End EagerListings.

Section LazyAndEager.
Context `{Environment}.

(** The outcome of [getind] on a constructed object. *)
Lemma getind_outcome_table (σ : NuImages) (t : string) (k : value) :
  wf σ → (t ∈ table_names → osp_exists (table_path σ t) = true) →
  (getind t k σ).1 =
    if bool_decide (t ∈ table_names)
    then dict_getitem (index_of (json_load (table_path σ t))) k
    else Err (KeyError (VStr t)).
Proof.
  intros Hwf Hex. case_bool_decide as Ht.
  - assert (Hdisk : table_on_disk (table_root σ) t =
                      Ok (json_load (table_path σ t))).
    { unfold table_on_disk. fold (table_path σ t). by rewrite Hex. }
    by destruct (getind_on_disk t k _ σ Hwf Ht Hdisk) as (σ' & -> & _).
  - unfold getind. munfold.
    destruct (_token2ind σ !! t) eqn:Hix; [|done].
    exfalso. apply Ht, (wf_index_dom _ Hwf). by eauto.
Qed.

(** X22. Lazy loading does not show in outcomes.  Take two objects
    constructed for the same version and data root, one with [lazy] on
    and one with [lazy] off: after any calls on either, [get], [getind],
    [sample_to_key_frame] and [render_image] return or raise the same on
    both. *)
Theorem lazy_and_eager_agree (v d : string) (vb vb' : bool)
    (σl σe : NuImages) (calls calls' : list call) :
  NuImages_new v d true vb = (Ok tt, σl) →
  NuImages_new v d false vb' = (Ok tt, σe) →
  (∀ t k, (get t k (after_calls σl calls)).1 =
          (get t k (after_calls σe calls')).1) ∧
  (∀ t k, (getind t k (after_calls σl calls)).1 =
          (getind t k (after_calls σe calls')).1) ∧
  (∀ s m, (sample_to_key_frame s m (after_calls σl calls)).1 =
          (sample_to_key_frame s m (after_calls σe calls')).1) ∧
  (∀ tok wn wa ot st,
     (render_image tok wn wa ot st (after_calls σl calls)).1 =
     (render_image tok wn wa ot st (after_calls σe calls')).1).
Proof.
  intros (Hwfl & Hvl & Hdl & _)%init_wf He.
  pose proof (eager_settled _ _ _ _ He) as (_ & _ & Hex).
  apply init_wf in He as (Hwfe & Hve & Hde & _).
  pose proof (after_calls_wf calls σl Hwfl) as Hwfl'.
  pose proof (after_calls_wf calls' σe Hwfe) as Hwfe'.
  pose proof (after_calls_same_object calls σl) as [Hvl' Hdl'].
  pose proof (after_calls_same_object calls' σe) as [Hve' Hde'].
  assert (Hpath : ∀ σ t, version σ = v → dataroot σ = d →
                    table_path σ t = table_path σe t).
  { intros σ t Hv Hd. apply table_path_eq; congruence. }
  assert (Hroot : ∀ σ, version σ = v → dataroot σ = d →
                    table_root σ = table_root σe).
  { intros σ Hv Hd. unfold table_root. congruence. }
  assert (Hvl2 : version (after_calls σl calls) = v) by congruence.
  assert (Hdl2 : dataroot (after_calls σl calls) = d) by congruence.
  assert (Hve2 : version (after_calls σe calls') = v) by congruence.
  assert (Hde2 : dataroot (after_calls σe calls') = d) by congruence.
  split_and!.
  - intros t k. destruct (decide (t ∈ table_names)) as [Ht|Ht].
    + destruct (get_computes v d t k Ht _ Hwfl' Hvl2 Hdl2) as (σ1 & -> & _).
      by destruct (get_computes v d t k Ht _ Hwfe' Hve2 Hde2) as (σ2 & -> & _).
    + unfold get. rewrite bool_decide_eq_false_2 by done. by munfold.
  - intros t k.
    rewrite !getind_outcome_table;
      [|done|intros Ht; rewrite Hpath by done; by apply Hex
       |done|intros Ht; rewrite Hpath by done; by apply Hex].
    by rewrite (Hpath (after_calls σl calls)), (Hpath (after_calls σe calls'))
      by done.
  - intros s m.
    assert (Hdisk : table_on_disk (table_root σe) "sample_data" =
                      Ok (json_load (table_path σe "sample_data"))).
    { unfold table_on_disk. fold (table_path σe "sample_data").
      rewrite Hex; [done|in_list]. }
    rewrite (sample_to_key_frame_outcome _ s m _ Hwfl')
      by (rewrite Hroot by done; exact Hdisk).
    by rewrite (sample_to_key_frame_outcome _ s m _ Hwfe')
      by (rewrite Hroot by done; exact Hdisk).
  - intros tok wn wa ot st. rewrite !render_image_result by done.
    rewrite (Hroot (after_calls σl calls)), (Hroot (after_calls σe calls'))
      by done.
    by rewrite Hdl2, Hde2.
Qed.

End LazyAndEager.

(** ** The modalities of [sample_to_key_frame] *)

Section Modalities.
Context `{Environment}.

#[local] Arguments getitem : simpl never.
#[local] Arguments truthy : simpl never.
#[local] Arguments eq_str : simpl never.

(** What one round of the loop files, and where. *)
Lemma key_frame_step_sound (mapping m' : gmap string (gmap pykey value))
    (sd : record) :
  mapping !! "camera" = None → key_frame_step mapping sd = Ok m' →
  (∀ k, k ≠ "lidar" → m' !! k = mapping !! k) ∧
  (∀ inner' key v, m' !! "lidar" = Some inner' → inner' !! key = Some v →
     (∃ inner, mapping !! "lidar" = Some inner ∧ inner !! key = Some v) ∨
     (v = VStr (token sd) ∧ key_frame_of key sd ∧ not_jpg sd)).
Proof.
  intros Hcam. unfold key_frame_step.
  destruct (getitem sd "is_key_frame") as [kf|] eqn:Hkf; simpl; [|done].
  destruct (truthy kf) eqn:Ht.
  2: { intros [= <-]. split; [done|]. intros inner' key v ??. left. by eauto. }
  destruct (getitem sd "fileformat") as [ff|] eqn:Hff; simpl; [|done].
  destruct (getitem sd "sample_token") as [st|] eqn:Hst; simpl; [|done].
  change (getitem sd "token") with (Ok (VStr (token sd)) : result value).
  simpl. destruct (eq_str ff "jpg") eqn:Hjpg; [by rewrite Hcam|].
  destruct (mapping !! "lidar") as [inner|] eqn:Hl; simpl; [|done].
  destruct (hashable st) as [k0|] eqn:Hk0; [|done].
  intros [= <-]. split.
  - intros k Hk. by rewrite lookup_insert_ne.
  - intros inner' key v. rewrite lookup_insert_eq. intros [= <-].
    destruct (decide (key = k0)) as [->|Hne].
    + rewrite lookup_insert_eq. intros [= <-]. right.
      split_and!; [done|by exists kf, st|by exists ff].
    + rewrite lookup_insert_ne by done. intros Hv. left. by eauto.
Qed.

Lemma key_frame_loop_sound (tbl : table) :
  ∀ mapping mp, mapping !! "camera" = None →
  key_frame_loop mapping tbl = Ok mp →
  (∀ k, k ≠ "lidar" → mp !! k = mapping !! k) ∧
  (∀ inner' key v, mp !! "lidar" = Some inner' → inner' !! key = Some v →
     (∃ inner, mapping !! "lidar" = Some inner ∧ inner !! key = Some v) ∨
     (∃ r, r ∈ tbl ∧ v = VStr (token r) ∧ key_frame_of key r ∧ not_jpg r)).
Proof.
  induction tbl as [|sd rest IH]; intros mapping mp Hcam; simpl.
  - intros [= <-]. split; [done|]. intros inner' key v ??. left. by eauto.
  - destruct (key_frame_step mapping sd) as [m1|] eqn:Hstep; simpl; [|done].
    destruct (key_frame_step_sound _ _ _ Hcam Hstep) as [Hk1 Hl1].
    intros Hloop.
    destruct (IH m1 mp) as [Hk Hl]; [by rewrite Hk1|done|].
    split.
    + intros k Hne. by rewrite Hk, Hk1.
    + intros inner' key v Hmp Hv.
      destruct (Hl inner' key v Hmp Hv) as [(inner1 & Hm1 & Hv1)|(r & Hr & ?)].
      * destruct (Hl1 inner1 key v Hm1 Hv1) as [?|(-> & ? & ?)]; [by left|].
        right. exists sd. split_and!; [left|done..].
      * right. exists r. split; [by right|done].
Qed.

(** X23. [sample_to_key_frame] returns for the modality ['lidar'] only.
    For every other modality it raises, ['image'] included, under which
    the mapping has a dict that is never filled; and what it returns is
    the token of a key frame of the sample_data table that belongs to the
    sample and is not a ['jpg']. *)
Theorem sample_to_key_frame_returns_for_lidar_only (σ : NuImages)
    (s m : string) (v : value) :
  wf σ → (sample_to_key_frame s m σ).1 = Ok v →
  m = "lidar" ∧
  ∃ r, r ∈ json_load (table_path σ "sample_data") ∧ v = VStr (token r) ∧
       key_frame_of (KStr s) r ∧ not_jpg r.
Proof.
  intros Hwf.
  assert (Hlook : ∀ mp,
    key_frame_loop key_frame_init (json_load (table_path σ "sample_data")) = Ok mp →
    (inner ← dict_getitem mp (VStr m); pydict_getitem inner (VStr s)) = Ok v →
    m = "lidar" ∧
    ∃ r, r ∈ json_load (table_path σ "sample_data") ∧ v = VStr (token r) ∧
         key_frame_of (KStr s) r ∧ not_jpg r).
  { intros mp Hloop.
    destruct (key_frame_loop_sound _ _ _ key_frame_init_camera Hloop)
      as [Hk Hl].
    destruct (decide (m = "lidar")) as [->|Hne].
    - simpl. destruct (mp !! "lidar") as [inner'|] eqn:Hmp; simpl; [|done].
      unfold pydict_getitem. simpl.
      destruct (inner' !! KStr s) as [v'|] eqn:Hv; [|done].
      intros [= ->]. split; [done|].
      destruct (Hl inner' (KStr s) v eq_refl Hv) as [(inner & Hi & Hiv)|?]; [|done].
      exfalso.
      assert (Hinit : key_frame_init !! "lidar" = Some (∅ : gmap pykey value))
        by by vm_compute.
      rewrite Hinit in Hi. injection Hi as <-.
      by rewrite lookup_empty in Hiv.
    - simpl. rewrite (Hk m Hne).
      destruct (decide (m = "image")) as [->|Hni].
      + assert (Hi : key_frame_init !! "image" = Some (∅ : gmap pykey value))
          by by vm_compute.
        rewrite Hi. simpl. unfold pydict_getitem. simpl.
        by rewrite lookup_empty.
      + unfold key_frame_init.
        by rewrite !lookup_insert_ne, lookup_empty by done. }
  unfold sample_to_key_frame. mstep.
  destruct (sample_to_key_frame_map σ) as [mp|] eqn:Hmap; mstep.
  - rewrite Hmap. mstep. apply Hlook. by apply (wf_key_frames _ Hwf).
  - destruct (getattr_spec "sample_data" σ Hwf ltac:(in_list))
      as (σ1 & -> & _).
    unfold table_on_disk. fold (table_path σ "sample_data").
    destruct (osp_exists _); mstep; [|done].
    destruct (key_frame_loop key_frame_init _) as [mp|] eqn:Hloop; mstep;
      [|done].
    by apply Hlook.
Qed.

End Modalities.

(** ** The further properties on the small dataset *)

Section FullFurther.
#[local] Existing Instance Mini.full.


Lemma lookup_complete_witness :
  (∃ r, (get "category" (VStr "c_adult") (Mini.store Mini.files true)).1 = Ok r ∧
        r ∈ Mini.categories ∧ token r = "c_adult") ∧
  (get "category" (VStr "c_tram") (Mini.store Mini.files true)).1 =
    Err (KeyError (VStr "c_tram")).
Proof.
  split.
  - apply (lookup_complete (Mini.store Mini.files true) "category"
             Mini.categories "c_adult").
    + apply store_wf. vm_compute. reflexivity.
    + in_list.
    + vm_compute. reflexivity.
    + in_list.
  - apply (lookup_complete (Mini.store Mini.files true) "category"
             Mini.categories "c_tram").
    + apply store_wf. vm_compute. reflexivity.
    + in_list.
    + vm_compute. reflexivity.
    + in_list.
Defined.

Lemma lookup_builds_once_witness :
  warm "category" (get "category" (VStr "c_road") (Mini.store Mini.files true)).2 ∧
  (get "category" (VStr "c_adult")
     (get "category" (VStr "c_road") (Mini.store Mini.files true)).2).2 =
    (get "category" (VStr "c_road") (Mini.store Mini.files true)).2.
Proof.
  destruct (lookup_builds_once (Mini.store Mini.files true) "category"
              (VStr "c_road")) as (Hwarm & _ & Hsame).
  - apply store_wf. vm_compute. reflexivity.
  - in_list.
  - vm_compute. reflexivity.
  - split; [exact Hwarm|].
    exact (proj1 (Hsame _ Hwarm (VStr "c_adult"))).
Defined.

Lemma key_frames_built_once_witness :
  (sample_to_key_frame "s1" "lidar" (Mini.store Mini.files true)).1 =
    Err (KeyError (VStr "camera")) ∧
  sample_to_key_frame_map
    (sample_to_key_frame "s1" "lidar" (Mini.store Mini.files true)).2 = None ∧
  (sample_to_key_frame "s1" "camera"
     (sample_to_key_frame "s1" "lidar" (Mini.store Mini.files true)).2).1 =
    Err (KeyError (VStr "camera")).
Proof.
  pose proof (key_frames_built_once (Mini.store Mini.files true) "s1" "lidar"
                Mini.sample_datas) as Hbuilt.
  assert (Hloop : key_frame_loop key_frame_init Mini.sample_datas =
                    Err (KeyError (VStr "camera"))) by (vm_compute; reflexivity).
  rewrite Hloop in Hbuilt.
  destruct Hbuilt as (Hraise & Hnone & Hagain).
  - apply store_wf. vm_compute. reflexivity.
  - vm_compute. reflexivity.
  - split_and!; [exact Hraise|exact Hnone|apply Hagain].
Defined.

Lemma allow_list_extensional_witness :
  (render_image "sd_cam" true false None (Some ["su_road"; "su_gone"; "su_road"])
     (Mini.store Mini.files true)).1 =
  (render_image "sd_cam" true false None (Some ["su_road"])
     (Mini.store Mini.files true)).1.
Proof.
  apply allow_list_extensional.
  - apply store_wf. vm_compute. reflexivity.
  - intros tbl b Hdisk Hb.
    assert (Htbl : Ok tbl = Ok Mini.surface_anns)
      by (rewrite <- Hdisk; vm_compute; reflexivity).
    injection Htbl as ->.
    apply elem_of_cons in Hb as [->|Hb]; [reflexivity|].
    apply elem_of_cons in Hb as [->|Hb]; [reflexivity|].
    by apply elem_of_nil in Hb.
  - reflexivity.
Defined.

Lemma render_without_annotations_of_it_witness :
  (render_image "sd_cam" true false (Some []) (Some [])
     (Mini.store Mini.files true)).1 = Ok Mini.untouched.
Proof.
  rewrite (render_without_annotations_of_it (Mini.store Mini.files true)
             "sd_cam" false (Some []) (Some [])
             Mini.surface_anns Mini.object_anns).
  - vm_compute. reflexivity.
  - apply store_wf. vm_compute. reflexivity.
  - vm_compute. reflexivity.
  - vm_compute. reflexivity.
  - repeat (apply Forall_cons_2;
            [eexists; split; [reflexivity|right; reflexivity]|]).
    apply Forall_nil_2.
  - repeat (apply Forall_cons_2;
            [eexists; split; [reflexivity|right; reflexivity]|]).
    apply Forall_nil_2.
Defined.

Lemma render_image_plain_witness :
  (render_image "sd_cam" false false None None (Mini.store Mini.files true)).1 =
    Ok Mini.untouched ∧
  tables (render_image "sd_cam" false false None None
            (Mini.store Mini.files true)).2 !! "surface_ann" = None.
Proof.
  rewrite (render_image_plain (Mini.store Mini.files true) "sd_cam" false
             None None).
  - split; vm_compute; reflexivity.
  - apply store_wf. vm_compute. reflexivity.
Defined.

End FullFurther.

Section NoSensor.
#[local] Existing Instance Mini.no_sensor.

Lemma getind_missing_file_witness :
  (getind "sensor" (VStr "x") (Mini.store Mini.files_no_sensor true)).1 =
    Err (AssertionError "Error: Table sensor does not exist!") ∧
  (getind "sensor" (VStr "x")
     (getind "sensor" (VStr "x") (Mini.store Mini.files_no_sensor true)).2).1 =
    Err (KeyError (VStr "x")).
Proof.
  destruct (getind_missing_file (Mini.store Mini.files_no_sensor true)
              "sensor" (VStr "x")) as (Hfirst & Hlater & _).
  - apply store_wf. vm_compute. reflexivity.
  - in_list.
  - vm_compute. reflexivity.
  - vm_compute. reflexivity.
  - rewrite Hfirst. split; [reflexivity|]. simpl. by rewrite Hlater.
Defined.

End NoSensor.

(** No record of a written-out table is a key frame of the sample. *)
Ltac no_key_frame :=
  intros (? & ? & Hkf & Ht & Hst & Hk);
  vm_compute in Hkf, Hst; simplify_eq; vm_compute in Ht, Hk; discriminate.

Section LidarOnly.
#[local] Existing Instance Mini.lidar_only.

Lemma sample_to_key_frame_lidar_witness :
  (sample_to_key_frame "s1" "lidar" (Mini.store Mini.files_lidar true)).1 =
    Ok (VStr "sd_l2") ∧
  (sample_to_key_frame "s9" "lidar" (Mini.store Mini.files_lidar true)).1 =
    Err (KeyError (VStr "s9")).
Proof.
  assert (Hwf : wf (Mini.store Mini.files_lidar true))
    by (apply store_wf; vm_compute; reflexivity).
  assert (Hready : Forall lidar_ready (json_load
            (table_path (Mini.store Mini.files_lidar true) "sample_data"))).
  { repeat (apply Forall_cons_2;
      [eexists; split; [reflexivity|];
       first [ intros Ht; vm_compute in Ht; discriminate
             | intros _; do 3 eexists; split_and!; reflexivity ]|]).
    apply Forall_nil_2. }
  split.
  - destruct (sample_to_key_frame_lidar (Mini.store Mini.files_lidar true) "s1"
      (json_load (table_path (Mini.store Mini.files_lidar true) "sample_data")))
      as [Hlast _]; [exact Hwf|vm_compute; reflexivity|exact Hready|].
    apply (Hlast
      [Mini.rec_ "sd_l1" [("sample_token", VStr "s1"); ("fileformat", VStr "bin");
                          ("is_key_frame", VBool true)];
       Mini.rec_ "sd_c1" [("sample_token", VStr "s1"); ("fileformat", VStr "jpg");
                          ("is_key_frame", VBool false)]]
      (Mini.rec_ "sd_l2" [("sample_token", VStr "s1"); ("fileformat", VStr "bin");
                          ("is_key_frame", VBool true)])
      [Mini.rec_ "sd_l3" [("sample_token", VStr "s2"); ("fileformat", VStr "bin");
                          ("is_key_frame", VBool true)]]).
    + vm_compute. reflexivity.
    + do 2 eexists. split_and!; reflexivity.
    + each_of no_key_frame.
  - destruct (sample_to_key_frame_lidar (Mini.store Mini.files_lidar true) "s9"
      (json_load (table_path (Mini.store Mini.files_lidar true) "sample_data")))
      as [_ Hnone]; [exact Hwf|vm_compute; reflexivity|exact Hready|].
    apply Hnone. each_of no_key_frame.
Defined.

End LidarOnly.

Section Stray.
#[local] Existing Instance Mini.stray.

Lemma render_scans_whole_tables_witness :
  (render_image "sd_cam" true false None (Some ["su_road"])
     (Mini.store Mini.files_stray true)).1 =
    Err (KeyError (VStr "sample_data_token")) ∧
  is_Err (render_image "sd_cam" true false (Some []) None
            (Mini.store Mini.files_stray true)).1 = true.
Proof.
  split.
  - destruct (render_scans_whole_tables (Mini.store Mini.files_stray true)
      "sd_cam" false None (Some ["su_road"])
      [Mini.rec_ "su_road" [("sample_data_token", VStr "sd_cam");
                            ("category_token", VStr "c_road");
                            ("mask", Mini.bitmask [true; true; false; false])];
       Mini.rec_ "su_stray" [("category_token", VStr "c_road")]]
      (Mini.rec_ "su_stray" [("category_token", VStr "c_road")]))
      as [Hsurface _].
    + apply store_wf. vm_compute. reflexivity.
    + in_table.
    + vm_compute. reflexivity.
    + apply (Hsurface ltac:(vm_compute; reflexivity)
               ([Mini.white; Mini.white; Mini.white; Mini.white], [])).
      vm_compute. reflexivity.
  - destruct (render_scans_whole_tables (Mini.store Mini.files_stray true)
      "sd_cam" false (Some []) None
      [Mini.rec_ "ob_stray" [("category_token", VStr "c_adult")]]
      (Mini.rec_ "ob_stray" [("category_token", VStr "c_adult")]))
      as [_ Hobject].
    + apply store_wf. vm_compute. reflexivity.
    + in_table.
    + vm_compute. reflexivity.
    + apply Hobject. vm_compute. reflexivity.
Defined.

End Stray.

Section Fleet.
#[local] Existing Instance Mini.fleet.
#[local] Existing Instance Mini.console.





End Fleet.

Section FullHistory.
#[local] Existing Instance Mini.full.

Lemma outcome_independent_of_history_witness :
  (get "category" (VStr "c_road")
     (after_calls (Mini.store Mini.files true)
        [Call_render_image "sd_cam" true false None None;
         Call_getind "category" (VStr "c_tram");
         Call_sample_to_key_frame "s1" "lidar"])).1 =
    Ok (Mini.rec_ "c_road" [("name", VStr "flat.driveable_surface")]) ∧
  (getind "category" (VStr "c_adult")
     (after_calls (Mini.store Mini.files true)
        [Call_load_table "category"; Call_get "category" (VStr "c_road")])).1 =
    Ok 1%nat.
Proof.
  split.
  - destruct (outcome_independent_of_history (Mini.store Mini.files true)
      [Call_render_image "sd_cam" true false None None;
       Call_getind "category" (VStr "c_tram");
       Call_sample_to_key_frame "s1" "lidar"]) as (Hget & _).
    + apply store_wf. vm_compute. reflexivity.
    + rewrite Hget. vm_compute. reflexivity.
  - destruct (outcome_independent_of_history (Mini.store Mini.files true)
      [Call_load_table "category"; Call_get "category" (VStr "c_road")])
      as (_ & _ & Hgetind & _).
    + apply store_wf. vm_compute. reflexivity.
    + rewrite Hgetind; vm_compute; reflexivity.
Defined.

End FullHistory.

Section Orphan.
#[local] Existing Instance Mini.orphan.

Lemma attribute_tokens_resolved_regardless_witness :
  is_Err (render_image "sd_cam" true false None None
            (Mini.store Mini.files_orphan true)).1 = true.
Proof.
  apply (attribute_tokens_resolved_regardless
           (Mini.store Mini.files_orphan true) "sd_cam" false None None
           (Mini.rec_ "ob_orphan" [("sample_data_token", VStr "sd_cam");
                                   ("category_token", VStr "c_adult");
                                   ("bbox", VList [VNum 0; VNum 0; VNum 1; VNum 1]);
                                   ("attribute_tokens", VList [VStr "a_gone"]);
                                   ("mask", VNone)])
           [VStr "a_gone"] "a_gone" Mini.attributes
           [Mini.rec_ "ob_orphan" [("sample_data_token", VStr "sd_cam");
                                   ("category_token", VStr "c_adult");
                                   ("bbox", VList [VNum 0; VNum 0; VNum 1; VNum 1]);
                                   ("attribute_tokens", VList [VStr "a_gone"]);
                                   ("mask", VNone)]]).
  - apply store_wf. vm_compute. reflexivity.
  - vm_compute. reflexivity.
  - in_table.
  - vm_compute. reflexivity.
  - in_list.
  - vm_compute. reflexivity.
  - in_table.
Defined.

End Orphan.

Section FullEager.
#[local] Existing Instance Mini.full.
#[local] Existing Instance Mini.console.

Lemma eager_object_reads_nothing_more_witness :
  reads (after_calls (Mini.store Mini.files false)
           [Call_render_image "sd_cam" true true None None;
            Call_load_table "category";
            Call_getind "sensor" (VStr "x")]) = table_names ∧
  reads (list_logs
           (after_calls (Mini.store Mini.files false)
              [Call_render_image "sd_cam" true true None None;
               Call_load_table "category";
               Call_getind "sensor" (VStr "x")], [])).2.1 = table_names.
Proof.
  destruct (eager_object_reads_nothing_more "v1.0-mini" Mini.root false
              (Mini.store Mini.files false)
              [Call_render_image "sd_cam" true true None None;
               Call_load_table "category";
               Call_getind "sensor" (VStr "x")]) as [[Hreads _] Hlist].
  - vm_compute. reflexivity.
  - repeat (apply Forall_cons_2; [intros t; intros [= <-] || discriminate|]);
      [in_list|apply Forall_nil_2].
  - split; [exact Hreads|].
    refine (proj1 (Hlist [] _ _)). do 3 right. reflexivity.
Defined.

Lemma lazy_and_eager_agree_witness :
  (get "category" (VStr "c_adult")
     (after_calls (Mini.store Mini.files true) [])).1 =
  (get "category" (VStr "c_adult")
     (after_calls (Mini.store Mini.files false)
        [Call_render_image "sd_cam" true false None None])).1.
Proof.
  destruct (lazy_and_eager_agree "v1.0-mini" Mini.root false false
              (Mini.store Mini.files true) (Mini.store Mini.files false)
              [] [Call_render_image "sd_cam" true false None None])
    as (Hget & _).
  - vm_compute. reflexivity.
  - vm_compute. reflexivity.
  - apply Hget.
Defined.

End FullEager.

Section LidarModalities.
#[local] Existing Instance Mini.lidar_only.

Lemma sample_to_key_frame_returns_for_lidar_only_witness :
  "lidar" = "lidar" ∧
  ∃ r, r ∈ json_load (table_path (Mini.store Mini.files_lidar true) "sample_data") ∧
       VStr "sd_l2" = VStr (token r) ∧ key_frame_of (KStr "s1") r ∧ not_jpg r.
Proof.
  apply (sample_to_key_frame_returns_for_lidar_only
           (Mini.store Mini.files_lidar true) "s1" "lidar" (VStr "sd_l2")).
  - apply store_wf. vm_compute. reflexivity.
  - vm_compute. reflexivity.
Defined.

End LidarModalities.
